(** * svg-writer: a shallow embedding of [svg_writer.hpp] and its properties

    The header [include/svg_writer/svg_writer.hpp] builds SVG markup as
    strings.  This development embeds its value types, the coordinate
    transform, the shape hierarchy, markers, animations and the document
    assembly as Rocq functions, and proves the properties the
    specification states about them.

    Conventions of the embedding:
    - a C++ [double] is a binary64 primitive float ([float]), so that
      arithmetic and comparisons behave as in the program (NaN compares
      false, rounding is IEEE 754);
    - [int] and [unsigned] are [Z] (no arithmetic that could wrap is done
      on them);
    - [std::string] is [string]; [std::vector<T>] is [list T];
    - [svg::optional<T>] is [option T], and reading through an invalid one
      throws, as does [Marker::toString] on an empty id: functions that can
      throw return a [result];
    - a [const Marker*] held by a line or polyline is the marker it points
      to at the time of serialization ([None] for [nullptr]);
    - [std::stringstream << v] appends the default formatting of [v]
      ([Stream.show_double], [Stream.show_int]). *)

From Stdlib Require Import Floats ZArith Bool List Ascii String Lia.
From Stdlib Require Import Sorting.Sorted Sorting.Permutation.
Import ListNotations.

Set Warnings "-inexact-float".

Open Scope list_scope.
Open Scope string_scope.
Open Scope float_scope.

(** ** Exceptions *)

Inductive exception : Type :=
| invalid_argument (what : string)
| runtime_error (what : string).

Inductive result (A : Type) : Type :=
| Ok (a : A)
| Throw (e : exception).
Arguments Ok {A} a.
Arguments Throw {A} e.

Definition bind {A B : Type} (r : result A) (k : A -> result B) : result B :=
  match r with
  | Ok a => k a
  | Throw e => Throw e
  end.

Notation "x <- r ;; k" := (bind r (fun x => k))
  (at level 61, r at next level, right associativity).

Fixpoint mapM {A B : Type} (f : A -> result B) (l : list A) : result (list B) :=
  match l with
  | [] => Ok []
  | a :: r => b <- f a ;; bs <- mapM f r ;; Ok (b :: bs)
  end.

(** ** Stream formatting

    What [operator<<] of a default-constructed [std::stringstream] appends
    for an [int]/[unsigned] and for a [double] (general notation with six
    significant digits, as [printf("%g")]). *)

Module Stream.

Local Open Scope Z_scope.

Definition digit (n : Z) : ascii := ascii_of_nat (48 + Z.to_nat (n mod 10)).

Fixpoint digits_from (fuel : nat) (n : Z) (acc : string) : string :=
  match fuel with
  | O => acc
  | S fuel' =>
      let acc' := String (digit n) acc in
      if (n / 10 =? 0) then acc' else digits_from fuel' (n / 10) acc'
  end.

(** Decimal digits of a non-negative integer. *)
Definition digits (n : Z) : string :=
  digits_from (S (Z.to_nat (Z.log2 n))) n "".

Definition show_int (n : Z) : string :=
  if (n <? 0) then "-" ++ digits (- n) else digits n.

Fixpoint zeros (n : nat) : string :=
  match n with
  | O => ""
  | S n' => String "0" (zeros n')
  end.

(** Removes the trailing zeros of a digit string. *)
Fixpoint strip_zeros (s : string) : string :=
  match s with
  | "" => ""
  | String c r =>
      let r' := strip_zeros r in
      if (Ascii.eqb c "0" && String.eqb r' "")%bool then "" else String c r'
  end.

Definition fraction (frac : string) : string :=
  let f := strip_zeros frac in
  if String.eqb f "" then "" else "." ++ f.

(** [10^k <= num / den], for positive [num] and [den]. *)
Definition pow10_le (k num den : Z) : bool :=
  if (0 <=? k) then (10 ^ k * den <=? num) else (den <=? num * 10 ^ (- k)).

Definition ndigits (n : Z) : Z := Z.of_nat (String.length (digits n)).

(** The decimal exponent of [num / den]: the largest [X] with
    [10^X <= num / den]. *)
Definition decimal_exponent (num den : Z) : Z :=
  let e := (ndigits num - ndigits den) in
  if pow10_le e num den then e else (e - 1).

Definition round_half_even (n d : Z) : Z :=
  let q := (n / d) in
  match (2 * (n mod d) ?= d) with
  | Lt => q
  | Gt => (q + 1)
  | Eq => if Z.even q then q else (q + 1)
  end.

(** [num / den] rounded to six significant digits: the digits as an
    integer in [[100000, 999999]] and the decimal exponent of the first. *)
Definition six_digits (num den : Z) : Z * Z :=
  let X := decimal_exponent num den in
  let D := if (X <=? 5) then round_half_even (num * 10 ^ (5 - X)) den
           else round_half_even num (den * 10 ^ (X - 5)) in
  if (D =? 1000000) then (100000, X + 1) else (D, X).

Definition show_exponent (X : Z) : string :=
  (if (X <? 0) then "-" else "+") ++
  (if (Z.abs X <? 10) then "0" else "") ++ digits (Z.abs X).

(** The magnitude [m * 2^e] ([m] positive) in the style [%g] selects. *)
Definition show_finite (m e : Z) : string :=
  let num := if (0 <=? e) then (m * 2 ^ e) else m in
  let den := if (0 <=? e) then 1 else (2 ^ (- e)) in
  let '(D, X) := six_digits num den in
  let ds := digits D in
  if ((-4 <=? X) && (X <? 6))%bool then
    if (0 <=? X) then
      let n := S (Z.to_nat X) in
      substring 0 n ds ++ fraction (substring n (6 - n)%nat ds)
    else
      "0." ++ zeros (Z.to_nat (- X - 1)) ++ strip_zeros ds
  else
    substring 0 1 ds ++ fraction (substring 1 5 ds) ++ "e" ++ show_exponent X.

(** The sign of a NaN is not observable on a primitive float; it is
    printed unsigned. *)
Definition show_double (f : float) : string :=
  match Prim2SF f with
  | S754_nan => "nan"
  | S754_infinity s => if s then "-inf" else "inf"
  | S754_zero s => if s then "-0" else "0"
  | S754_finite s m e => (if s then "-" else "") ++ show_finite (Zpos m) e
  end.

End Stream.

(** ** Utility XML/string functions *)

(** The double-quote character (ASCII 34) of the C++ literals. *)
Definition dq : string := String "034"%char "".

(** [attribute] is a template over the value type; the value arrives here
    already formatted by the stream. *)
Definition attribute (attribute_name value unit : string) : string :=
  attribute_name ++ "=" ++ dq ++ value ++ unit ++ dq ++ " ".

Definition elemStart (element_name : string) (single : bool) : string :=
  String "009"%char "<" ++ element_name ++
  (if single then ">" ++ String "010"%char "" else " ").

Definition elemEnd (element_name : string) : string :=
  "</" ++ element_name ++ ">" ++ String "010"%char "".

Definition emptyElemEnd : string := "/>" ++ String "010"%char "".

(** [std::equal(first1, last1, first2)]: the first range against the
    elements of the second, position by position. *)
Fixpoint std_equal (range1 range2 : list ascii) : bool :=
  match range1, range2 with
  | [], _ => true
  | a :: r1, b :: r2 => Ascii.eqb a b && std_equal r1 r2
  | _ :: _, [] => false
  end.

(** The characters of a string from [rbegin()] to [rend()]. *)
Definition reversed (s : string) : list ascii := rev (list_ascii_of_string s).

Definition ends_with (value ending : string) : bool :=
  if (String.length value <? String.length ending)%nat then false
  else std_equal (reversed ending) (reversed value).

Definition valid_num (x : float) : bool :=
  negb (is_infinity x) && negb (is_nan x).

Definition eps_default : float := 1e-10.

Definition equal (a b eps : float) : bool := abs (a - b) <? eps.

(** Reading through an [optional] with [operator->]. *)
Definition deref {T : Type} (o : option T) : result T :=
  match o with
  | Some v => Ok v
  | None => Throw (runtime_error "Invalid value in svg::optional accessed.")
  end.

(** ** Geometry *)

Record Dimensions : Type := mkDimensions
  { Dimensions_width : float; Dimensions_height : float }.

(** [Dimensions(double combined = 0)]. *)
Definition Dimensions_combined (combined : float) : Dimensions :=
  mkDimensions combined combined.

Record Point : Type := mkPoint { Point_x : float; Point_y : float }.

Definition Point_set_x (p : Point) (v : float) : Point := mkPoint v (Point_y p).
Definition Point_set_y (p : Point) (v : float) : Point := mkPoint (Point_x p) v.

Fixpoint getMinPoint_loop (points : list Point) (min : Point) : Point :=
  match points with
  | [] => min
  | p :: rest =>
      let min := if Point_x p <? Point_x min then Point_set_x min (Point_x p) else min in
      let min := if Point_y p <? Point_y min then Point_set_y min (Point_y p) else min in
      getMinPoint_loop rest min
  end.

Definition getMinPoint (points : list Point) : option Point :=
  match points with
  | [] => None
  | p0 :: _ => Some (getMinPoint_loop points p0)
  end.

Fixpoint getMaxPoint_loop (points : list Point) (max : Point) : Point :=
  match points with
  | [] => max
  | p :: rest =>
      let max := if Point_x max <? Point_x p then Point_set_x max (Point_x p) else max in
      let max := if Point_y max <? Point_y p then Point_set_y max (Point_y p) else max in
      getMaxPoint_loop rest max
  end.

Definition getMaxPoint (points : list Point) : option Point :=
  match points with
  | [] => None
  | p0 :: _ => Some (getMaxPoint_loop points p0)
  end.

(** ** Layout and the coordinate transform *)

Inductive Origin : Type := TopLeft | BottomLeft | TopRight | BottomRight.

Definition Origin_eqb (a b : Origin) : bool :=
  match a, b with
  | TopLeft, TopLeft | BottomLeft, BottomLeft
  | TopRight, TopRight | BottomRight, BottomRight => true
  | _, _ => false
  end.

Record Layout : Type := mkLayout
  { Layout_dimensions : Dimensions;
    Layout_scale : float;
    Layout_origin : Origin;
    Layout_origin_offset : Point }.

(** [Layout(dims = Dimensions(400, 300), orig = BottomLeft, dim_scale = 1,
    orig_offset = Point(0, 0))]. *)
Definition Layout_new (dims : Dimensions) (orig : Origin) (dim_scale : float)
    (orig_offset : Point) : Layout :=
  mkLayout dims dim_scale orig orig_offset.

Definition Layout_default : Layout :=
  Layout_new (mkDimensions 400 300) BottomLeft 1 (mkPoint 0 0).

Definition translateX (x : float) (layout : Layout) : float :=
  if Origin_eqb (Layout_origin layout) BottomRight
     || Origin_eqb (Layout_origin layout) TopRight
  then Dimensions_width (Layout_dimensions layout)
       - ((x + Point_x (Layout_origin_offset layout)) * Layout_scale layout)
  else (Point_x (Layout_origin_offset layout) + x) * Layout_scale layout.

Definition translateY (y : float) (layout : Layout) : float :=
  if Origin_eqb (Layout_origin layout) BottomLeft
     || Origin_eqb (Layout_origin layout) BottomRight
  then Dimensions_height (Layout_dimensions layout)
       - ((y + Point_y (Layout_origin_offset layout)) * Layout_scale layout)
  else (Point_y (Layout_origin_offset layout) + y) * Layout_scale layout.

Definition translateScale (dimension : float) (layout : Layout) : float :=
  dimension * Layout_scale layout.

(** [Point] translated to native coordinates, as every shape does with
    its points. *)
Definition translate (p : Point) (layout : Layout) : float * float :=
  (translateX (Point_x p) layout, translateY (Point_y p) layout).

(** ** Identifiable *)

Definition serializeId (id : string) : string :=
  if String.eqb id "" then "" else attribute "id" id "".

(** ** Style primitives *)

Inductive Defaults : Type :=
| Transparent | Aqua | Black | Gray | Blue | Brown | Cyan | Fuchsia | Green
| Lime | Magenta | Orange | Purple | Red | Silver | White | Yellow | Random.

Record Color : Type := mkColor
  { Color_transparent : bool;
    Color_red : Z;
    Color_green : Z;
    Color_blue : Z }.

(** [Color(unsigned char r, unsigned char g, unsigned char b)]: an
    argument is converted to [unsigned char], that is reduced modulo 256. *)
Definition Color_rgb (r g b : Z) : Color :=
  mkColor false (r mod 256)%Z (g mod 256)%Z (b mod 256)%Z.

(** [assign(int r, int g, int b)] on the colour the constructor from a
    default starts with, which is not transparent. *)
Definition Color_assign (r g b : Z) : Color := mkColor false r g b.

(** [Color(Defaults color)]; [rand] holds the three values [rand()]
    returns on the [Random] branch, the only one that calls it. *)
Definition Color_of (color : Defaults) (rand : Z * Z * Z) : Color :=
  match color with
  | Aqua => Color_assign 0 255 255
  | Black => Color_assign 0 0 0
  | Gray => Color_assign 127 127 127
  | Blue => Color_assign 0 0 255
  | Brown => Color_assign 165 42 42
  | Cyan => Color_assign 0 255 255
  | Fuchsia => Color_assign 255 0 255
  | Green => Color_assign 0 128 0
  | Lime => Color_assign 0 255 0
  | Magenta => Color_assign 255 0 255
  | Orange => Color_assign 255 165 0
  | Purple => Color_assign 128 0 128
  | Red => Color_assign 255 0 0
  | Silver => Color_assign 192 192 192
  | White => Color_assign 255 255 255
  | Yellow => Color_assign 255 255 0
  | Random =>
      let '(r, g, b) := rand in
      Color_assign (r mod 256)%Z (g mod 256)%Z (b mod 256)%Z
  | Transparent => mkColor true 0 0 0
  end.

Definition no_rand : Z * Z * Z := (0, 0, 0)%Z.

Definition Color_toString (_ : Layout) (c : Color) : string :=
  if Color_transparent c then "none"
  else "rgb(" ++ Stream.show_int (Color_red c) ++ "," ++
       Stream.show_int (Color_green c) ++ "," ++
       Stream.show_int (Color_blue c) ++ ")".

Record Fill : Type := mkFill { Fill_color : Color; Fill_opacity : float }.

(** [Fill(Color fill_color = Color::Transparent)]. *)
Definition Fill_of_color (fill_color : Color) : Fill := mkFill fill_color 1.
Definition Fill_default : Fill := Fill_of_color (Color_of Transparent no_rand).

(** [Fill(Color::Defaults fill_color, double opacity_level = 1.0)]. *)
Definition Fill_of_default (fill_color : Defaults) (rand : Z * Z * Z)
    (opacity_level : float) : Fill :=
  mkFill (Color_of fill_color rand) opacity_level.

Definition Fill_toString (l : Layout) (f : Fill) : string :=
  attribute "fill" (Color_toString l (Fill_color f)) "" ++
  (if Fill_opacity f <? 1
   then attribute "fill-opacity" (Stream.show_double (Fill_opacity f)) ""
   else "").

Record Stroke : Type := mkStroke
  { Stroke_width : float;
    Stroke_color : Color;
    Stroke_nonScaling : bool;
    Stroke_miterlimit : float;
    Stroke_dasharray : list Z;
    Stroke_dashoffset : Z;
    Stroke_opacity : float }.

(** [Stroke()] with every argument at its default. *)
Definition Stroke_default : Stroke :=
  mkStroke (-1) (Color_of Transparent no_rand) false (-1) [] 0%Z 1.

(** [Stroke(w, stroke_color)], the other arguments at their defaults. *)
Definition Stroke_of (w : float) (stroke_color : Color) : Stroke :=
  mkStroke w stroke_color false (-1) [] 0%Z 1.

(** The conversion of an [unsigned] to [double]. *)
Definition double_of_unsigned (n : Z) : float := of_uint63 (Uint63.of_Z n).

(** The loop that joins the dash array with commas. *)
Fixpoint Stroke_dasharray_toString (dasharray : list Z) : string :=
  match dasharray with
  | [] => ""
  | d :: rest =>
      Stream.show_int d ++
      match rest with
      | [] => ""
      | _ :: _ => "," ++ Stroke_dasharray_toString rest
      end
  end.

Definition Stroke_toString (l : Layout) (s : Stroke) : string :=
  if Stroke_width s <? 0 then ""
  else
    attribute "stroke-width"
      (Stream.show_double (translateScale (Stroke_width s) l)) "" ++
    attribute "stroke" (Color_toString l (Stroke_color s)) "" ++
    (if 0 <=? Stroke_miterlimit s
     then attribute "stroke-miterlimit"
            (Stream.show_double (translateScale (Stroke_miterlimit s) l)) ""
     else "") ++
    attribute "stroke-dashoffset"
      (Stream.show_double
         (translateScale (double_of_unsigned (Stroke_dashoffset s)) l)) "" ++
    (match Stroke_dasharray s with
     | [] => ""
     | _ :: _ =>
         attribute "stroke-dasharray"
           (Stroke_dasharray_toString (Stroke_dasharray s)) ""
     end) ++
    (if Stroke_opacity s <? 1
     then attribute "stroke-opacity" (Stream.show_double (Stroke_opacity s)) ""
     else "") ++
    (if Stroke_nonScaling s
     then attribute "vector-effect" "non-scaling-stroke" ""
     else "").

Record Font : Type := mkFont { Font_size : float; Font_family : string }.

Definition Font_default : Font := mkFont 12 "Verdana".

Definition Font_toString (l : Layout) (f : Font) : string :=
  attribute "font-size" (Stream.show_double (translateScale (Font_size f) l)) "" ++
  attribute "font-family" (Font_family f) "".

(** ** The members every shape inherits *)

(** The members of [Shape] and of its base [Identifiable]. *)
Record ShapeBase : Type := mkShapeBase
  { Shape_id : string;
    Shape_z : Z;
    Shape_stroke : Stroke;
    Shape_style : string;
    Shape_visible : bool }.

(** [Shape(stroke_style = Stroke(), z_order = 0, shape_id = {})]. *)
Definition ShapeBase_new (stroke_style : Stroke) (z_order : Z)
    (shape_id : string) : ShapeBase :=
  mkShapeBase shape_id z_order stroke_style "" true.

Definition ShapeBase_setStroke (b : ShapeBase) (s : Stroke) : ShapeBase :=
  mkShapeBase (Shape_id b) (Shape_z b) s (Shape_style b) (Shape_visible b).
Definition ShapeBase_setStyle (b : ShapeBase) (new_style : string) : ShapeBase :=
  mkShapeBase (Shape_id b) (Shape_z b) (Shape_stroke b) new_style (Shape_visible b).
Definition ShapeBase_setId (b : ShapeBase) (new_id : string) : ShapeBase :=
  mkShapeBase new_id (Shape_z b) (Shape_stroke b) (Shape_style b) (Shape_visible b).
Definition ShapeBase_setZ (b : ShapeBase) (z : Z) : ShapeBase :=
  mkShapeBase (Shape_id b) z (Shape_stroke b) (Shape_style b) (Shape_visible b).
Definition ShapeBase_hide (b : ShapeBase) : ShapeBase :=
  mkShapeBase (Shape_id b) (Shape_z b) (Shape_stroke b) (Shape_style b) false.
Definition ShapeBase_show (b : ShapeBase) : ShapeBase :=
  mkShapeBase (Shape_id b) (Shape_z b) (Shape_stroke b) (Shape_style b) true.

(** [Shape::toString]. *)
Definition ShapeBase_toString (l : Layout) (b : ShapeBase) : string :=
  Stroke_toString l (Shape_stroke b) ++
  (if String.eqb (Shape_style b) "" then ""
   else attribute "style" (Shape_style b) "") ++
  (if Shape_visible b then "" else attribute "visibility" "hidden" "").

(** The members of [SurfaceShape]. *)
Record SurfaceShape : Type := mkSurfaceShape
  { SurfaceShape_shape : ShapeBase; SurfaceShape_fill : Fill }.

(** [SurfaceShape(fill_style, stroke_style)], with [z_order = 0] and an
    empty id. *)
Definition SurfaceShape_new (fill_style : Fill) (stroke_style : Stroke)
    : SurfaceShape :=
  mkSurfaceShape (ShapeBase_new stroke_style 0%Z "") fill_style.

Definition SurfaceShape_toString (l : Layout) (s : SurfaceShape) : string :=
  ShapeBase_toString l (SurfaceShape_shape s) ++ Fill_toString l (SurfaceShape_fill s).

Definition SurfaceShape_id (s : SurfaceShape) : string :=
  Shape_id (SurfaceShape_shape s).

(** ** Surface shapes *)

Definition show := Stream.show_double.

Definition Point_offset (p offset : Point) : Point :=
  mkPoint (Point_x p + Point_x offset) (Point_y p + Point_y offset).

(** The text [x,y ] that polygons, paths and polylines write per point. *)
Definition point_toString (l : Layout) (p : Point) : string :=
  show (translateX (Point_x p) l) ++ "," ++ show (translateY (Point_y p) l) ++ " ".

Fixpoint points_toString (l : Layout) (points : list Point) : string :=
  match points with
  | [] => ""
  | p :: rest => point_toString l p ++ points_toString l rest
  end.

Record Circle : Type := mkCircle
  { Circle_surface : SurfaceShape; Circle_center : Point; Circle_radius : float }.

(** [Circle(center_pos, diameter, fill_style, stroke_style = Stroke())]. *)
Definition Circle_new (center_pos : Point) (diameter : float) (fill_style : Fill)
    (stroke_style : Stroke) : Circle :=
  mkCircle (SurfaceShape_new fill_style stroke_style) center_pos (diameter / 2).

Definition Circle_toString (l : Layout) (c : Circle) : string :=
  elemStart "circle" false ++ serializeId (SurfaceShape_id (Circle_surface c)) ++
  attribute "cx" (show (translateX (Point_x (Circle_center c)) l)) "" ++
  attribute "cy" (show (translateY (Point_y (Circle_center c)) l)) "" ++
  attribute "r" (show (translateScale (Circle_radius c) l)) "" ++
  SurfaceShape_toString l (Circle_surface c) ++ emptyElemEnd.

Definition Circle_offset (c : Circle) (offset : Point) : Circle :=
  mkCircle (Circle_surface c) (Point_offset (Circle_center c) offset) (Circle_radius c).

Record Elipse : Type := mkElipse
  { Elipse_surface : SurfaceShape;
    Elipse_center : Point;
    Elipse_radius_width : float;
    Elipse_radius_height : float }.

Definition Elipse_new (center_pos : Point) (width height : float)
    (fill_style : Fill) (stroke_style : Stroke) : Elipse :=
  mkElipse (SurfaceShape_new fill_style stroke_style) center_pos
    (width / 2) (height / 2).

Definition Elipse_toString (l : Layout) (e : Elipse) : string :=
  elemStart "ellipse" false ++ serializeId (SurfaceShape_id (Elipse_surface e)) ++
  attribute "cx" (show (translateX (Point_x (Elipse_center e)) l)) "" ++
  attribute "cy" (show (translateY (Point_y (Elipse_center e)) l)) "" ++
  attribute "rx" (show (translateScale (Elipse_radius_width e) l)) "" ++
  attribute "ry" (show (translateScale (Elipse_radius_height e) l)) "" ++
  SurfaceShape_toString l (Elipse_surface e) ++ emptyElemEnd.

Definition Elipse_offset (e : Elipse) (offset : Point) : Elipse :=
  mkElipse (Elipse_surface e) (Point_offset (Elipse_center e) offset)
    (Elipse_radius_width e) (Elipse_radius_height e).

Record Rectangle : Type := mkRectangle
  { Rectangle_surface : SurfaceShape;
    Rectangle_edge : Point;
    Rectangle_width : float;
    Rectangle_height : float;
    Rectangle_rx : float;
    Rectangle_ry : float }.

Definition Rectangle_new (upper_left_corner : Point) (w h : float)
    (fill_style : Fill) (stroke_style : Stroke) (rx_corner ry_corner : float)
    : Rectangle :=
  mkRectangle (SurfaceShape_new fill_style stroke_style) upper_left_corner
    w h rx_corner ry_corner.

Definition Rectangle_toString (l : Layout) (r : Rectangle) : string :=
  elemStart "rect" false ++ serializeId (SurfaceShape_id (Rectangle_surface r)) ++
  attribute "x" (show (translateX (Point_x (Rectangle_edge r)) l)) "" ++
  attribute "y" (show (translateY (Point_y (Rectangle_edge r)) l)) "" ++
  (if (0 <? Rectangle_rx r) || (0 <? Rectangle_ry r)
   then attribute "rx" (show (Rectangle_rx r)) "" ++
        attribute "ry" (show (Rectangle_ry r)) ""
   else "") ++
  attribute "width" (show (translateScale (Rectangle_width r) l)) "" ++
  attribute "height" (show (translateScale (Rectangle_height r) l)) "" ++
  SurfaceShape_toString l (Rectangle_surface r) ++ emptyElemEnd.

Definition Rectangle_offset (r : Rectangle) (offset : Point) : Rectangle :=
  mkRectangle (Rectangle_surface r) (Point_offset (Rectangle_edge r) offset)
    (Rectangle_width r) (Rectangle_height r) (Rectangle_rx r) (Rectangle_ry r).

Record Polygon : Type := mkPolygon
  { Polygon_surface : SurfaceShape; Polygon_points : list Point }.

Definition Polygon_new (fill_style : Fill) (stroke_style : Stroke) : Polygon :=
  mkPolygon (SurfaceShape_new fill_style stroke_style) [].

(** [Polygon::operator<<]. *)
Definition Polygon_push (p : Polygon) (point : Point) : Polygon :=
  mkPolygon (Polygon_surface p) (Polygon_points p ++ [point])%list.

Definition Polygon_toString (l : Layout) (p : Polygon) : string :=
  elemStart "polygon" false ++ serializeId (SurfaceShape_id (Polygon_surface p)) ++
  "points=" ++ dq ++ points_toString l (Polygon_points p) ++ dq ++ " " ++
  SurfaceShape_toString l (Polygon_surface p) ++ emptyElemEnd.

Definition Polygon_offset (p : Polygon) (offset : Point) : Polygon :=
  mkPolygon (Polygon_surface p)
    (map (fun q => Point_offset q offset) (Polygon_points p)).

Record Path : Type := mkPath
  { Path_surface : SurfaceShape; Path_paths : list (list Point) }.

(** [Path::startNewSubPath] on the vector of subpaths. *)
Definition startNewSubPath (paths : list (list Point)) : list (list Point) :=
  match rev paths with
  | [] => (paths ++ [[]])%list
  | back :: _ =>
      if (0 <? List.length back)%nat then (paths ++ [[]])%list else paths
  end.


Definition Path_startNewSubPath (p : Path) : Path :=
  mkPath (Path_surface p) (startNewSubPath (Path_paths p)).



Fixpoint subpaths_toString (l : Layout) (paths : list (list Point)) : string :=
  match paths with
  | [] => ""
  | subpath :: rest =>
      match subpath with
      | [] => subpaths_toString l rest
      | _ :: _ => "M" ++ points_toString l subpath ++ "z " ++ subpaths_toString l rest
      end
  end.

Definition Path_toString (l : Layout) (p : Path) : string :=
  elemStart "path" false ++ serializeId (SurfaceShape_id (Path_surface p)) ++
  "d=" ++ dq ++ subpaths_toString l (Path_paths p) ++ dq ++ " " ++
  "fill-rule=" ++ dq ++ "evenodd" ++ dq ++ " " ++
  SurfaceShape_toString l (Path_surface p) ++ emptyElemEnd.

Definition Path_offset (p : Path) (offset : Point) : Path :=
  mkPath (Path_surface p)
    (map (map (fun q => Point_offset q offset)) (Path_paths p)).

Inductive TextAnchor : Type := TA_Start | TA_Middle | TA_End | TA_None.

Inductive DominantBaseline : Type :=
| DB_TextBottom | DB_Alphabetic | DB_Ideographic | DB_Middle | DB_Central
| DB_Mathematical | DB_Hanging | DB_TextTop | DB_None.

Record Text : Type := mkText
  { Text_surface : SurfaceShape;
    Text_origin : Point;
    Text_content : string;
    Text_font : Font;
    Text_anchor : TextAnchor;
    Text_dominant_baseline : DominantBaseline }.

Definition Text_new (origin_pos : Point) (text_content : string)
    (fill_style : Fill) (font_style : Font) (stroke_style : Stroke)
    (align : TextAnchor) (baseline : DominantBaseline) : Text :=
  mkText (SurfaceShape_new fill_style stroke_style) origin_pos text_content
    font_style align baseline.

Definition TextAnchor_toString (anchor : TextAnchor) : string :=
  match anchor with
  | TA_Start => attribute "text-anchor" "start" ""
  | TA_Middle => attribute "text-anchor" "middle" ""
  | TA_End => attribute "text-anchor" "end" ""
  | TA_None => ""
  end.

Definition DominantBaseline_toString (b : DominantBaseline) : string :=
  match b with
  | DB_TextBottom => attribute "dominant-baseline" "text-bottom" ""
  | DB_Alphabetic => attribute "dominant-baseline" "alphabetic" ""
  | DB_Ideographic => attribute "dominant-baseline" "ideographic" ""
  | DB_Middle => attribute "dominant-baseline" "middle" ""
  | DB_Central => attribute "dominant-baseline" "central" ""
  | DB_Mathematical => attribute "dominant-baseline" "mathematical" ""
  | DB_Hanging => attribute "dominant-baseline" "hanging" ""
  | DB_TextTop => attribute "dominant-baseline" "text-top" ""
  | DB_None => ""
  end.

Definition Text_toString (l : Layout) (t : Text) : string :=
  elemStart "text" false ++ serializeId (SurfaceShape_id (Text_surface t)) ++
  TextAnchor_toString (Text_anchor t) ++
  DominantBaseline_toString (Text_dominant_baseline t) ++
  attribute "x" (show (translateX (Point_x (Text_origin t)) l)) "" ++
  attribute "y" (show (translateY (Point_y (Text_origin t)) l)) "" ++
  SurfaceShape_toString l (Text_surface t) ++ Font_toString l (Text_font t) ++
  ">" ++ Text_content t ++ elemEnd "text".

Definition Text_offset (t : Text) (offset : Point) : Text :=
  mkText (Text_surface t) (Point_offset (Text_origin t) offset) (Text_content t)
    (Text_font t) (Text_anchor t) (Text_dominant_baseline t).

(** ** Markers, lines, polylines and the shape hierarchy

    A [Marker] owns shapes; a [Line] or a [Polyline] (through
    [Markerable]) points to markers; [LineChart] owns polylines.  The
    types are therefore declared together.  [Shape] is the dynamic type
    behind a [std::unique_ptr<Shape>]. *)

Inductive Marker : Type :=
| mkMarker (id : string) (shapes : list Shape)
    (marker_width marker_height ref_x ref_y : float) (orient : string)
with Shape : Type :=
| Shape_Circle (c : Circle)
| Shape_Elipse (e : Elipse)
| Shape_Rectangle (r : Rectangle)
| Shape_Line (l : Line)
| Shape_Polygon (p : Polygon)
| Shape_Path (p : Path)
| Shape_Polyline (p : Polyline)
| Shape_Text (t : Text)
| Shape_LineChart (c : LineChart)
with Line : Type :=
| mkLine (base : ShapeBase) (markers : Markerable) (start_point end_point : Point)
with Polyline : Type :=
| mkPolyline (base : ShapeBase) (markers : Markerable) (points : list Point)
with LineChart : Type :=
| mkLineChart (base : ShapeBase) (axis_stroke : Stroke) (margin : Dimensions)
    (polylines : list Polyline)
with Markerable : Type :=
| mkMarkerable (marker_start marker_mid marker_end : option Marker).

Definition Marker_getId (m : Marker) : string :=
  match m with mkMarker id _ _ _ _ _ _ => id end.
Definition Marker_shapes (m : Marker) : list Shape :=
  match m with mkMarker _ shapes _ _ _ _ _ => shapes end.
Definition Marker_marker_width (m : Marker) : float :=
  match m with mkMarker _ _ w _ _ _ _ => w end.
Definition Marker_marker_height (m : Marker) : float :=
  match m with mkMarker _ _ _ h _ _ _ => h end.
Definition Marker_ref_x (m : Marker) : float :=
  match m with mkMarker _ _ _ _ x _ _ => x end.
Definition Marker_ref_y (m : Marker) : float :=
  match m with mkMarker _ _ _ _ _ y _ => y end.
Definition Marker_orient (m : Marker) : string :=
  match m with mkMarker _ _ _ _ _ _ o => o end.

Definition Marker_valid (m : Marker) : bool := negb (String.eqb (Marker_getId m) "").

Definition Markerable_start (m : Markerable) : option Marker :=
  match m with mkMarkerable s _ _ => s end.
Definition Markerable_mid (m : Markerable) : option Marker :=
  match m with mkMarkerable _ s _ => s end.
Definition Markerable_end (m : Markerable) : option Marker :=
  match m with mkMarkerable _ _ s => s end.

(** [Markerable()]: three null pointers. *)
Definition Markerable_new : Markerable := mkMarkerable None None None.

Definition Markerable_setMidMarker (m : Markerable) (p : option Marker) :=
  mkMarkerable (Markerable_start m) p (Markerable_end m).
Definition Markerable_setEndMarker (m : Markerable) (p : option Marker) :=
  mkMarkerable (Markerable_start m) (Markerable_mid m) p.

(** [marker && marker->valid()]. *)
Definition marker_used (p : option Marker) : option Marker :=
  match p with
  | Some m => if Marker_valid m then Some m else None
  | None => None
  end.

Definition marker_reference (name : string) (p : option Marker) : string :=
  match marker_used p with
  | Some m => name ++ "=" ++ dq ++ "url(#" ++ Marker_getId m ++ ")" ++ dq ++ " "
  | None => ""
  end.

Definition Markerable_toString (_ : Layout) (m : Markerable) : string :=
  marker_reference "marker-start" (Markerable_start m) ++
  marker_reference "marker-mid" (Markerable_mid m) ++
  marker_reference "marker-end" (Markerable_end m).

(** [internal::MarkerSet]: a [std::set] of marker pointers ordered by
    [compareMarker], that is by id; it is kept as the list of its elements
    in iteration order.  Inserting a marker whose id is already present
    leaves the set unchanged. *)
Definition MarkerSet : Type := list Marker.

Definition compareMarker (a b : Marker) : bool :=
  String.ltb (Marker_getId a) (Marker_getId b).

Fixpoint MarkerSet_insert (m : Marker) (s : MarkerSet) : MarkerSet :=
  match s with
  | [] => [m]
  | x :: rest =>
      if compareMarker m x then m :: s
      else if compareMarker x m then x :: MarkerSet_insert m rest
      else s
  end.

Definition insert_if_used (p : option Marker) (s : MarkerSet) : MarkerSet :=
  match marker_used p with
  | Some m => MarkerSet_insert m s
  | None => s
  end.

Definition Markerable_getUsedMarkers (m : Markerable) : MarkerSet :=
  insert_if_used (Markerable_end m)
    (insert_if_used (Markerable_mid m)
       (insert_if_used (Markerable_start m) [])).

Definition Line_base (l : Line) : ShapeBase :=
  match l with mkLine b _ _ _ => b end.
Definition Line_markers (l : Line) : Markerable :=
  match l with mkLine _ m _ _ => m end.
Definition Line_start_point (l : Line) : Point :=
  match l with mkLine _ _ p _ => p end.
Definition Line_end_point (l : Line) : Point :=
  match l with mkLine _ _ _ p => p end.

(** [Line(start_pt, end_pt, stroke_style = Stroke())]. *)
Definition Line_new (start_pt end_pt : Point) (stroke_style : Stroke) : Line :=
  mkLine (ShapeBase_new stroke_style 0%Z "") Markerable_new start_pt end_pt.

Definition Line_toString (l : Layout) (ln : Line) : string :=
  elemStart "line" false ++ serializeId (Shape_id (Line_base ln)) ++
  attribute "x1" (show (translateX (Point_x (Line_start_point ln)) l)) "" ++
  attribute "y1" (show (translateY (Point_y (Line_start_point ln)) l)) "" ++
  attribute "x2" (show (translateX (Point_x (Line_end_point ln)) l)) "" ++
  attribute "y2" (show (translateY (Point_y (Line_end_point ln)) l)) "" ++
  ShapeBase_toString l (Line_base ln) ++
  Markerable_toString l (Line_markers ln) ++ emptyElemEnd.

Definition Line_offset (ln : Line) (offset : Point) : Line :=
  mkLine (Line_base ln) (Line_markers ln)
    (Point_offset (Line_start_point ln) offset)
    (Point_offset (Line_end_point ln) offset).

Definition Polyline_base (p : Polyline) : ShapeBase :=
  match p with mkPolyline b _ _ => b end.
Definition Polyline_markers (p : Polyline) : Markerable :=
  match p with mkPolyline _ m _ => m end.
Definition Polyline_points (p : Polyline) : list Point :=
  match p with mkPolyline _ _ pts => pts end.

(** [Polyline(stroke_style = Stroke())]. *)
Definition Polyline_new (stroke_style : Stroke) : Polyline :=
  mkPolyline (ShapeBase_new stroke_style 0%Z "") Markerable_new [].

(** [Polyline(pts, stroke_style = Stroke())]. *)
Definition Polyline_of_points (pts : list Point) (stroke_style : Stroke) : Polyline :=
  mkPolyline (ShapeBase_new stroke_style 0%Z "") Markerable_new pts.

(** [Polyline::operator<<]. *)
Definition Polyline_push (p : Polyline) (point : Point) : Polyline :=
  mkPolyline (Polyline_base p) (Polyline_markers p) (Polyline_points p ++ [point])%list.

Definition Polyline_toString (l : Layout) (p : Polyline) : string :=
  elemStart "polyline" false ++ serializeId (Shape_id (Polyline_base p)) ++
  attribute "fill" "none" "" ++
  "points=" ++ dq ++ points_toString l (Polyline_points p) ++ dq ++ " " ++
  ShapeBase_toString l (Polyline_base p) ++
  Markerable_toString l (Polyline_markers p) ++ emptyElemEnd.

Definition Polyline_offset (p : Polyline) (offset : Point) : Polyline :=
  mkPolyline (Polyline_base p) (Polyline_markers p)
    (map (fun q => Point_offset q offset) (Polyline_points p)).

Definition vectorToString {T : Type} (T_toString : Layout -> T -> string)
    (collection : list T) (layout : Layout) : string :=
  fold_left (fun combination_str c => combination_str ++ T_toString layout c)
    collection "".

(** ** LineChart *)

Definition LineChart_base (c : LineChart) : ShapeBase :=
  match c with mkLineChart b _ _ _ => b end.
Definition LineChart_axis_stroke (c : LineChart) : Stroke :=
  match c with mkLineChart _ s _ _ => s end.
Definition LineChart_margin (c : LineChart) : Dimensions :=
  match c with mkLineChart _ _ m _ => m end.
Definition LineChart_polylines (c : LineChart) : list Polyline :=
  match c with mkLineChart _ _ _ ps => ps end.

(** [LineChart(chart_margin = Dimensions(),
    axis_stroke_style = Stroke(0.5, Color::Purple))]. *)
Definition LineChart_new (chart_margin : Dimensions) (axis_stroke_style : Stroke)
    : LineChart :=
  mkLineChart (ShapeBase_new Stroke_default 0%Z "") axis_stroke_style chart_margin [].

Definition LineChart_default : LineChart :=
  LineChart_new (Dimensions_combined 0) (Stroke_of 0.5 (Color_of Purple no_rand)).

(** [LineChart::operator<<]. *)
Definition LineChart_push (c : LineChart) (polyline : Polyline) : LineChart :=
  match Polyline_points polyline with
  | [] => c
  | _ :: _ =>
      mkLineChart (LineChart_base c) (LineChart_axis_stroke c) (LineChart_margin c)
        (LineChart_polylines c ++ [polyline])%list
  end.

Fixpoint getDimensions_loop (polylines : list Polyline) (min max : option Point)
    : result (option Point * option Point) :=
  match polylines with
  | [] => Ok (min, max)
  | pl :: rest =>
      pmin <- deref (getMinPoint (Polyline_points pl)) ;;
      m <- deref min ;;
      let m := if Point_x pmin <? Point_x m then Point_set_x m (Point_x pmin) else m in
      let m := if Point_y pmin <? Point_y m then Point_set_y m (Point_y pmin) else m in
      pmax <- deref (getMaxPoint (Polyline_points pl)) ;;
      M <- deref max ;;
      let M := if Point_x M <? Point_x pmax then Point_set_x M (Point_x pmax) else M in
      let M := if Point_y M <? Point_y pmax then Point_set_y M (Point_y pmax) else M in
      getDimensions_loop rest (Some m) (Some M)
  end.

Definition LineChart_getDimensions (c : LineChart) : result (option Dimensions) :=
  match LineChart_polylines c with
  | [] => Ok None
  | first :: _ =>
      mm <- getDimensions_loop (LineChart_polylines c)
              (getMinPoint (Polyline_points first))
              (getMaxPoint (Polyline_points first)) ;;
      max <- deref (snd mm) ;;
      min <- deref (fst mm) ;;
      Ok (Some (mkDimensions (Point_x max - Point_x min) (Point_y max - Point_y min)))
  end.

(** The polyline [axis] that [axisString] draws, when the chart has
    dimensions. *)
Definition LineChart_axis (c : LineChart) : result (option Polyline) :=
  dimensions <- LineChart_getDimensions c ;;
  match dimensions with
  | None => Ok None
  | Some d =>
      let width := Dimensions_width d * 1.1 in
      let height := Dimensions_height d * 1.1 in
      let margin := LineChart_margin c in
      Ok (Some
        (Polyline_push
          (Polyline_push
             (Polyline_push (Polyline_new (LineChart_axis_stroke c))
                (mkPoint (Dimensions_width margin) (Dimensions_height margin + height)))
             (mkPoint (Dimensions_width margin) (Dimensions_height margin)))
          (mkPoint (Dimensions_width margin + width) (Dimensions_height margin))))
  end.

Definition LineChart_axisString (c : LineChart) (layout : Layout) : result string :=
  axis <- LineChart_axis c ;;
  match axis with
  | None => Ok ""
  | Some axis => Ok (Polyline_toString layout axis)
  end.

(** The vector [vertices] that [polylineToString] fills: one circle per
    point of the shifted polyline. *)
Definition LineChart_vertices (c : LineChart) (shifted_polyline : Polyline)
    : result (list Circle) :=
  mapM (fun p =>
          dimensions <- LineChart_getDimensions c ;;
          d <- deref dimensions ;;
          Ok (Circle_new p (Dimensions_height d / 30)
                (Fill_of_default Black no_rand 1) Stroke_default))
       (Polyline_points shifted_polyline).

Definition LineChart_shifted (c : LineChart) (polyline : Polyline) : Polyline :=
  Polyline_offset polyline
    (mkPoint (Dimensions_width (LineChart_margin c))
             (Dimensions_height (LineChart_margin c))).

Definition LineChart_polylineToString (c : LineChart) (polyline : Polyline)
    (layout : Layout) : result string :=
  let shifted_polyline := LineChart_shifted c polyline in
  vertices <- LineChart_vertices c shifted_polyline ;;
  Ok (Polyline_toString layout shifted_polyline ++
      vectorToString Circle_toString vertices layout).

Fixpoint LineChart_polylinesToString (c : LineChart) (polylines : list Polyline)
    (layout : Layout) (ret : string) : result string :=
  match polylines with
  | [] => Ok ret
  | p :: rest =>
      s <- LineChart_polylineToString c p layout ;;
      LineChart_polylinesToString c rest layout (ret ++ s)
  end.

Definition LineChart_toString (l : Layout) (c : LineChart) : result string :=
  match LineChart_polylines c with
  | [] => Ok ""
  | _ :: _ =>
      ret <- LineChart_polylinesToString c (LineChart_polylines c) l "" ;;
      axis <- LineChart_axisString c l ;;
      Ok (ret ++ axis)
  end.

Definition LineChart_offset (c : LineChart) (offset : Point) : LineChart :=
  mkLineChart (LineChart_base c) (LineChart_axis_stroke c) (LineChart_margin c)
    (map (fun p => Polyline_offset p offset) (LineChart_polylines c)).

(** ** Virtual dispatch on shapes *)

(** The [Shape] subobject of a shape. *)
Definition Shape_base (s : Shape) : ShapeBase :=
  match s with
  | Shape_Circle c => SurfaceShape_shape (Circle_surface c)
  | Shape_Elipse e => SurfaceShape_shape (Elipse_surface e)
  | Shape_Rectangle r => SurfaceShape_shape (Rectangle_surface r)
  | Shape_Line l => Line_base l
  | Shape_Polygon p => SurfaceShape_shape (Polygon_surface p)
  | Shape_Path p => SurfaceShape_shape (Path_surface p)
  | Shape_Polyline p => Polyline_base p
  | Shape_Text t => SurfaceShape_shape (Text_surface t)
  | Shape_LineChart c => LineChart_base c
  end.

Definition Shape_getZ (s : Shape) : Z := Shape_z (Shape_base s).

(** [shape->toString(l)]. *)
Definition Shape_toString (l : Layout) (s : Shape) : result string :=
  match s with
  | Shape_Circle c => Ok (Circle_toString l c)
  | Shape_Elipse e => Ok (Elipse_toString l e)
  | Shape_Rectangle r => Ok (Rectangle_toString l r)
  | Shape_Line ln => Ok (Line_toString l ln)
  | Shape_Polygon p => Ok (Polygon_toString l p)
  | Shape_Path p => Ok (Path_toString l p)
  | Shape_Polyline p => Ok (Polyline_toString l p)
  | Shape_Text t => Ok (Text_toString l t)
  | Shape_LineChart c => LineChart_toString l c
  end.

(** [shape->offset(offset)]. *)
Definition Shape_offset (s : Shape) (offset : Point) : Shape :=
  match s with
  | Shape_Circle c => Shape_Circle (Circle_offset c offset)
  | Shape_Elipse e => Shape_Elipse (Elipse_offset e offset)
  | Shape_Rectangle r => Shape_Rectangle (Rectangle_offset r offset)
  | Shape_Line ln => Shape_Line (Line_offset ln offset)
  | Shape_Polygon p => Shape_Polygon (Polygon_offset p offset)
  | Shape_Path p => Shape_Path (Path_offset p offset)
  | Shape_Polyline p => Shape_Polyline (Polyline_offset p offset)
  | Shape_Text t => Shape_Text (Text_offset t offset)
  | Shape_LineChart c => Shape_LineChart (LineChart_offset c offset)
  end.

(** [dynamic_cast<const Markerable*>(shape)]: lines and polylines only. *)
Definition Shape_as_Markerable (s : Shape) : option Markerable :=
  match s with
  | Shape_Line ln => Some (Line_markers ln)
  | Shape_Polyline p => Some (Polyline_markers p)
  | _ => None
  end.

(** ** Sorting

    [std::stable_sort] and [std::sort] with a comparison [less]: the
    elements in ascending order, an element staying behind those before it
    that are not greater. *)

Fixpoint insert_sorted {A : Type} (less : A -> A -> bool) (a : A) (sorted : list A)
    : list A :=
  match sorted with
  | [] => [a]
  | x :: rest =>
      if less x a then x :: insert_sorted less a rest else a :: sorted
  end.

Definition stable_sort {A : Type} (less : A -> A -> bool) (l : list A) : list A :=
  fold_right (insert_sorted less) [] l.

(** ** Marker *)

Definition tab : string := String "009"%char "".
Definition nl : string := String "010"%char "".

(** [Layout UNCHANGED(Dimensions(), Layout::TopLeft)]. *)
Definition UNCHANGED : Layout :=
  Layout_new (Dimensions_combined 0) TopLeft 1 (mkPoint 0 0).

Fixpoint Marker_shapes_toString (shapes : list Shape) : result string :=
  match shapes with
  | [] => Ok ""
  | s :: rest =>
      str <- Shape_toString UNCHANGED s ;;
      tail <- Marker_shapes_toString rest ;;
      Ok (tab ++ tab ++ str ++
          (match rest with [] => "" | _ :: _ => nl end) ++ tail)
  end.

Definition Marker_no_id : exception :=
  invalid_argument
    "svg::Marker::toString() requires a non-empty ID to refer to that marker.".

Definition Marker_toString (_ : Layout) (m : Marker) : result string :=
  if String.eqb (Marker_getId m) "" then Throw Marker_no_id
  else if Marker_valid m then
    body <- Marker_shapes_toString (Marker_shapes m) ;;
    Ok (tab ++ elemStart "marker" false ++ serializeId (Marker_getId m) ++
        attribute "markerWidth" (show (Marker_marker_width m)) "" ++
        attribute "markerHeight" (show (Marker_marker_height m)) "" ++
        attribute "refX" (show (Marker_ref_x m)) "" ++
        attribute "refY" (show (Marker_ref_y m)) "" ++
        attribute "orient" (Marker_orient m) "" ++ ">" ++ nl ++
        body ++ tab ++ tab ++ elemEnd "marker")
  else Ok "".

(** [Marker::operator<<]. *)
Definition Marker_push (m : Marker) (shape : Shape) : Marker :=
  mkMarker (Marker_getId m) (Marker_shapes m ++ [shape])%list
    (Marker_marker_width m) (Marker_marker_height m)
    (Marker_ref_x m) (Marker_ref_y m) (Marker_orient m).

Fixpoint strings_differ (a b : list string) : bool :=
  match a, b with
  | x :: ra, y :: rb => negb (String.eqb x y) || strings_differ ra rb
  | _, _ => false
  end.

(** [Marker::operator!=]. *)
Definition Marker_neq (this that : Marker) : result bool :=
  if negb (List.length (Marker_shapes this) =? List.length (Marker_shapes that))%nat
     || negb (equal (Marker_marker_width this) (Marker_marker_width that) eps_default)
     || negb (equal (Marker_ref_x this) (Marker_ref_x that) eps_default)
     || negb (equal (Marker_marker_height this) (Marker_marker_height that) eps_default)
     || negb (equal (Marker_ref_y this) (Marker_ref_y that) eps_default)
  then Ok true
  else
    str_shapes0 <- mapM (Shape_toString Layout_default) (Marker_shapes this) ;;
    str_shapes1 <- mapM (Shape_toString Layout_default) (Marker_shapes that) ;;
    Ok (strings_differ (stable_sort String.ltb str_shapes0)
                       (stable_sort String.ltb str_shapes1)).

(** ** Animations *)

Record AnimationBase : Type := mkAnimationBase
  { Animation_id : string;
    Animation_href : string;
    Animation_begin : string;
    Animation_fill : string;
    Animation_dur : string }.

(** [Animation::toString]. *)
Definition AnimationBase_toString (_ : Layout) (a : AnimationBase) : string :=
  serializeId (Animation_id a) ++ attribute "href" ("#" ++ Animation_href a) "" ++
  (if String.eqb (Animation_begin a) "" then ""
   else attribute "begin" (Animation_begin a) "") ++
  (if String.eqb (Animation_fill a) "" then ""
   else attribute "fill" (Animation_fill a) "") ++
  (if String.eqb (Animation_dur a) "" then ""
   else attribute "dur" (Animation_dur a) "").

Record SetAttributeValue : Type := mkSetAttributeValue
  { SetAttributeValue_base : AnimationBase;
    SetAttributeValue_to : string;
    SetAttributeValue_attr_name : string;
    SetAttributeValue_attr_type : string }.

Definition SetAttributeValue_toString (l : Layout) (a : SetAttributeValue) : string :=
  elemStart "set" false ++ AnimationBase_toString l (SetAttributeValue_base a) ++
  attribute "to" (SetAttributeValue_to a) "" ++
  attribute "attributeName" (SetAttributeValue_attr_name a) "" ++
  attribute "attributeType" (SetAttributeValue_attr_type a) "" ++
  emptyElemEnd.

Record AnimateMotion : Type := mkAnimateMotion
  { AnimateMotion_base : AnimationBase; AnimateMotion_points : list Point }.

Fixpoint AnimateMotion_path (first : bool) (points : list Point) : string :=
  match points with
  | [] => ""
  | p :: rest =>
      (if first then dq ++ "M" else "L") ++
      show (Point_x p) ++ "," ++ show (Point_y p) ++
      (match rest with [] => "" | _ :: _ => " " end) ++
      AnimateMotion_path false rest
  end.

Definition AnimateMotion_toString (l : Layout) (a : AnimateMotion) : string :=
  elemStart "animateMotion" false ++ AnimationBase_toString l (AnimateMotion_base a) ++
  "path=" ++ AnimateMotion_path true (AnimateMotion_points a) ++
  dq ++ " " ++ emptyElemEnd.

Inductive Animation : Type :=
| Animation_Set (a : SetAttributeValue)
| Animation_Motion (a : AnimateMotion).

(** [animation->toString(l)]. *)
Definition Animation_toString (l : Layout) (a : Animation) : string :=
  match a with
  | Animation_Set s => SetAttributeValue_toString l s
  | Animation_Motion m => AnimateMotion_toString l m
  end.

(** ** Document *)

Definition libraryName : string := "svg-writer".
Definition libraryVersion : string := "1.0.0".
Definition svgVersion : string := "1.1".

Record Document : Type := mkDocument
  { Document_id : string;
    Document_file_name : string;
    Document_layout : Layout;
    Document_body_nodes : list Shape;
    Document_needs_sorting : bool;
    Document_animation_nodes : list Animation }.

(** [Document(doc_layout = Layout())]. *)
Definition Document_new (doc_layout : Layout) : Document :=
  mkDocument "" "" doc_layout [] false [].

Definition Document_setId (d : Document) (new_id : string) : Document :=
  mkDocument new_id (Document_file_name d) (Document_layout d)
    (Document_body_nodes d) (Document_needs_sorting d) (Document_animation_nodes d).

(** [Document::operator<<(Shape const&)]; the clone of a shape is the
    shape itself. *)
Definition Document_addShape (d : Document) (shape : Shape) : Document :=
  mkDocument (Document_id d) (Document_file_name d) (Document_layout d)
    (Document_body_nodes d ++ [shape])%list
    (Document_needs_sorting d || negb (Shape_getZ shape =? 0)%Z)
    (Document_animation_nodes d).

(** [Document::operator<<(animation::Animation const&)]. *)
Definition Document_addAnimation (d : Document) (animation : Animation) : Document :=
  mkDocument (Document_id d) (Document_file_name d) (Document_layout d)
    (Document_body_nodes d) (Document_needs_sorting d)
    (Document_animation_nodes d ++ [animation])%list.

Definition Document_isAnimated (d : Document) : bool :=
  match Document_animation_nodes d with [] => false | _ :: _ => true end.

Definition Document_getFileName (d : Document) : string := Document_file_name d.

(** A marker-collision report on [std::cerr]: the id and the serialized
    element it was found in.  The other warnings the library writes to
    [std::cerr] are not recorded. *)
Record Collision : Type := mkCollision
  { Collision_id : string; Collision_element : string }.

Definition Collision_message (c : Collision) : string :=
  "Marker collision detected for ID=" ++ Collision_id c ++
  " within this element: " ++ nl ++ Collision_element c ++ nl ++
  "Expect markers not to be rendered correctly." ++ nl.

(** The inner loop over [all_used_markers] for one marker [i] of
    [body_node]. *)
Fixpoint Document_compare_marker (layout : Layout) (body_node : Shape) (i : Marker)
    (all_used_markers : MarkerSet) : result (list Collision) :=
  match all_used_markers with
  | [] => Ok []
  | j :: rest =>
      differs <- (if String.eqb (Marker_getId i) (Marker_getId j)
                  then Marker_neq i j else Ok false) ;;
      here <- (if differs : bool
               then element <- Shape_toString layout body_node ;;
                    Ok [mkCollision (Marker_getId i) element]
               else Ok []) ;;
      later <- Document_compare_marker layout body_node i rest ;;
      Ok (here ++ later)%list
  end.

(** The loop over the used markers of one body node. *)
Fixpoint Document_collect_node (layout : Layout) (body_node : Shape)
    (markers : list Marker) (all_used_markers : MarkerSet)
    : result (MarkerSet * list Collision) :=
  match markers with
  | [] => Ok (all_used_markers, [])
  | i :: rest =>
      here <- Document_compare_marker layout body_node i all_used_markers ;;
      r <- Document_collect_node layout body_node rest
             (MarkerSet_insert i all_used_markers) ;;
      Ok (fst r, (here ++ snd r)%list)
  end.

(** The loop over the body nodes that fills [all_used_markers]. *)
Fixpoint Document_collect_markers (layout : Layout) (body_nodes : list Shape)
    (all_used_markers : MarkerSet) : result (MarkerSet * list Collision) :=
  match body_nodes with
  | [] => Ok (all_used_markers, [])
  | body_node :: rest =>
      r1 <- match Shape_as_Markerable body_node with
            | Some m =>
                Document_collect_node layout body_node
                  (Markerable_getUsedMarkers m) all_used_markers
            | None => Ok (all_used_markers, [])
            end ;;
      r2 <- Document_collect_markers layout rest (fst r1) ;;
      Ok (fst r2, (snd r1 ++ snd r2)%list)
  end.

Fixpoint concatM {A : Type} (f : A -> result string) (l : list A) : result string :=
  match l with
  | [] => Ok ""
  | a :: rest => s <- f a ;; tail <- concatM f rest ;; Ok (s ++ tail)
  end.

Fixpoint concat_map {A : Type} (f : A -> string) (l : list A) : string :=
  match l with
  | [] => ""
  | a :: rest => f a ++ concat_map f rest
  end.

Definition Document_preamble (d : Document) : string :=
  "<?xml " ++ attribute "version" "1.0" "" ++ attribute "standalone" "no" "" ++
  "?>" ++ nl ++
  "<!-- Generator: " ++ libraryName ++
  " (https://github.com/CodeFinder2/svg-writer), Version: " ++ libraryVersion ++
  " -->" ++ nl ++
  "<!DOCTYPE svg PUBLIC " ++ dq ++ "-//W3C//DTD SVG " ++ svgVersion ++ "//EN" ++ dq ++
  " " ++ dq ++ "http://www.w3.org/Graphics/SVG/1.1/DTD/svg11.dtd" ++ dq ++ ">" ++ nl ++
  "<svg " ++ serializeId (Document_id d) ++
  attribute "width" (show (Dimensions_width (Layout_dimensions (Document_layout d)))) "px" ++
  attribute "height" (show (Dimensions_height (Layout_dimensions (Document_layout d)))) "px" ++
  attribute "xmlns" "http://www.w3.org/2000/svg" "" ++
  attribute "version" svgVersion "" ++ ">" ++ nl.

Definition Document_defs (layout : Layout) (all_used_markers : MarkerSet)
    : result string :=
  match all_used_markers with
  | [] => Ok ""
  | _ :: _ =>
      ms <- concatM (Marker_toString layout) all_used_markers ;;
      Ok (elemStart "defs" true ++ ms ++ tab ++ elemEnd "defs")
  end.

(** The body nodes in the order [writeToStream] leaves and writes them. *)
Definition Document_sorted_nodes (d : Document) : list Shape :=
  if Document_needs_sorting d
  then stable_sort (fun a b => (Shape_getZ a <? Shape_getZ b)%Z) (Document_body_nodes d)
  else Document_body_nodes d.

(** What a call of [writeToStream] leaves behind: the text written to the
    stream and the collisions reported on [std::cerr]. *)
Record Written : Type := mkWritten
  { Written_text : string; Written_collisions : list Collision }.

(** [Document::writeToStream]: the document after the call, and what was
    written unless a serialization threw. *)
Definition Document_writeToStream (d : Document) : Document * result Written :=
  let nodes := Document_sorted_nodes d in
  let d' := mkDocument (Document_id d) (Document_file_name d) (Document_layout d)
              nodes (Document_needs_sorting d) (Document_animation_nodes d) in
  let layout := Document_layout d in
  (d',
   collected <- Document_collect_markers layout nodes [] ;;
   defs <- Document_defs layout (fst collected) ;;
   body <- concatM (Shape_toString layout) nodes ;;
   Ok (mkWritten
         (Document_preamble d ++ defs ++ body ++
          concat_map (Animation_toString layout) (Document_animation_nodes d) ++
          elemEnd "svg")
         (snd collected))).

Definition Document_toString (d : Document) : Document * result string :=
  let (d', w) := Document_writeToStream d in
  (d', w <- w ;; Ok (Written_text w)).

(** The file system as [save] meets it: whether a path can be opened for
    writing, and whether the stream is still good after the text went to
    it. *)
Record FileSystem : Type := mkFileSystem
  { fs_is_open : string -> bool; fs_good : string -> string -> bool }.

(** [Document::save]: the document after the call and the value returned. *)
Definition Document_save (fs : FileSystem) (d : Document) (filename : string)
    (auto_append : bool) : Document * result bool :=
  let file_name := filename in
  let file_name :=
    if auto_append then
      if Document_isAnimated d then
        if negb (ends_with file_name ".html") then file_name ++ ".html" else file_name
      else if negb (ends_with file_name ".svg") then file_name ++ ".svg"
      else file_name
    else file_name in
  let d1 := mkDocument (Document_id d) file_name (Document_layout d)
              (Document_body_nodes d) (Document_needs_sorting d)
              (Document_animation_nodes d) in
  if negb (fs_is_open fs file_name) then (d1, Ok false)
  else
    let (d2, w) := Document_writeToStream d1 in
    (d2, w <- w ;; Ok (fs_good fs file_name (Written_text w))).

(** ** Documents of the public interface *)

(** [built history d]: the document [d] results from a new document by
    the operations of the interface; [history] lists the shapes appended
    to it, in the order of the calls. *)
Inductive built : list Shape -> Document -> Prop :=
| built_new (l : Layout) : built [] (Document_new l)
| built_setId (h : list Shape) (d : Document) (new_id : string) :
    built h d -> built h (Document_setId d new_id)
| built_addShape (h : list Shape) (d : Document) (shape : Shape) :
    built h d -> built (h ++ [shape])%list (Document_addShape d shape)
| built_addAnimation (h : list Shape) (d : Document) (a : Animation) :
    built h d -> built h (Document_addAnimation d a)
| built_toString (h : list Shape) (d : Document) :
    built h d -> built h (fst (Document_toString d))
| built_save (h : list Shape) (d : Document) (fs : FileSystem)
    (filename : string) (auto_append : bool) :
    built h d -> built h (fst (Document_save fs d filename auto_append)).

(** The order in which a serialization writes the body nodes. *)
Definition Document_written_order (d : Document) : list Shape :=
  Document_body_nodes (fst (Document_writeToStream d)).

(** A circle with the given id and z order. *)
Definition tagged_circle (id : string) (z : Z) : Shape :=
  Shape_Circle
    (mkCircle (mkSurfaceShape (mkShapeBase id z Stroke_default "" true) Fill_default)
       (mkPoint 0 0) 1).

(** The shapes with z = 2, 0, 1, 0, -1, and the document they are
    appended to in this order. *)
Definition z_order_history : list Shape :=
  [tagged_circle "a" 2; tagged_circle "b" 0; tagged_circle "c" 1;
   tagged_circle "d" 0; tagged_circle "e" (-1)]%Z.

Definition z_order_example : Document :=
  fold_left Document_addShape z_order_history (Document_new Layout_default).

(** ** Shapes that serialize

    [LineChart::operator<<] drops a polyline without points, so the
    polylines a chart holds are never empty; on such charts no [optional]
    is read while invalid. *)

Definition LineChart_wf (c : LineChart) : bool :=
  forallb (fun p => match Polyline_points p with [] => false | _ :: _ => true end)
    (LineChart_polylines c).

Definition Shape_wf (s : Shape) : bool :=
  match s with
  | Shape_LineChart c => LineChart_wf c
  | _ => true
  end.

Definition Marker_wf (m : Marker) : bool := forallb Shape_wf (Marker_shapes m).

Definition pointer_wf (p : option Marker) : bool :=
  match p with
  | Some m => Marker_wf m
  | None => true
  end.

(** A body node whose charts are well formed, as are the shapes of the
    markers it points to. *)
Definition node_wf (s : Shape) : bool :=
  Shape_wf s &&
  match Shape_as_Markerable s with
  | Some m =>
      pointer_wf (Markerable_start m) && pointer_wf (Markerable_mid m) &&
      pointer_wf (Markerable_end m)
  | None => true
  end.

(** ** Occurrences in the output *)

Fixpoint is_prefix (pattern s : string) : bool :=
  match pattern with
  | "" => true
  | String a pattern' =>
      match s with
      | "" => false
      | String b s' => Ascii.eqb a b && is_prefix pattern' s'
      end
  end.

(** [contains pattern s]: the text [pattern] occurs in [s]. *)
Fixpoint contains (pattern s : string) : bool :=
  is_prefix pattern s ||
  match s with
  | "" => false
  | String _ rest => contains pattern rest
  end.

(** A document holding one animation. *)
Definition animated_example : Document :=
  Document_addAnimation (Document_new Layout_default)
    (Animation_Set
       (mkSetAttributeValue (mkAnimationBase "" "c" "" "" "") "hidden" "visibility" "CSS")).

Definition any_fs : FileSystem := mkFileSystem (fun _ => true) (fun _ _ => true).

(** A marker holding one circle, and the same marker without an id. *)
Definition dot_marker : Marker :=
  mkMarker "dot"
    [Shape_Circle (Circle_new (mkPoint 2 2) 4 (Fill_of_default Black no_rand 1)
                     Stroke_default)]
    4 4 2 2 "auto".

Definition anonymous_marker : Marker :=
  mkMarker "" (Marker_shapes dot_marker) 4 4 2 2 "auto".

(** The markers a set may hold while a well-formed document is
    serialized: valid, with well-formed shapes. *)
Definition usable (m : Marker) : Prop :=
  Marker_wf m = true /\ Marker_valid m = true.

(** A chart of one polyline from (0,0) to (0,60): the data is 60 high. *)
Definition chart_example : LineChart :=
  LineChart_push LineChart_default
    (Polyline_of_points [mkPoint 0 0; mkPoint 0 60] Stroke_default).

(** ** Serialization at given coordinates

    The serialization of a shape with its coordinates written as the
    maps [X] and [Y] give them: wherever [toString] writes the translated
    coordinates of a point [(x, y)], the functions below write [X x] and
    [Y y]; lengths, radii, strokes, fills, styles and marker references
    are written as [toString] writes them.  They state what it means to
    move the coordinates of an output. *)

Definition point_toString_at (X Y : float -> float) (p : Point) : string :=
  show (X (Point_x p)) ++ "," ++ show (Y (Point_y p)) ++ " ".

Fixpoint points_toString_at (X Y : float -> float) (points : list Point) : string :=
  match points with
  | [] => ""
  | p :: rest => point_toString_at X Y p ++ points_toString_at X Y rest
  end.

Definition Circle_toString_at (X Y : float -> float) (l : Layout) (c : Circle) : string :=
  elemStart "circle" false ++ serializeId (SurfaceShape_id (Circle_surface c)) ++
  attribute "cx" (show (X (Point_x (Circle_center c)))) "" ++
  attribute "cy" (show (Y (Point_y (Circle_center c)))) "" ++
  attribute "r" (show (translateScale (Circle_radius c) l)) "" ++
  SurfaceShape_toString l (Circle_surface c) ++ emptyElemEnd.

Definition Elipse_toString_at (X Y : float -> float) (l : Layout) (e : Elipse) : string :=
  elemStart "ellipse" false ++ serializeId (SurfaceShape_id (Elipse_surface e)) ++
  attribute "cx" (show (X (Point_x (Elipse_center e)))) "" ++
  attribute "cy" (show (Y (Point_y (Elipse_center e)))) "" ++
  attribute "rx" (show (translateScale (Elipse_radius_width e) l)) "" ++
  attribute "ry" (show (translateScale (Elipse_radius_height e) l)) "" ++
  SurfaceShape_toString l (Elipse_surface e) ++ emptyElemEnd.

Definition Rectangle_toString_at (X Y : float -> float) (l : Layout) (r : Rectangle)
    : string :=
  elemStart "rect" false ++ serializeId (SurfaceShape_id (Rectangle_surface r)) ++
  attribute "x" (show (X (Point_x (Rectangle_edge r)))) "" ++
  attribute "y" (show (Y (Point_y (Rectangle_edge r)))) "" ++
  (if (0 <? Rectangle_rx r) || (0 <? Rectangle_ry r)
   then attribute "rx" (show (Rectangle_rx r)) "" ++
        attribute "ry" (show (Rectangle_ry r)) ""
   else "") ++
  attribute "width" (show (translateScale (Rectangle_width r) l)) "" ++
  attribute "height" (show (translateScale (Rectangle_height r) l)) "" ++
  SurfaceShape_toString l (Rectangle_surface r) ++ emptyElemEnd.

Definition Line_toString_at (X Y : float -> float) (l : Layout) (ln : Line) : string :=
  elemStart "line" false ++ serializeId (Shape_id (Line_base ln)) ++
  attribute "x1" (show (X (Point_x (Line_start_point ln)))) "" ++
  attribute "y1" (show (Y (Point_y (Line_start_point ln)))) "" ++
  attribute "x2" (show (X (Point_x (Line_end_point ln)))) "" ++
  attribute "y2" (show (Y (Point_y (Line_end_point ln)))) "" ++
  ShapeBase_toString l (Line_base ln) ++
  Markerable_toString l (Line_markers ln) ++ emptyElemEnd.

Definition Polygon_toString_at (X Y : float -> float) (l : Layout) (p : Polygon)
    : string :=
  elemStart "polygon" false ++ serializeId (SurfaceShape_id (Polygon_surface p)) ++
  "points=" ++ dq ++ points_toString_at X Y (Polygon_points p) ++ dq ++ " " ++
  SurfaceShape_toString l (Polygon_surface p) ++ emptyElemEnd.

Fixpoint subpaths_toString_at (X Y : float -> float) (paths : list (list Point))
    : string :=
  match paths with
  | [] => ""
  | subpath :: rest =>
      match subpath with
      | [] => subpaths_toString_at X Y rest
      | _ :: _ =>
          "M" ++ points_toString_at X Y subpath ++ "z " ++
          subpaths_toString_at X Y rest
      end
  end.

Definition Path_toString_at (X Y : float -> float) (l : Layout) (p : Path) : string :=
  elemStart "path" false ++ serializeId (SurfaceShape_id (Path_surface p)) ++
  "d=" ++ dq ++ subpaths_toString_at X Y (Path_paths p) ++ dq ++ " " ++
  "fill-rule=" ++ dq ++ "evenodd" ++ dq ++ " " ++
  SurfaceShape_toString l (Path_surface p) ++ emptyElemEnd.

Definition Polyline_toString_at (X Y : float -> float) (l : Layout) (p : Polyline)
    : string :=
  elemStart "polyline" false ++ serializeId (Shape_id (Polyline_base p)) ++
  attribute "fill" "none" "" ++
  "points=" ++ dq ++ points_toString_at X Y (Polyline_points p) ++ dq ++ " " ++
  ShapeBase_toString l (Polyline_base p) ++
  Markerable_toString l (Polyline_markers p) ++ emptyElemEnd.

Definition Text_toString_at (X Y : float -> float) (l : Layout) (t : Text) : string :=
  elemStart "text" false ++ serializeId (SurfaceShape_id (Text_surface t)) ++
  TextAnchor_toString (Text_anchor t) ++
  DominantBaseline_toString (Text_dominant_baseline t) ++
  attribute "x" (show (X (Point_x (Text_origin t)))) "" ++
  attribute "y" (show (Y (Point_y (Text_origin t)))) "" ++
  SurfaceShape_toString l (Text_surface t) ++ Font_toString l (Text_font t) ++
  ">" ++ Text_content t ++ elemEnd "text".

(** A chart at given coordinates: its polylines, their vertices and its
    axis are all written through [X] and [Y]. *)
Fixpoint LineChart_polylinesToString_at (X Y : float -> float) (c : LineChart)
    (polylines : list Polyline) (l : Layout) (ret : string) : result string :=
  match polylines with
  | [] => Ok ret
  | p :: rest =>
      let shifted_polyline := LineChart_shifted c p in
      vertices <- LineChart_vertices c shifted_polyline ;;
      LineChart_polylinesToString_at X Y c rest l
        (ret ++ Polyline_toString_at X Y l shifted_polyline ++
         vectorToString (Circle_toString_at X Y) vertices l)
  end.

Definition LineChart_toString_at (X Y : float -> float) (l : Layout) (c : LineChart)
    : result string :=
  match LineChart_polylines c with
  | [] => Ok ""
  | _ :: _ =>
      ret <- LineChart_polylinesToString_at X Y c (LineChart_polylines c) l "" ;;
      axis <- LineChart_axis c ;;
      Ok (ret ++ match axis with
                 | None => ""
                 | Some axis => Polyline_toString_at X Y l axis
                 end)
  end.

Definition Shape_toString_at (X Y : float -> float) (l : Layout) (s : Shape)
    : result string :=
  match s with
  | Shape_Circle c => Ok (Circle_toString_at X Y l c)
  | Shape_Elipse e => Ok (Elipse_toString_at X Y l e)
  | Shape_Rectangle r => Ok (Rectangle_toString_at X Y l r)
  | Shape_Line ln => Ok (Line_toString_at X Y l ln)
  | Shape_Polygon p => Ok (Polygon_toString_at X Y l p)
  | Shape_Path p => Ok (Path_toString_at X Y l p)
  | Shape_Polyline p => Ok (Polyline_toString_at X Y l p)
  | Shape_Text t => Ok (Text_toString_at X Y l t)
  | Shape_LineChart c => LineChart_toString_at X Y l c
  end.

Definition Shape_is_chart (s : Shape) : bool :=
  match s with
  | Shape_LineChart _ => true
  | _ => false
  end.

(** A circle of diameter 2 at the origin, filled black. *)
Definition unit_circle : Circle :=
  Circle_new (mkPoint 0 0) 2 (Fill_of_default Black no_rand 1) Stroke_default.

(** ** Stroke attributes in the output *)

(** The attributes [Stroke::toString] writes. *)
Definition stroke_attribute_names : list string :=
  ["stroke-width"; "stroke"; "stroke-miterlimit"; "stroke-dashoffset";
   "stroke-dasharray"; "stroke-opacity"; "vector-effect"].

(** [has_stroke_attribute s]: the name of a stroke attribute, followed by
    the equals sign, occurs in [s]. *)
Definition has_stroke_attribute (s : string) : bool :=
  existsb (fun name => contains (name ++ "=") s) stroke_attribute_names.

Definition pointer_id (p : option Marker) : string :=
  match p with
  | Some m => Marker_getId m
  | None => ""
  end.

(** The free-form strings of the caller that a serialization copies into
    the output: ids, styles, text content, font family, and the ids of the
    markers pointed to. *)
Definition ShapeBase_texts (b : ShapeBase) : list string :=
  [Shape_id b; Shape_style b].

Definition Markerable_texts (m : Markerable) : list string :=
  [pointer_id (Markerable_start m); pointer_id (Markerable_mid m);
   pointer_id (Markerable_end m)].

Definition Polyline_texts (p : Polyline) : list string :=
  (ShapeBase_texts (Polyline_base p) ++ Markerable_texts (Polyline_markers p))%list.

Definition Shape_texts (s : Shape) : list string :=
  match s with
  | Shape_Line ln =>
      (ShapeBase_texts (Line_base ln) ++ Markerable_texts (Line_markers ln))%list
  | Shape_Polyline p => Polyline_texts p
  | Shape_Text t =>
      (ShapeBase_texts (SurfaceShape_shape (Text_surface t)) ++
       [Text_content t; Font_family (Text_font t)])%list
  | Shape_LineChart c => flat_map Polyline_texts (LineChart_polylines c)
  | _ => ShapeBase_texts (Shape_base s)
  end.

(** The strokes a serialization writes: the stroke of the shape; for a
    chart, which does not write its own, the stroke of its axis and those
    of its polylines. *)
Definition Shape_strokes (s : Shape) : list Stroke :=
  match s with
  | Shape_LineChart c =>
      LineChart_axis_stroke c ::
      map (fun p => Shape_stroke (Polyline_base p)) (LineChart_polylines c)
  | _ => [Shape_stroke (Shape_base s)]
  end.

(** Characters: those of attribute names (lower-case letters, the hyphen)
    and the equals sign; every other character separates names. *)
Definition name_char (c : ascii) : bool :=
  let n := nat_of_ascii c in
  ((97 <=? n)%nat && (n <=? 122)%nat) || (n =? 45)%nat || (n =? 61)%nat.

Fixpoint all_chars (f : ascii -> bool) (s : string) : bool :=
  match s with
  | "" => true
  | String c rest => f c && all_chars f rest
  end.

Definition no_equals (s : string) : bool :=
  all_chars (fun c => negb (Ascii.eqb c "="%char)) s.

Definition clean (s : string) : bool := negb (has_stroke_attribute s).

(** [s] is empty or ends in a separating character. *)
Fixpoint ends_sep (s : string) : bool :=
  match s with
  | "" => true
  | String c rest =>
      match rest with
      | "" => negb (name_char c)
      | String _ _ => ends_sep rest
      end
  end.

(** A fragment of output that can be followed by any clean text. *)
Definition good (s : string) : bool := clean s && ends_sep s.

(** The default chart after [chart << polyline] for a polyline of two
    points; its own stroke is [Stroke()], of width -1. *)
Definition default_chart_shape : Shape := Shape_LineChart chart_example.

(** ** Two markers with one id *)

(** Two markers with the id m1: one holds a circle, the other a
    rectangle. *)
Definition circle_marker : Marker :=
  mkMarker "m1"
    [Shape_Circle (Circle_new (mkPoint 2 2) 4 (Fill_of_default Black no_rand 1)
                     Stroke_default)]
    4 4 2 2 "auto".

Definition square_marker : Marker :=
  mkMarker "m1"
    [Shape_Rectangle (Rectangle_new (mkPoint 0 0) 4 4 (Fill_of_default Black no_rand 1)
                        Stroke_default 0 0)]
    4 4 2 2 "auto".

Definition line_with (marker_start marker_end : option Marker) : Shape :=
  Shape_Line
    (mkLine (ShapeBase_new (Stroke_of 1 (Color_of Black no_rand)) 0%Z "")
       (mkMarkerable marker_start None marker_end) (mkPoint 0 0) (mkPoint 10 10)).

(** One line that starts with the first marker and ends with the second. *)
Definition collision_in_one_line : Document :=
  Document_addShape (Document_new Layout_default)
    (line_with (Some circle_marker) (Some square_marker)).

(** Two lines, one starting with the first marker, one with the second. *)
Definition collision_in_two_lines : Document :=
  Document_addShape
    (Document_addShape (Document_new Layout_default)
       (line_with (Some circle_marker) None))
    (line_with (Some square_marker) None).

(** The valid markers a shape points to, and those of a list of nodes. *)
Definition Markerable_referenced (m : Markerable) : list Marker :=
  flat_map (fun p => match marker_used p with Some x => [x] | None => [] end)
    [Markerable_start m; Markerable_mid m; Markerable_end m].

Definition Document_referenced (nodes : list Shape) : list Marker :=
  flat_map (fun node => match Shape_as_Markerable node with
                        | Some m => Markerable_referenced m
                        | None => []
                        end) nodes.

(** A collision report that names two referenced markers of one id that
    [Marker::operator!=] tells apart. *)
Definition real_collision (candidates : list Marker) (c : Collision) : Prop :=
  exists i j,
    In i candidates /\ In j candidates /\
    Marker_getId i = Marker_getId j /\ Collision_id c = Marker_getId i /\
    Marker_neq i j = Ok true.

Definition top_left_layout : Layout :=
  Layout_new (mkDimensions 400 300) TopLeft 1 (mkPoint 0 0).

(** ** Further operations of the interface *)

Definition alphanum : string :=
  "0123456789ABCDEFGHIJKLMNOPQRSTUVWXYZabcdefghijklmnopqrstuvwxyz".

(** [alphanum[unsigned(r) % (sizeof(alphanum) - 1)]] for a value [r] of
    [rand()]. *)
Definition alphanum_at (r : Z) : ascii :=
  match String.get (Z.to_nat ((r mod 2 ^ 32) mod 62)%Z) alphanum with
  | Some c => c
  | None => zero
  end.

(** [Identifiable::random(len)]; [rand i] is the value the [i]-th call of
    [rand()] returns, [i] counting from [first]. *)
Fixpoint Identifiable_random_from (rand : nat -> Z) (first len : nat) : string :=
  match len with
  | O => ""
  | S len' => String (alphanum_at (rand first))
                (Identifiable_random_from rand (S first) len')
  end.

Definition Identifiable_random (rand : nat -> Z) (len : nat) : string :=
  Identifiable_random_from rand 0 len.

(** [Marker(markerId, markerWidth, markerHeight, refX, refY, shape,
    orientation = auto)]. *)
Definition Marker_of (markerId : string) (markerWidth markerHeight refX refY : float)
    (shape : Shape) (orientation : string) : Marker :=
  mkMarker markerId [shape] markerWidth markerHeight refX refY orientation.

Definition Marker_bad_orientation : exception :=
  invalid_argument
    ("Marker::setOrientation() only accepts the strings " ++ dq ++ "auto" ++ dq ++
     " or " ++ dq ++ "auto-start-reverse" ++ dq ++ ".").

(** [Marker::setOrientation(const std::string)]. *)
Definition Marker_setOrientation (m : Marker) (orientation : string) : result Marker :=
  if negb (String.eqb orientation "auto")
     && negb (String.eqb orientation "auto-start-reverse")
  then Throw Marker_bad_orientation
  else Ok (mkMarker (Marker_getId m) (Marker_shapes m) (Marker_marker_width m)
             (Marker_marker_height m) (Marker_ref_x m) (Marker_ref_y m) orientation).

(** The charts of the interface: a new chart, polylines pushed, offsets,
    and the setters inherited from [Shape] and [Identifiable]. *)
Inductive LineChart_built : LineChart -> Prop :=
| LineChart_built_new (margin : Dimensions) (axis : Stroke) :
    LineChart_built (LineChart_new margin axis)
| LineChart_built_push (c : LineChart) (p : Polyline) :
    LineChart_built c -> LineChart_built (LineChart_push c p)
| LineChart_built_offset (c : LineChart) (offset : Point) :
    LineChart_built c -> LineChart_built (LineChart_offset c offset)
| LineChart_built_base (c : LineChart) (b : ShapeBase) :
    LineChart_built c ->
    LineChart_built
      (mkLineChart b (LineChart_axis_stroke c) (LineChart_margin c)
         (LineChart_polylines c)).

(** The element a shape other than a chart is written as, and the text
    that closes it. *)
Definition Shape_element (s : Shape) : string :=
  match s with
  | Shape_Circle _ => "circle"
  | Shape_Elipse _ => "ellipse"
  | Shape_Rectangle _ => "rect"
  | Shape_Line _ => "line"
  | Shape_Polygon _ => "polygon"
  | Shape_Path _ => "path"
  | Shape_Polyline _ => "polyline"
  | Shape_Text _ => "text"
  | Shape_LineChart _ => ""
  end.

Definition Shape_closing (s : Shape) : string :=
  match s with
  | Shape_Text _ => elemEnd "text"
  | _ => emptyElemEnd
  end.

Definition non_empty {A : Type} (l : list A) : bool :=
  match l with
  | [] => false
  | _ :: _ => true
  end.

Definition Marker_id_lt (a b : Marker) : Prop :=
  String.ltb (Marker_getId a) (Marker_getId b) = true.

(** Shapes, markers and body nodes whose charts are charts of the
    interface. *)
Definition Shape_made (s : Shape) : Prop :=
  match s with
  | Shape_LineChart c => LineChart_built c
  | _ => True
  end.

Definition pointer_made (p : option Marker) : Prop :=
  match p with
  | Some m => Forall Shape_made (Marker_shapes m)
  | None => True
  end.

Definition node_made (s : Shape) : Prop :=
  Shape_made s /\
  match Shape_as_Markerable s with
  | Some m =>
      pointer_made (Markerable_start m) /\ pointer_made (Markerable_mid m) /\
      pointer_made (Markerable_end m)
  | None => True
  end.

(** The coordinates of a point as [AnimateMotion::toString] writes them. *)
Definition AnimateMotion_point (p : Point) : string :=
  show (Point_x p) ++ "," ++ show (Point_y p).

(** ** Further members of the interface *)

(** [Shape::setStyle] on a polyline. *)
Definition Polyline_setStyle (p : Polyline) (new_style : string) : Polyline :=
  mkPolyline (ShapeBase_setStyle (Polyline_base p) new_style) (Polyline_markers p)
    (Polyline_points p).

(** A polyline of three points, made with the constructor, and the same
    after [setStyle] with a fill. *)
Definition triangle_polyline : Polyline :=
  Polyline_of_points [mkPoint 0 0; mkPoint 10 0; mkPoint 5 10] Stroke_default.

Definition styled_polyline : Polyline := Polyline_setStyle triangle_polyline "fill:red".









(** Characters other than the angle brackets, strings of such characters,
    and the number of times a character occurs in a string. *)
Definition plain_char (c : ascii) : bool :=
  negb (Ascii.eqb c "<"%char) && negb (Ascii.eqb c ">"%char).

Definition plain (s : string) : bool := all_chars plain_char s.

Fixpoint count (c : ascii) (s : string) : nat :=
  match s with
  | "" => O
  | String x rest => ((if Ascii.eqb x c then 1 else 0) + count c rest)%nat
  end.

(** * Properties *)

(** ** Stable sorting by an integer key *)

Section StableSort.

Context {A : Type}.
Variable key : A -> Z.

Let less (a b : A) : bool := (key a <? key b)%Z.
Let le (a b : A) : Prop := (key a <= key b)%Z.
Let has (k : Z) (a : A) : bool := (key a =? k)%Z.

Lemma insert_sorted_In (a x : A) (l : list A) :
  In x (insert_sorted less a l) <-> x = a \/ In x l.
Proof.
  induction l as [|y l IH]; simpl.
  - intuition.
  - destruct (less y a); simpl; rewrite ?IH; intuition.
Qed.

Lemma insert_sorted_sorted (a : A) (l : list A) :
  StronglySorted le l -> StronglySorted le (insert_sorted less a l).
Proof.
  induction 1 as [|y l Hs IH Hall]; simpl.
  - repeat constructor.
  - unfold less at 1. destruct (Z.ltb_spec (key y) (key a)) as [Hlt|Hge].
    + constructor; [exact IH|].
      rewrite Forall_forall in *. intros x Hx.
      apply insert_sorted_In in Hx. destruct Hx as [->|Hx].
      * unfold le. lia.
      * now apply Hall.
    + constructor; [now constructor|].
      constructor; [exact Hge|].
      rewrite Forall_forall in *. intros x Hx.
      specialize (Hall x Hx). unfold le in *. lia.
Qed.

Lemma stable_sort_sorted (l : list A) : StronglySorted le (stable_sort less l).
Proof.
  induction l as [|a l IH]; simpl.
  - constructor.
  - now apply insert_sorted_sorted.
Qed.

Lemma insert_sorted_perm (a : A) (l : list A) :
  Permutation (a :: l) (insert_sorted less a l).
Proof.
  induction l as [|y l IH]; simpl.
  - apply Permutation_refl.
  - destruct (less y a).
    + eapply perm_trans; [apply perm_swap|]. now apply perm_skip.
    + apply Permutation_refl.
Qed.

Lemma stable_sort_perm (l : list A) : Permutation l (stable_sort less l).
Proof.
  induction l as [|a l IH]; simpl.
  - constructor.
  - eapply perm_trans; [apply perm_skip, IH|]. apply insert_sorted_perm.
Qed.

(** Inserting an element in front of a sorted list keeps, for each key,
    the order in which the elements of that key stood. *)
Lemma insert_sorted_filter (k : Z) (a : A) (l : list A) :
  StronglySorted le l ->
  filter (has k) (insert_sorted less a l) = filter (has k) (a :: l).
Proof.
  induction 1 as [|y l Hs IH Hall]; [reflexivity|].
  simpl insert_sorted. unfold less at 1.
  destruct (Z.ltb_spec (key y) (key a)) as [Hlt|Hge]; [|reflexivity].
  simpl filter at 1. rewrite IH. simpl. unfold has.
  destruct (Z.eqb_spec (key y) k) as [Hy|Hy];
    destruct (Z.eqb_spec (key a) k) as [Ha|Ha]; try reflexivity.
  lia.
Qed.

Lemma stable_sort_filter (k : Z) (l : list A) :
  filter (has k) (stable_sort less l) = filter (has k) l.
Proof.
  induction l as [|a l IH]; [reflexivity|].
  simpl stable_sort. rewrite insert_sorted_filter by apply stable_sort_sorted.
  simpl. now rewrite IH.
Qed.

(** A sorted list is determined by the sequences of its elements of each
    key: there is one stable sorting of a list. *)
Lemma sorted_filter_unique (l1 l2 : list A) :
  StronglySorted le l1 -> StronglySorted le l2 ->
  (forall k, filter (has k) l1 = filter (has k) l2) ->
  l1 = l2.
Proof.
  intros H1. revert l2.
  induction H1 as [|x r1 Hs1 IH Hall1]; intros l2 H2 Hf.
  - destruct l2 as [|y r2]; [reflexivity|].
    specialize (Hf (key y)). simpl in Hf. unfold has in Hf at 1.
    rewrite Z.eqb_refl in Hf. discriminate.
  - destruct H2 as [|y r2 Hs2 Hall2].
    + specialize (Hf (key x)). simpl in Hf. unfold has in Hf at 1.
      rewrite Z.eqb_refl in Hf. discriminate.
    + assert (Hxy : key x = key y).
      { assert (Hle1 : (key x <= key y)%Z).
        { assert (Hin : In y (filter (has (key y)) (x :: r1))).
          { rewrite Hf. simpl. unfold has at 1. rewrite Z.eqb_refl. now left. }
          apply filter_In in Hin. destruct Hin as [[->|Hin] _]; [lia|].
          rewrite Forall_forall in Hall1. exact (Hall1 y Hin). }
        assert (Hle2 : (key y <= key x)%Z).
        { assert (Hin : In x (filter (has (key x)) (y :: r2))).
          { rewrite <- Hf. simpl. unfold has at 1. rewrite Z.eqb_refl. now left. }
          apply filter_In in Hin. destruct Hin as [[->|Hin] _]; [lia|].
          rewrite Forall_forall in Hall2. exact (Hall2 x Hin). }
        lia. }
      assert (Hx : has (key x) x = true) by apply Z.eqb_refl.
      assert (Hy : has (key x) y = true)
        by (unfold has; rewrite Hxy; apply Z.eqb_refl).
      assert (Hhead := Hf (key x)). simpl in Hhead. rewrite Hx, Hy in Hhead.
      injection Hhead as -> Htail.
      f_equal. apply IH; [exact Hs2|].
      intros k. specialize (Hf k). simpl in Hf.
      destruct (has k y); [now injection Hf|exact Hf].
Qed.

Lemma stable_sort_sorted_id (l : list A) :
  StronglySorted le l -> stable_sort less l = l.
Proof.
  intros H. apply sorted_filter_unique.
  - apply stable_sort_sorted.
  - exact H.
  - intros k. apply stable_sort_filter.
Qed.

Lemma stable_sort_idempotent (l : list A) :
  stable_sort less (stable_sort less l) = stable_sort less l.
Proof. apply stable_sort_sorted_id, stable_sort_sorted. Qed.

Lemma stable_sort_app_sorted (l1 l2 : list A) :
  stable_sort less (stable_sort less l1 ++ l2) = stable_sort less (l1 ++ l2).
Proof.
  apply sorted_filter_unique; try apply stable_sort_sorted.
  intros k. rewrite !stable_sort_filter, !filter_app, stable_sort_filter.
  reflexivity.
Qed.

Lemma constant_key_sorted (k : Z) (l : list A) :
  Forall (fun a => key a = k) l -> StronglySorted le l.
Proof.
  induction 1 as [|a l Ha Hall IH]; constructor; [exact IH|].
  rewrite Forall_forall in *. intros x Hx. unfold le.
  rewrite Ha, (Hall x Hx). lia.
Qed.

End StableSort.

(** ** Strings *)

Lemma append_nil_r (s : string) : s ++ "" = s.
Proof. induction s as [|c s IH]; simpl; [reflexivity|now rewrite IH]. Qed.

Lemma append_assoc (a b c : string) : (a ++ b) ++ c = a ++ (b ++ c).
Proof. induction a as [|x a IH]; simpl; [reflexivity|now rewrite IH]. Qed.

Lemma length_append (a b : string) :
  String.length (a ++ b) = (String.length a + String.length b)%nat.
Proof. induction a as [|x a IH]; simpl; [reflexivity|now rewrite IH]. Qed.

Lemma list_ascii_of_string_app (a b : string) :
  list_ascii_of_string (a ++ b) =
  (list_ascii_of_string a ++ list_ascii_of_string b)%list.
Proof. induction a as [|x a IH]; simpl; [reflexivity|now rewrite IH]. Qed.

Lemma string_of_list_ascii_app (a b : list ascii) :
  string_of_list_ascii (a ++ b) = string_of_list_ascii a ++ string_of_list_ascii b.
Proof. induction a as [|x a IH]; simpl; [reflexivity|now rewrite IH]. Qed.

Lemma length_list_ascii_of_string (s : string) :
  List.length (list_ascii_of_string s) = String.length s.
Proof. induction s as [|c s IH]; simpl; [reflexivity|now rewrite IH]. Qed.

Lemma std_equal_app (r t : list ascii) : std_equal r (r ++ t) = true.
Proof.
  induction r as [|a r IH]; simpl; [reflexivity|].
  now rewrite Ascii.eqb_refl, IH.
Qed.

Lemma std_equal_prefix (r l : list ascii) :
  std_equal r l = true -> exists t, l = (r ++ t)%list.
Proof.
  revert l. induction r as [|a r IH]; intros l H.
  - now exists l.
  - destruct l as [|b l]; [discriminate|]. simpl in H.
    apply andb_true_iff in H. destruct H as [Hab Hrest].
    apply Ascii.eqb_eq in Hab. subst b.
    destruct (IH l Hrest) as [t ->]. now exists t.
Qed.

Lemma ends_with_append (stem ending : string) :
  ends_with (stem ++ ending) ending = true.
Proof.
  unfold ends_with, reversed.
  rewrite length_append.
  replace (String.length stem + String.length ending <? String.length ending)%nat
    with false by (symmetry; apply Nat.ltb_ge; lia).
  rewrite list_ascii_of_string_app, rev_app_distr. apply std_equal_app.
Qed.

Lemma ends_with_suffix (value ending : string) :
  ends_with value ending = true -> exists stem, value = stem ++ ending.
Proof.
  unfold ends_with, reversed.
  destruct (String.length value <? String.length ending)%nat; [discriminate|].
  intros H. apply std_equal_prefix in H. destruct H as [t Ht].
  exists (string_of_list_ascii (rev t)).
  rewrite <- (string_of_list_ascii_of_string value),
          <- (string_of_list_ascii_of_string ending) at 1.
  rewrite <- string_of_list_ascii_app. f_equal.
  rewrite <- (rev_involutive (list_ascii_of_string value)), Ht.
  now rewrite rev_app_distr, rev_involutive.
Qed.

Lemma is_prefix_app (p a b : string) :
  is_prefix p a = true -> is_prefix p (a ++ b) = true.
Proof.
  revert a. induction p as [|c p IH]; intros a H; [reflexivity|].
  destruct a as [|x a]; [discriminate|]. simpl in *.
  apply andb_true_iff in H. destruct H as [Hc Hp].
  now rewrite Hc, IH.
Qed.

Lemma contains_app_l (p a b : string) :
  contains p a = true -> contains p (a ++ b) = true.
Proof.
  induction a as [|x a IH]; intros H.
  - simpl in H. rewrite orb_false_r in H.
    destruct p; [|discriminate]. destruct b; reflexivity.
  - cbn [contains] in H. apply orb_true_iff in H.
    change (String x a ++ b) with (String x (a ++ b)). cbn [contains].
    apply orb_true_iff. destruct H as [H|H].
    + left. now apply (is_prefix_app p (String x a) b).
    + right. now apply IH.
Qed.

Lemma contains_app_r (p a b : string) :
  contains p b = true -> contains p (a ++ b) = true.
Proof.
  intros H. induction a as [|x a IH]; [exact H|].
  change (String x a ++ b) with (String x (a ++ b)). cbn [contains].
  rewrite IH. apply orb_true_r.
Qed.

Lemma is_prefix_self_app (a b : string) : is_prefix a (a ++ b) = true.
Proof.
  induction a as [|c a IH]; [reflexivity|].
  simpl. now rewrite Ascii.eqb_refl, IH.
Qed.

Lemma contains_prefix (p s : string) : is_prefix p s = true -> contains p s = true.
Proof. intros H. destruct s; cbn [contains]; now rewrite H. Qed.

Lemma is_prefix_app_same (a b c : string) :
  is_prefix (a ++ b) (a ++ c) = is_prefix b c.
Proof.
  induction a as [|x a IH]; [reflexivity|].
  cbn [append is_prefix]. now rewrite Ascii.eqb_refl, IH.
Qed.

(** ** The coordinate transform *)

(** C1: translateX is width - (x + offset.x) * scale for the right origins
    and (offset.x + x) * scale for the left ones, translateY likewise with
    the bottom origins and the height; Point(0,0) under BottomLeft with
    dimensions (400,300), scale 1 and offset (0,0) goes to (0, 300). *)
Theorem translate_by_origin :
  (forall (layout : Layout) (x : float),
      translateX x layout =
      match Layout_origin layout with
      | TopRight | BottomRight =>
          Dimensions_width (Layout_dimensions layout)
          - (x + Point_x (Layout_origin_offset layout)) * Layout_scale layout
      | TopLeft | BottomLeft =>
          (Point_x (Layout_origin_offset layout) + x) * Layout_scale layout
      end) /\
  (forall (layout : Layout) (y : float),
      translateY y layout =
      match Layout_origin layout with
      | BottomLeft | BottomRight =>
          Dimensions_height (Layout_dimensions layout)
          - (y + Point_y (Layout_origin_offset layout)) * Layout_scale layout
      | TopLeft | TopRight =>
          (Point_y (Layout_origin_offset layout) + y) * Layout_scale layout
      end) /\
  translate (mkPoint 0 0)
    (Layout_new (mkDimensions 400 300) BottomLeft 1 (mkPoint 0 0)) = (0, 300).
Proof.
  split; [|split].
  - intros layout x. unfold translateX. now destruct (Layout_origin layout).
  - intros layout y. unfold translateY. now destruct (Layout_origin layout).
  - reflexivity.
Qed.

(** ** Polyline *)

(** C10 (as the code has it): whatever its stroke, style, markers and
    points, the serialization of a polyline holds the attribute fill with
    the value none, written right after the element name and the id, also
    when the polyline is serialized as a shape; the string given to
    setStyle is written as it is as the style attribute, whatever it
    holds. *)
Theorem Polyline_fill_none (l : Layout) (p : Polyline) :
  contains ("fill=" ++ dq ++ "none" ++ dq) (Polyline_toString l p) = true /\
  Shape_toString l (Shape_Polyline p) = Ok (Polyline_toString l p) /\
  is_prefix
    (elemStart "polyline" false ++ serializeId (Shape_id (Polyline_base p)) ++
     "fill=" ++ dq ++ "none" ++ dq ++ " ")
    (Polyline_toString l p) = true /\
  (forall new_style : string,
      new_style <> "" ->
      contains ("style=" ++ dq ++ new_style ++ dq)
        (Polyline_toString l (Polyline_setStyle p new_style)) = true /\
      contains ("fill=" ++ dq ++ "none" ++ dq)
        (Polyline_toString l (Polyline_setStyle p new_style)) = true).
Proof.
  assert (Hfill : forall q : Polyline,
    contains ("fill=" ++ dq ++ "none" ++ dq) (Polyline_toString l q) = true).
  { intros q. unfold Polyline_toString.
    apply contains_app_r, contains_app_r, contains_app_l. reflexivity. }
  split; [apply Hfill|]. split; [reflexivity|]. split.
  - unfold Polyline_toString. rewrite !is_prefix_app_same. reflexivity.
  - intros new_style Hne. split; [|apply Hfill].
    unfold Polyline_toString, Polyline_setStyle, ShapeBase_toString.
    cbn [Polyline_base Polyline_markers Polyline_points ShapeBase_setStyle
         Shape_id Shape_stroke Shape_style Shape_visible].
    destruct (String.eqb_spec new_style "") as [E|_]; [contradiction|].
    do 8 apply contains_app_r. apply contains_app_l.
    apply contains_app_r, contains_app_l, contains_prefix.
    change (is_prefix ("style=" ++ dq ++ new_style ++ dq)
              (("style=" ++ dq) ++ new_style ++ dq ++ " ") = true).
    change ("style=" ++ dq ++ new_style ++ dq)
      with (("style=" ++ dq) ++ new_style ++ dq).
    rewrite !is_prefix_app_same. reflexivity.
Qed.

Lemma Polyline_fill_none_witness :
  contains ("style=" ++ dq ++ "stroke-linecap:round" ++ dq)
    (Polyline_toString Layout_default
       (Polyline_setStyle triangle_polyline "stroke-linecap:round")) = true.
Proof.
  apply (proj2 (proj2 (proj2 (Polyline_fill_none Layout_default triangle_polyline)))
           "stroke-linecap:round").
  discriminate.
Defined.

(** C10 (as stated) fails: a polyline made with the constructor and
    setStyle is written with a fill in its style attribute, beside the
    attribute fill with the value none. *)
Lemma Polyline_filled_by_style :
  styled_polyline =
    Polyline_setStyle
      (Polyline_of_points [mkPoint 0 0; mkPoint 10 0; mkPoint 5 10] Stroke_default)
      "fill:red" /\
  Polyline_toString Layout_default styled_polyline =
    String "009"%char "<polyline fill=" ++ dq ++ "none" ++ dq ++ " points=" ++ dq ++
    "0,300 10,300 5,290 " ++ dq ++ " style=" ++ dq ++ "fill:red" ++ dq ++ " />" ++ nl /\
  contains ("style=" ++ dq ++ "fill:red" ++ dq)
    (Polyline_toString Layout_default styled_polyline) = true.
Proof. split; [reflexivity|]. split; vm_compute; reflexivity. Qed.

(** ** Saving *)

Lemma Document_save_file_name (fs : FileSystem) (d : Document)
    (filename : string) (auto_append : bool) :
  Document_getFileName (fst (Document_save fs d filename auto_append)) =
  if auto_append then
    if Document_isAnimated d then
      if ends_with filename ".html" then filename else filename ++ ".html"
    else if ends_with filename ".svg" then filename else filename ++ ".svg"
  else filename.
Proof.
  unfold Document_save.
  set (name := if auto_append then _ else _).
  assert (Hname : name =
    if auto_append then
      if Document_isAnimated d then
        if ends_with filename ".html" then filename else filename ++ ".html"
      else if ends_with filename ".svg" then filename else filename ++ ".svg"
    else filename).
  { subst name. destruct auto_append; [|reflexivity].
    destruct (Document_isAnimated d).
    - now destruct (ends_with filename ".html").
    - now destruct (ends_with filename ".svg"). }
  rewrite <- Hname.
  destruct (negb (fs_is_open fs name)); reflexivity.
Qed.

(** C3 (as the code has it): with auto_append the file name ends in .svg
    for a document without animation and in .html for one with an
    animation; a name that already ends in that extension is kept, so
    chart.svg stays chart.svg for a document without animation, and becomes
    chart.svg.html for one with an animation. *)
Theorem save_extension (fs : FileSystem) (d : Document) (filename : string) :
  (exists stem,
      Document_getFileName (fst (Document_save fs d filename true)) =
      stem ++ (if Document_isAnimated d then ".html" else ".svg")) /\
  (ends_with filename (if Document_isAnimated d then ".html" else ".svg") = true ->
   Document_getFileName (fst (Document_save fs d filename true)) = filename) /\
  Document_getFileName (fst (Document_save fs d "chart.svg" true)) =
  (if Document_isAnimated d then "chart.svg.html" else "chart.svg").
Proof.
  rewrite !Document_save_file_name.
  split; [|split].
  - destruct (Document_isAnimated d).
    + destruct (ends_with filename ".html") eqn:E.
      * now apply ends_with_suffix.
      * now exists filename.
    + destruct (ends_with filename ".svg") eqn:E.
      * now apply ends_with_suffix.
      * now exists filename.
  - destruct (Document_isAnimated d); intros ->; reflexivity.
  - destruct (Document_isAnimated d); reflexivity.
Qed.

Lemma save_extension_witness :
  Document_getFileName
    (fst (Document_save any_fs (Document_new Layout_default) "plot.svg" true)) =
  "plot.svg".
Proof.
  apply (proj1 (proj2 (save_extension any_fs (Document_new Layout_default) "plot.svg"))).
  reflexivity.
Defined.

(** C3 (as stated) fails: saving an animated document as chart.svg appends
    a second extension. *)
Lemma save_chart_svg_animated :
  Document_isAnimated animated_example = true /\
  Document_getFileName (fst (Document_save any_fs animated_example "chart.svg" true))
  = "chart.svg.html" /\
  Document_getFileName (fst (Document_save any_fs animated_example "chart.svg" true))
  <> "chart.svg".
Proof. split; [reflexivity|split; [reflexivity|discriminate]]. Qed.

(** ** Serializing twice *)

Lemma Document_sorted_nodes_again (d : Document) :
  Document_sorted_nodes (fst (Document_writeToStream d)) = Document_sorted_nodes d.
Proof.
  unfold Document_writeToStream, Document_sorted_nodes. simpl.
  destruct (Document_needs_sorting d); [|reflexivity].
  apply (stable_sort_idempotent Shape_getZ).
Qed.

Lemma Document_writeToStream_again (d : Document) :
  Document_writeToStream (fst (Document_writeToStream d)) =
  (fst (Document_writeToStream d), snd (Document_writeToStream d)).
Proof.
  unfold Document_writeToStream at 1.
  rewrite Document_sorted_nodes_again.
  reflexivity.
Qed.

Lemma Document_toString_unfold (d : Document) :
  Document_toString d =
  (fst (Document_writeToStream d),
   w <- snd (Document_writeToStream d) ;; Ok (Written_text w)).
Proof. unfold Document_toString. now destruct (Document_writeToStream d). Qed.

(** C9: a second call of toString returns what the first returned (the
    same text, or the same exception), and leaves the document as the
    first call left it. *)
Theorem toString_twice (d : Document) :
  snd (Document_toString (fst (Document_toString d))) = snd (Document_toString d) /\
  fst (Document_toString (fst (Document_toString d))) = fst (Document_toString d).
Proof.
  rewrite !Document_toString_unfold. cbn [fst snd].
  rewrite Document_writeToStream_again. split; reflexivity.
Qed.

(** ** Serializations that do not throw *)

Lemma bind_Ok {A B : Type} (r : result A) (k : A -> result B) (a : A) :
  r = Ok a -> bind r k = k a.
Proof. now intros ->. Qed.

Lemma mapM_Ok {A B : Type} (f : A -> result B) (l : list A) :
  (forall a, In a l -> exists b, f a = Ok b) -> exists bs, mapM f l = Ok bs.
Proof.
  induction l as [|a l IH]; intros H; simpl.
  - now exists [].
  - destruct (H a (or_introl eq_refl)) as [b ->].
    destruct IH as [bs ->]; [intros x Hx; apply H; now right|].
    now exists (b :: bs).
Qed.

Lemma concatM_Ok {A : Type} (f : A -> result string) (l : list A) :
  (forall a, In a l -> exists s, f a = Ok s) -> exists s, concatM f l = Ok s.
Proof.
  induction l as [|a l IH]; intros H; simpl.
  - now exists "".
  - destruct (H a (or_introl eq_refl)) as [s ->].
    destruct IH as [t ->]; [intros x Hx; apply H; now right|].
    now exists (s ++ t).
Qed.

Lemma getDimensions_loop_Ok (polylines : list Polyline) (m M : Point) :
  forallb (fun p => match Polyline_points p with [] => false | _ :: _ => true end)
    polylines = true ->
  exists m' M', getDimensions_loop polylines (Some m) (Some M) = Ok (Some m', Some M').
Proof.
  revert m M. induction polylines as [|pl rest IH]; intros m M H.
  - now exists m, M.
  - simpl in H. apply andb_true_iff in H. destruct H as [Hpl Hrest].
    simpl. destruct (Polyline_points pl) as [|p0 pts]; [discriminate|].
    simpl. now apply IH.
Qed.

Lemma LineChart_getDimensions_Ok (c : LineChart) :
  LineChart_wf c = true -> LineChart_polylines c <> [] ->
  exists d, LineChart_getDimensions c = Ok (Some d).
Proof.
  unfold LineChart_wf, LineChart_getDimensions. intros Hwf Hne.
  destruct (LineChart_polylines c) as [|first rest] eqn:E; [contradiction|].
  assert (Hfirst := Hwf). simpl in Hfirst.
  apply andb_true_iff in Hfirst. destruct Hfirst as [Hfirst _].
  destruct (Polyline_points first) as [|p0 pts] eqn:Ep; [discriminate|].
  cbn [getMinPoint getMaxPoint].
  destruct (getDimensions_loop_Ok (first :: rest)
              (getMinPoint_loop (p0 :: pts) p0) (getMaxPoint_loop (p0 :: pts) p0) Hwf)
    as (m' & M' & ->).
  simpl. eauto.
Qed.

Lemma LineChart_polylineToString_Ok (c : LineChart) (p : Polyline) (l : Layout) :
  LineChart_wf c = true -> LineChart_polylines c <> [] ->
  exists s, LineChart_polylineToString c p l = Ok s.
Proof.
  intros Hwf Hne. unfold LineChart_polylineToString, LineChart_vertices.
  destruct (LineChart_getDimensions_Ok c Hwf Hne) as [d Hd].
  destruct (mapM_Ok
    (fun p0 => dimensions <- LineChart_getDimensions c ;;
               d0 <- deref dimensions ;;
               Ok (Circle_new p0 (Dimensions_height d0 / 30)
                     (Fill_of_default Black no_rand 1) Stroke_default))
    (Polyline_points (LineChart_shifted c p))) as [vs ->].
  - intros a _. rewrite Hd. simpl. eauto.
  - simpl. eauto.
Qed.

Lemma LineChart_polylinesToString_Ok (c : LineChart) (ps : list Polyline)
    (l : Layout) (ret : string) :
  LineChart_wf c = true -> LineChart_polylines c <> [] ->
  exists s, LineChart_polylinesToString c ps l ret = Ok s.
Proof.
  intros Hwf Hne. revert ret. induction ps as [|p ps IH]; intros ret; simpl.
  - eauto.
  - destruct (LineChart_polylineToString_Ok c p l Hwf Hne) as [s ->]. simpl.
    apply IH.
Qed.

Lemma LineChart_toString_Ok (l : Layout) (c : LineChart) :
  LineChart_wf c = true -> exists s, LineChart_toString l c = Ok s.
Proof.
  intros Hwf. unfold LineChart_toString, LineChart_axisString, LineChart_axis.
  destruct (LineChart_polylines c) as [|p ps] eqn:E; [eauto|].
  assert (Hne : LineChart_polylines c <> []) by (rewrite E; discriminate).
  rewrite <- E.
  destruct (LineChart_polylinesToString_Ok c (LineChart_polylines c) l "" Hwf Hne)
    as [s ->].
  destruct (LineChart_getDimensions_Ok c Hwf Hne) as [d ->].
  simpl. eauto.
Qed.

Lemma Shape_toString_Ok (l : Layout) (s : Shape) :
  Shape_wf s = true -> exists str, Shape_toString l s = Ok str.
Proof.
  destruct s; simpl; eauto. apply LineChart_toString_Ok.
Qed.

(** The charts of the interface are well formed. *)
Lemma LineChart_new_wf (margin : Dimensions) (axis : Stroke) :
  LineChart_wf (LineChart_new margin axis) = true.
Proof. reflexivity. Qed.

Lemma LineChart_push_wf (c : LineChart) (p : Polyline) :
  LineChart_wf c = true -> LineChart_wf (LineChart_push c p) = true.
Proof.
  unfold LineChart_push, LineChart_wf. intros H.
  destruct (Polyline_points p) as [|p0 pts] eqn:E; [exact H|].
  simpl. rewrite forallb_app, H. simpl. now rewrite E.
Qed.

Lemma LineChart_offset_wf (c : LineChart) (offset : Point) :
  LineChart_wf c = true -> LineChart_wf (LineChart_offset c offset) = true.
Proof.
  unfold LineChart_offset, LineChart_wf. simpl.
  induction (LineChart_polylines c) as [|p ps IH]; [reflexivity|].
  simpl. intros H. apply andb_true_iff in H. destruct H as [Hp Hps].
  rewrite (IH Hps), andb_true_r.
  now destruct (Polyline_points p).
Qed.

(** ** Marker *)

Lemma Marker_shapes_toString_Ok (shapes : list Shape) :
  forallb Shape_wf shapes = true -> exists s, Marker_shapes_toString shapes = Ok s.
Proof.
  induction shapes as [|s rest IH]; simpl; intros H; [eauto|].
  apply andb_true_iff in H. destruct H as [Hs Hrest].
  destruct (Shape_toString_Ok UNCHANGED s Hs) as [str ->].
  destruct (IH Hrest) as [tail ->]. simpl. eauto.
Qed.

Lemma Marker_toString_Ok (l : Layout) (m : Marker) :
  Marker_wf m = true -> Marker_getId m <> "" ->
  exists text, Marker_toString l m = Ok text.
Proof.
  intros Hwf Hid. unfold Marker_toString, Marker_valid.
  apply String.eqb_neq in Hid. rewrite Hid. simpl.
  destruct (Marker_shapes_toString_Ok _ Hwf) as [body ->]. simpl. eauto.
Qed.

(** C5: serializing a marker throws exactly when its id is empty (the
    exception is invalid_argument), and returns a string when it is not;
    the shapes of the marker are those of the interface (charts hold no
    empty polyline). *)
Theorem Marker_toString_throws (l : Layout) (m : Marker) :
  Marker_wf m = true ->
  ((exists e, Marker_toString l m = Throw e) <-> Marker_getId m = "") /\
  (Marker_getId m = "" -> Marker_toString l m = Throw Marker_no_id) /\
  (Marker_getId m <> "" -> exists text, Marker_toString l m = Ok text).
Proof.
  intros Hwf.
  assert (Hthrow : Marker_getId m = "" -> Marker_toString l m = Throw Marker_no_id).
  { intros Hid. unfold Marker_toString. now rewrite Hid. }
  split; [split|split].
  - intros [e He]. destruct (string_dec (Marker_getId m) "") as [|Hne]; [assumption|].
    destruct (Marker_toString_Ok l m Hwf Hne) as [text Ht]. congruence.
  - intros Hid. rewrite (Hthrow Hid). eauto.
  - exact Hthrow.
  - now apply Marker_toString_Ok.
Qed.

Lemma Marker_toString_throws_witness :
  (exists text, Marker_toString Layout_default dot_marker = Ok text) /\
  Marker_toString Layout_default anonymous_marker = Throw Marker_no_id.
Proof.
  split.
  - apply (proj2 (proj2 (Marker_toString_throws Layout_default dot_marker eq_refl))).
    discriminate.
  - apply (proj1 (proj2 (Marker_toString_throws Layout_default anonymous_marker
                           eq_refl))).
    reflexivity.
Defined.

Lemma Marker_neq_Ok (a b : Marker) :
  Marker_wf a = true -> Marker_wf b = true -> exists r, Marker_neq a b = Ok r.
Proof.
  intros Ha Hb. unfold Marker_neq.
  match goal with |- context [if ?c then _ else _] => destruct c end; [eauto|].
  destruct (mapM_Ok (Shape_toString Layout_default) (Marker_shapes a)) as [sa ->].
  { intros s Hs. apply Shape_toString_Ok.
    unfold Marker_wf in Ha. rewrite forallb_forall in Ha. now apply Ha. }
  destruct (mapM_Ok (Shape_toString Layout_default) (Marker_shapes b)) as [sb ->].
  { intros s Hs. apply Shape_toString_Ok.
    unfold Marker_wf in Hb. rewrite forallb_forall in Hb. now apply Hb. }
  simpl. eauto.
Qed.

(** ** Collecting the markers of a document *)

Lemma MarkerSet_insert_In (m x : Marker) (s : MarkerSet) :
  In x (MarkerSet_insert m s) -> x = m \/ In x s.
Proof.
  induction s as [|y s IH]; simpl.
  - intuition.
  - destruct (compareMarker m y); simpl; [intuition|].
    destruct (compareMarker y m); simpl; intuition.
Qed.

Lemma MarkerSet_insert_usable (m : Marker) (s : MarkerSet) :
  usable m -> Forall usable s -> Forall usable (MarkerSet_insert m s).
Proof.
  intros Hm Hs. rewrite Forall_forall in *. intros x Hx.
  apply MarkerSet_insert_In in Hx. destruct Hx as [->|Hx]; auto.
Qed.

Lemma insert_if_used_usable (p : option Marker) (s : MarkerSet) :
  pointer_wf p = true -> Forall usable s -> Forall usable (insert_if_used p s).
Proof.
  intros Hp Hs. unfold insert_if_used, marker_used.
  destruct p as [m|]; [|exact Hs].
  destruct (Marker_valid m) eqn:Hv; [|exact Hs].
  apply MarkerSet_insert_usable; [now split|exact Hs].
Qed.

Lemma getUsedMarkers_usable (m : Markerable) :
  pointer_wf (Markerable_start m) = true -> pointer_wf (Markerable_mid m) = true ->
  pointer_wf (Markerable_end m) = true ->
  Forall usable (Markerable_getUsedMarkers m).
Proof.
  intros H1 H2 H3. unfold Markerable_getUsedMarkers.
  repeat (apply insert_if_used_usable; [assumption|]). constructor.
Qed.

Lemma Document_compare_marker_Ok (layout : Layout) (node : Shape) (i : Marker)
    (all : MarkerSet) :
  Shape_wf node = true -> usable i -> Forall usable all ->
  exists log, Document_compare_marker layout node i all = Ok log.
Proof.
  intros Hn Hi. induction 1 as [|j rest Hj Hrest IH]; simpl; [eauto|].
  destruct (Marker_neq_Ok i j (proj1 Hi) (proj1 Hj)) as [r Hr].
  destruct IH as [later ->].
  destruct (Shape_toString_Ok layout node Hn) as [str Hstr].
  destruct (String.eqb (Marker_getId i) (Marker_getId j)); simpl.
  - rewrite Hr. simpl. destruct r; simpl; [rewrite Hstr; simpl|]; eauto.
  - eauto.
Qed.

Lemma Document_collect_node_Ok (layout : Layout) (node : Shape)
    (markers : list Marker) (all : MarkerSet) :
  Shape_wf node = true -> Forall usable markers -> Forall usable all ->
  exists all' log,
    Document_collect_node layout node markers all = Ok (all', log) /\
    Forall usable all'.
Proof.
  intros Hn Hm. revert all.
  induction Hm as [|i rest Hi Hrest IH]; intros all Hall; simpl; [eauto|].
  destruct (Document_compare_marker_Ok layout node i all Hn Hi Hall) as [here ->].
  destruct (IH (MarkerSet_insert i all)) as (all' & log & -> & Hall').
  { now apply MarkerSet_insert_usable. }
  simpl. eauto.
Qed.

Lemma Document_collect_markers_Ok (layout : Layout) (nodes : list Shape)
    (all : MarkerSet) :
  Forall (fun s => node_wf s = true) nodes -> Forall usable all ->
  exists all' log,
    Document_collect_markers layout nodes all = Ok (all', log) /\
    Forall usable all'.
Proof.
  intros Hn. revert all.
  induction Hn as [|node rest Hnode Hrest IH]; intros all Hall; simpl; [eauto|].
  unfold node_wf in Hnode. apply andb_true_iff in Hnode.
  destruct Hnode as [Hshape Hptr].
  assert (H1 : exists all1 log1,
    match Shape_as_Markerable node with
    | Some m => Document_collect_node layout node (Markerable_getUsedMarkers m) all
    | None => Ok (all, [])
    end = Ok (all1, log1) /\ Forall usable all1).
  { destruct (Shape_as_Markerable node) as [m|]; [|eauto].
    apply andb_true_iff in Hptr. destruct Hptr as [Hptr H3].
    apply andb_true_iff in Hptr. destruct Hptr as [H1 H2].
    apply Document_collect_node_Ok; auto using getUsedMarkers_usable. }
  destruct H1 as (all1 & log1 & -> & Hall1).
  destruct (IH all1 Hall1) as (all2 & log2 & H2 & Hall2).
  simpl. rewrite H2. simpl. eauto.
Qed.

Lemma Document_defs_Ok (layout : Layout) (all : MarkerSet) :
  Forall usable all -> exists s, Document_defs layout all = Ok s.
Proof.
  intros Hall. unfold Document_defs.
  destruct all as [|m rest]; [eauto|].
  destruct (concatM_Ok (Marker_toString layout) (m :: rest)) as [ms ->].
  - intros a Ha. rewrite Forall_forall in Hall. destruct (Hall a Ha) as [Hwf Hv].
    apply Marker_toString_Ok; [exact Hwf|].
    unfold Marker_valid in Hv. apply negb_true_iff, String.eqb_neq in Hv. exact Hv.
  - simpl. eauto.
Qed.

Lemma node_wf_Shape_wf (s : Shape) : node_wf s = true -> Shape_wf s = true.
Proof. unfold node_wf. intros H. now apply andb_true_iff in H. Qed.

(** A document whose nodes are well formed is serialized without an
    exception; the serializations of its nodes, in the order of
    [Document_sorted_nodes], stand side by side in the text. *)
Lemma Document_writeToStream_Ok (d : Document) :
  Forall (fun s => node_wf s = true) (Document_sorted_nodes d) ->
  exists w before body after,
    snd (Document_writeToStream d) = Ok w /\
    concatM (Shape_toString (Document_layout d)) (Document_sorted_nodes d) = Ok body /\
    Written_text w = before ++ body ++ after.
Proof.
  intros Hwf. unfold Document_writeToStream. cbn [snd].
  destruct (Document_collect_markers_Ok (Document_layout d)
              (Document_sorted_nodes d) [] Hwf (Forall_nil _))
    as (all & log & -> & Hall).
  destruct (Document_defs_Ok (Document_layout d) all Hall) as [defs Hdefs].
  destruct (concatM_Ok (Shape_toString (Document_layout d)) (Document_sorted_nodes d))
    as [body Hbody].
  { intros s Hs. apply Shape_toString_Ok, node_wf_Shape_wf.
    rewrite Forall_forall in Hwf. now apply Hwf. }
  cbn [bind fst snd]. rewrite Hdefs. cbn [bind]. rewrite Hbody. cbn [bind].
  eexists. exists (Document_preamble d ++ defs), body. eexists.
  split; [reflexivity|]. split; [reflexivity|].
  cbn [Written_text]. rewrite append_assoc. reflexivity.
Qed.

(** ** The order of the body nodes *)

Lemma Document_written_order_sorted_nodes (d : Document) :
  Document_written_order d = Document_sorted_nodes d.
Proof. reflexivity. Qed.

Lemma all_zero_sorted_nodes (d : Document) :
  (Document_needs_sorting d = false ->
   Forall (fun s => Shape_getZ s = 0%Z) (Document_body_nodes d)) ->
  Document_sorted_nodes d =
  stable_sort (fun a b => (Shape_getZ a <? Shape_getZ b)%Z) (Document_body_nodes d).
Proof.
  unfold Document_sorted_nodes. intros H.
  destruct (Document_needs_sorting d); [reflexivity|].
  symmetry. apply (stable_sort_sorted_id Shape_getZ).
  apply (constant_key_sorted Shape_getZ 0%Z). now apply H.
Qed.

(** The invariant of the documents of the interface: sorting the body
    nodes gives the stable sorting of the history, and while the flag is
    unset every node has z = 0. *)
Lemma built_invariant (h : list Shape) (d : Document) :
  built h d ->
  stable_sort (fun a b => (Shape_getZ a <? Shape_getZ b)%Z) (Document_body_nodes d) =
  stable_sort (fun a b => (Shape_getZ a <? Shape_getZ b)%Z) h /\
  (Document_needs_sorting d = false ->
   Forall (fun s => Shape_getZ s = 0%Z) (Document_body_nodes d)).
Proof.
  assert (Hwrite : forall d0 h0,
    stable_sort (fun a b => (Shape_getZ a <? Shape_getZ b)%Z) (Document_body_nodes d0) =
    stable_sort (fun a b => (Shape_getZ a <? Shape_getZ b)%Z) h0 /\
    (Document_needs_sorting d0 = false ->
     Forall (fun s => Shape_getZ s = 0%Z) (Document_body_nodes d0)) ->
    stable_sort (fun a b => (Shape_getZ a <? Shape_getZ b)%Z)
      (Document_body_nodes (fst (Document_writeToStream d0))) =
    stable_sort (fun a b => (Shape_getZ a <? Shape_getZ b)%Z) h0 /\
    (Document_needs_sorting (fst (Document_writeToStream d0)) = false ->
     Forall (fun s => Shape_getZ s = 0%Z)
       (Document_body_nodes (fst (Document_writeToStream d0))))).
  { intros d0 h0 [Hsort Hzero]. cbn [Document_writeToStream fst Document_body_nodes
      Document_needs_sorting].
    rewrite (all_zero_sorted_nodes d0 Hzero). split.
    - rewrite (stable_sort_idempotent Shape_getZ). exact Hsort.
    - intros Hn. rewrite (stable_sort_sorted_id Shape_getZ).
      + now apply Hzero.
      + apply (constant_key_sorted Shape_getZ 0%Z). now apply Hzero. }
  induction 1 as [l|h d new_id Hb IH|h d shape Hb IH|h d a Hb IH|h d Hb IH
                 |h d fs filename auto Hb IH].
  - split; [reflexivity|constructor].
  - exact IH.
  - destruct IH as [Hsort Hzero]. cbn [Document_addShape Document_body_nodes
      Document_needs_sorting]. split.
    + rewrite <- (stable_sort_app_sorted Shape_getZ (Document_body_nodes d)).
      rewrite Hsort. apply (stable_sort_app_sorted Shape_getZ).
    + intros Hn. apply orb_false_iff in Hn. destruct Hn as [Hn Hz].
      apply Forall_app. split; [now apply Hzero|].
      constructor; [|constructor].
      apply negb_false_iff, Z.eqb_eq in Hz. exact Hz.
  - exact IH.
  - rewrite Document_toString_unfold. cbn [fst]. now apply Hwrite.
  - unfold Document_save.
    set (name := if auto then _ else _).
    set (d1 := mkDocument _ name _ _ _ _).
    assert (H1 : stable_sort (fun a b => (Shape_getZ a <? Shape_getZ b)%Z)
                   (Document_body_nodes d1) =
                 stable_sort (fun a b => (Shape_getZ a <? Shape_getZ b)%Z) h /\
                 (Document_needs_sorting d1 = false ->
                  Forall (fun s => Shape_getZ s = 0%Z) (Document_body_nodes d1)))
      by exact IH.
    destruct (negb (fs_is_open fs name)); [exact H1|].
    specialize (Hwrite d1 h H1).
    destruct (Document_writeToStream d1) as [d2 w]. exact Hwrite.
Qed.

Lemma built_written_order (h : list Shape) (d : Document) :
  built h d ->
  Document_written_order d =
  stable_sort (fun a b => (Shape_getZ a <? Shape_getZ b)%Z) h.
Proof.
  intros Hb. destruct (built_invariant h d Hb) as [Hsort Hzero].
  rewrite Document_written_order_sorted_nodes, (all_zero_sorted_nodes d Hzero).
  exact Hsort.
Qed.

Lemma built_fold_left (l h : list Shape) (d : Document) :
  built h d -> built (h ++ l) (fold_left Document_addShape l d).
Proof.
  revert h d. induction l as [|s l IH]; intros h d Hb; simpl.
  - now rewrite app_nil_r.
  - replace (h ++ s :: l)%list with ((h ++ [s]) ++ l)%list
      by (now rewrite <- app_assoc).
    apply IH. now apply built_addShape.
Qed.

Lemma z_order_example_built : built z_order_history z_order_example.
Proof. apply (built_fold_left z_order_history [] _ (built_new Layout_default)). Qed.

Lemma String_concat_cons (a : string) (l : list string) :
  String.concat "" (a :: l) = a ++ String.concat "" l.
Proof. destruct l; cbn [String.concat]; [now rewrite append_nil_r|reflexivity]. Qed.

Lemma concatM_texts {A : Type} (f : A -> result string) (l : list A) (body : string) :
  concatM f l = Ok body ->
  exists texts, Forall2 (fun a text => f a = Ok text) l texts /\
                body = String.concat "" texts.
Proof.
  revert body. induction l as [|a l IH]; intros body H; cbn [concatM] in H.
  - injection H as <-. exists []. split; [constructor|reflexivity].
  - destruct (f a) as [text|e] eqn:Ea; [|discriminate]. cbn [bind] in H.
    destruct (concatM f l) as [tail|e]; [|discriminate]. cbn [bind] in H.
    injection H as <-. destruct (IH tail eq_refl) as (texts & Hall & ->).
    exists (text :: texts). split; [now constructor|].
    now rewrite String_concat_cons.
Qed.

Lemma concat_map_texts {A : Type} (f : A -> string) (l : list A) :
  concat_map f l = String.concat "" (map f l).
Proof.
  induction l as [|a l IH]; [reflexivity|].
  cbn [concat_map map]. now rewrite String_concat_cons, IH.
Qed.

(** C2: the body nodes are written in the stable ascending order of z of
    the shapes appended: a rearrangement of them, ascending in z, equal-z
    shapes in the order of their insertion, and exactly the insertion order
    when every z is 0; the text is the preamble, the definitions of the
    markers, the serializations of the nodes one after the other in that
    order, those of the animations, and the closing tag.  Shapes appended
    with z = 2, 0, 1, 0, -1 are written in the order -1, first 0, second 0,
    1, 2: their ids stand in this order in the text. *)
Theorem serialization_order (h : list Shape) (d : Document) :
  built h d ->
  Forall (fun s => node_wf s = true) h ->
  let written := Document_written_order d in
  Permutation h written /\
  StronglySorted (fun a b => (Shape_getZ a <= Shape_getZ b)%Z) written /\
  (forall k, filter (fun s => (Shape_getZ s =? k)%Z) written =
             filter (fun s => (Shape_getZ s =? k)%Z) h) /\
  (Forall (fun s => Shape_getZ s = 0%Z) h -> written = h) /\
  (exists all log defs texts,
      Document_collect_markers (Document_layout d) written [] = Ok (all, log) /\
      Document_defs (Document_layout d) all = Ok defs /\
      Forall2 (fun s text => Shape_toString (Document_layout d) s = Ok text)
        written texts /\
      snd (Document_toString d) =
      Ok (Document_preamble d ++ defs ++ String.concat "" texts ++
          String.concat ""
            (map (Animation_toString (Document_layout d)) (Document_animation_nodes d)) ++
          elemEnd "svg")) /\
  map (fun s => Shape_id (Shape_base s)) (Document_written_order z_order_example)
  = ["e"; "b"; "d"; "c"; "a"] /\
  (exists text e b d' c a,
      snd (Document_toString z_order_example) = Ok text /\
      String.index 0 ("id=" ++ dq ++ "e" ++ dq) text = Some e /\
      String.index 0 ("id=" ++ dq ++ "b" ++ dq) text = Some b /\
      String.index 0 ("id=" ++ dq ++ "d" ++ dq) text = Some d' /\
      String.index 0 ("id=" ++ dq ++ "c" ++ dq) text = Some c /\
      String.index 0 ("id=" ++ dq ++ "a" ++ dq) text = Some a /\
      (e < b)%nat /\ (b < d')%nat /\ (d' < c)%nat /\ (c < a)%nat).
Proof.
  intros Hb Hwf written.
  assert (Hw : written = stable_sort (fun a b => (Shape_getZ a <? Shape_getZ b)%Z) h)
    by (now apply built_written_order).
  assert (Hperm : Permutation h written)
    by (rewrite Hw; apply (stable_sort_perm Shape_getZ)).
  split; [exact Hperm|].
  split; [rewrite Hw; apply (stable_sort_sorted Shape_getZ)|].
  split; [intros k; rewrite Hw; apply (stable_sort_filter Shape_getZ)|].
  split.
  { intros Hz. rewrite Hw. apply (stable_sort_sorted_id Shape_getZ).
    now apply (constant_key_sorted Shape_getZ 0%Z). }
  split; [|split].
  - assert (Hnodes : Forall (fun s => node_wf s = true) (Document_sorted_nodes d)).
    { rewrite <- Document_written_order_sorted_nodes.
      rewrite Forall_forall in *. intros s Hs. apply Hwf.
      eapply Permutation_in; [apply Permutation_sym, Hperm|exact Hs]. }
    unfold written. rewrite Document_written_order_sorted_nodes.
    rewrite Document_toString_unfold. unfold Document_writeToStream. cbn [snd].
    destruct (Document_collect_markers_Ok (Document_layout d)
                (Document_sorted_nodes d) [] Hnodes (Forall_nil _))
      as (all & log & Hall & Husable).
    destruct (Document_defs_Ok (Document_layout d) all Husable) as [defs Hdefs].
    destruct (concatM_Ok (Shape_toString (Document_layout d)) (Document_sorted_nodes d))
      as [body Hbody].
    { intros s Hs. apply Shape_toString_Ok, node_wf_Shape_wf.
      rewrite Forall_forall in Hnodes. now apply Hnodes. }
    destruct (concatM_texts _ _ _ Hbody) as (texts & Htexts & Hcat).
    exists all, log, defs, texts.
    split; [exact Hall|]. split; [exact Hdefs|]. split; [exact Htexts|].
    rewrite Hall. cbn [bind fst snd]. rewrite Hdefs. cbn [bind]. rewrite Hbody.
    cbn [bind Written_text]. now rewrite Hcat, concat_map_texts.
  - reflexivity.
  - eexists. do 5 eexists.
    split; [vm_compute; reflexivity|].
    split; [vm_compute; reflexivity|]. split; [vm_compute; reflexivity|].
    split; [vm_compute; reflexivity|]. split; [vm_compute; reflexivity|].
    split; [vm_compute; reflexivity|]. repeat split; vm_compute; lia.
Qed.

Lemma serialization_order_witness :
  Permutation z_order_history (Document_written_order z_order_example).
Proof.
  apply (serialization_order z_order_history z_order_example z_order_example_built).
  repeat constructor.
Defined.

(** ** The order of floating-point numbers and running extremes *)

Lemma SFltb_irrefl (x : spec_float) : SFltb x x = false.
Proof.
  unfold SFltb, SFcompare. destruct x as [s|s| |s m e]; try destruct s; try reflexivity;
    change (PosDef.Pos.compare_cont Eq) with Pos.compare;
    now rewrite Z.compare_refl, Pos.compare_refl.
Qed.

Lemma SFltb_below (p q m : spec_float) :
  SFltb q m = true -> SFltb p m = false -> SFltb p q = false.
Proof.
  unfold SFltb, SFcompare.
  destruct p as [sp|sp| |sp mp ep], q as [sq|sq| |sq mq eq], m as [sm|sm| |sm mm em];
    try destruct sp; try destruct sq; try destruct sm;
    try discriminate; try reflexivity;
    change (PosDef.Pos.compare_cont Eq) with Pos.compare;
    repeat match goal with
    | |- context [(?a ?= ?b)%Z] => destruct (Z.compare_spec a b)
    | |- context [(?a ?= ?b)%positive] => destruct (Pos.compare_spec a b)
    end; simpl; try discriminate; try reflexivity; intros; try lia; subst; try lia.
Qed.

Lemma SFltb_above (p q m : spec_float) :
  SFltb m q = true -> SFltb m p = false -> SFltb q p = false.
Proof.
  unfold SFltb, SFcompare.
  destruct p as [sp|sp| |sp mp ep], q as [sq|sq| |sq mq eq], m as [sm|sm| |sm mm em];
    try destruct sp; try destruct sq; try destruct sm;
    try discriminate; try reflexivity;
    change (PosDef.Pos.compare_cont Eq) with Pos.compare;
    repeat match goal with
    | |- context [(?a ?= ?b)%Z] => destruct (Z.compare_spec a b)
    | |- context [(?a ?= ?b)%positive] => destruct (Pos.compare_spec a b)
    end; simpl; try discriminate; try reflexivity; intros; try lia; subst; try lia.
Qed.

(** A running extreme: the value kept is replaced by each value that
    [closer] puts before it. *)
Section RunningExtreme.

Variable closer : float -> float -> bool.
Hypothesis closer_irrefl : forall v, closer v v = false.
Hypothesis closer_below : forall p q m,
  closer q m = true -> closer p m = false -> closer p q = false.

Lemma running_extreme_bound (seen vs : list float) (m0 : float) :
  (forall s, In s seen -> closer s m0 = false) ->
  forall s, In s (seen ++ vs) ->
    closer s (fold_left (fun m v => if closer v m then v else m) vs m0) = false.
Proof.
  revert seen m0. induction vs as [|v vs IH]; intros seen m0 Hseen s Hs.
  - rewrite app_nil_r in Hs. now apply Hseen.
  - cbn [fold_left].
    apply (IH (seen ++ [v])%list (if closer v m0 then v else m0)).
    + intros t Ht. apply in_app_or in Ht. cbv beta.
      destruct (closer v m0) eqn:E.
      * destruct Ht as [Ht|[<-|[]]]; [|apply closer_irrefl].
        apply (closer_below t v m0 E). now apply Hseen.
      * destruct Ht as [Ht|[<-|[]]]; [now apply Hseen|exact E].
    + now rewrite <- app_assoc.
Qed.

Lemma running_extreme_member (vs : list float) (m0 : float) :
  fold_left (fun m v => if closer v m then v else m) vs m0 = m0 \/
  In (fold_left (fun m v => if closer v m then v else m) vs m0) vs.
Proof.
  revert m0. induction vs as [|v vs IH]; intros m0; [now left|].
  cbn [fold_left]. destruct (IH (if closer v m0 then v else m0)) as [H|H].
  - rewrite H. cbv beta. destruct (closer v m0); [right; now left|now left].
  - right. now right.
Qed.

End RunningExtreme.

Lemma getMinPoint_loop_x (points : list Point) (min : Point) :
  Point_x (getMinPoint_loop points min) =
  fold_left (fun m v => if v <? m then v else m) (map Point_x points) (Point_x min).
Proof.
  revert min. induction points as [|p rest IH]; intros min; [reflexivity|].
  cbn [getMinPoint_loop map fold_left]. rewrite IH. f_equal.
  destruct (Point_x p <? Point_x min);
    destruct (Point_y p <? _); reflexivity.
Qed.

Lemma getMinPoint_loop_y (points : list Point) (min : Point) :
  Point_y (getMinPoint_loop points min) =
  fold_left (fun m v => if v <? m then v else m) (map Point_y points) (Point_y min).
Proof.
  revert min. induction points as [|p rest IH]; intros min; [reflexivity|].
  cbn [getMinPoint_loop map fold_left]. rewrite IH. f_equal.
  destruct (Point_x p <? Point_x min); cbn [Point_set_x Point_y];
    destruct (Point_y p <? Point_y min); reflexivity.
Qed.

Lemma getMaxPoint_loop_x (points : list Point) (max : Point) :
  Point_x (getMaxPoint_loop points max) =
  fold_left (fun m v => if m <? v then v else m) (map Point_x points) (Point_x max).
Proof.
  revert max. induction points as [|p rest IH]; intros max; [reflexivity|].
  cbn [getMaxPoint_loop map fold_left]. rewrite IH. f_equal.
  destruct (Point_x max <? Point_x p);
    destruct (_ <? Point_y p); reflexivity.
Qed.

Lemma getMaxPoint_loop_y (points : list Point) (max : Point) :
  Point_y (getMaxPoint_loop points max) =
  fold_left (fun m v => if m <? v then v else m) (map Point_y points) (Point_y max).
Proof.
  revert max. induction points as [|p rest IH]; intros max; [reflexivity|].
  cbn [getMaxPoint_loop map fold_left]. rewrite IH. f_equal.
  destruct (Point_x max <? Point_x p); cbn [Point_set_x Point_y];
    destruct (Point_y max <? Point_y p); reflexivity.
Qed.

Lemma ltb_irrefl (v : float) : (v <? v) = false.
Proof. rewrite ltb_spec. apply SFltb_irrefl. Qed.

Lemma ltb_below (p q m : float) :
  (q <? m) = true -> (p <? m) = false -> (p <? q) = false.
Proof. rewrite !ltb_spec. apply SFltb_below. Qed.

Lemma ltb_above (p q m : float) :
  (m <? q) = true -> (m <? p) = false -> (q <? p) = false.
Proof. rewrite !ltb_spec. apply SFltb_above. Qed.

(** ** LineChart *)





(** The extreme of the extremes of several lists is an extreme of all
    their values, when none of them is a NaN. *)
Section NestedExtreme.

Variable closer : float -> float -> bool.
Hypothesis closer_irrefl : forall v, closer v v = false.
Hypothesis closer_below : forall p q m,
  closer q m = true -> closer p m = false -> closer p q = false.
Hypothesis closer_through : forall a b c,
  closer a b = false -> closer b c = false -> is_nan b = false -> closer a c = false.




End NestedExtreme.













(** ** Offsets *)

Lemma points_toString_as_at (l : Layout) (points : list Point) :
  points_toString l points =
  points_toString_at (fun x => translateX x l) (fun y => translateY y l) points.
Proof. induction points as [|p r IH]; simpl; [reflexivity|now rewrite IH]. Qed.

Lemma points_toString_offset (l : Layout) (points : list Point) (offset : Point) :
  points_toString l (map (fun q => Point_offset q offset) points) =
  points_toString_at (fun x => translateX (x + Point_x offset) l)
                     (fun y => translateY (y + Point_y offset) l) points.
Proof. induction points as [|p r IH]; simpl; [reflexivity|now rewrite IH]. Qed.

Lemma subpaths_toString_as_at (l : Layout) (paths : list (list Point)) :
  subpaths_toString l paths =
  subpaths_toString_at (fun x => translateX x l) (fun y => translateY y l) paths.
Proof.
  induction paths as [|sub r IH]; simpl; [reflexivity|].
  destruct sub as [|p sub]; [exact IH|].
  now rewrite IH, (points_toString_as_at l (p :: sub)).
Qed.

Lemma subpaths_toString_offset (l : Layout) (paths : list (list Point))
    (offset : Point) :
  subpaths_toString l (map (map (fun q => Point_offset q offset)) paths) =
  subpaths_toString_at (fun x => translateX (x + Point_x offset) l)
                       (fun y => translateY (y + Point_y offset) l) paths.
Proof.
  induction paths as [|sub r IH]; simpl; [reflexivity|].
  destruct sub as [|p sub]; [exact IH|].
  rewrite IH. change (Point_offset p offset :: map (fun q => Point_offset q offset) sub)
    with (map (fun q => Point_offset q offset) (p :: sub)).
  now rewrite points_toString_offset.
Qed.

(** C7 (as the code has it): for every shape but a chart, offsetting by
    (dx, dy) and serializing gives the serialization of the shape in which
    each coordinate pair (x, y) is written as the translation of
    (x + dx, y + dy), and nothing else of the output changes. *)
Theorem offset_then_serialize (s : Shape) (l : Layout) (offset : Point) :
  Shape_is_chart s = false ->
  Shape_toString l (Shape_offset s offset) =
  Shape_toString_at (fun x => translateX (x + Point_x offset) l)
                    (fun y => translateY (y + Point_y offset) l) l s /\
  Shape_toString l s =
  Shape_toString_at (fun x => translateX x l) (fun y => translateY y l) l s.
Proof.
  intros Hs. destruct s as [c|e|r|ln|p|p|p|t|c]; try discriminate;
    split; try reflexivity; cbn [Shape_toString Shape_offset Shape_toString_at]; f_equal.
  - unfold Polygon_toString, Polygon_toString_at, Polygon_offset. cbn [Polygon_points
      Polygon_surface]. now rewrite points_toString_offset.
  - unfold Polygon_toString, Polygon_toString_at. now rewrite points_toString_as_at.
  - unfold Path_toString, Path_toString_at, Path_offset. cbn [Path_paths Path_surface].
    now rewrite subpaths_toString_offset.
  - unfold Path_toString, Path_toString_at. now rewrite subpaths_toString_as_at.
  - unfold Polyline_toString, Polyline_toString_at, Polyline_offset.
    cbn [Polyline_points Polyline_base Polyline_markers].
    now rewrite points_toString_offset.
  - unfold Polyline_toString, Polyline_toString_at. now rewrite points_toString_as_at.
Qed.

Lemma offset_then_serialize_witness :
  Shape_toString Layout_default (Shape_offset (Shape_Circle unit_circle) (mkPoint 0 10)) =
  Shape_toString_at (fun x => translateX (x + 0) Layout_default)
                    (fun y => translateY (y + 10) Layout_default)
                    Layout_default (Shape_Circle unit_circle).
Proof.
  apply (proj1 (offset_then_serialize (Shape_Circle unit_circle) Layout_default
                  (mkPoint 0 10) eq_refl)).
Defined.

(** C7 (as stated) fails: under the default layout, whose origin is
    BottomLeft, a circle offset by (0, 10) is written 10 lower in y (290
    for 300), while moving the written coordinates by the scaled delta
    gives 310; and under a TopLeft layout a chart offset by (5, 0) keeps
    its axis where it was. *)
Lemma offset_not_scaled_delta :
  Shape_toString Layout_default (Shape_offset (Shape_Circle unit_circle) (mkPoint 0 10)) <>
  Shape_toString_at
    (fun x => translateX x Layout_default + 0 * Layout_scale Layout_default)
    (fun y => translateY y Layout_default + 10 * Layout_scale Layout_default)
    Layout_default (Shape_Circle unit_circle) /\
  Shape_toString top_left_layout (Shape_offset default_chart_shape (mkPoint 5 0)) <>
  Shape_toString_at
    (fun x => translateX x top_left_layout + 5 * Layout_scale top_left_layout)
    (fun y => translateY y top_left_layout + 0 * Layout_scale top_left_layout)
    top_left_layout default_chart_shape /\
  LineChart_axis (LineChart_offset chart_example (mkPoint 5 0)) =
  LineChart_axis chart_example.
Proof.
  split; [vm_compute; discriminate|].
  split; [vm_compute; discriminate|reflexivity].
Qed.

(** ** Occurrences of attribute names *)

Lemma all_chars_app (f : ascii -> bool) (a b : string) :
  all_chars f (a ++ b) = all_chars f a && all_chars f b.
Proof.
  induction a as [|c a IH]; simpl; [reflexivity|].
  now rewrite IH, andb_assoc.
Qed.

Lemma is_prefix_all_chars (f : ascii -> bool) (p s : string) :
  is_prefix p s = true -> all_chars f s = true -> all_chars f p = true.
Proof.
  revert s. induction p as [|c p IH]; intros s Hp Hs; [reflexivity|].
  destruct s as [|x s]; [discriminate|]. simpl in *.
  apply andb_true_iff in Hp. destruct Hp as [Hc Hp].
  apply andb_true_iff in Hs. destruct Hs as [Hx Hs].
  apply Ascii.eqb_eq in Hc. subst x. rewrite Hx. simpl. eauto.
Qed.

Lemma contains_all_chars (f : ascii -> bool) (p s : string) :
  contains p s = true -> all_chars f s = true -> all_chars f p = true.
Proof.
  induction s as [|x s IH]; intros Hp Hs.
  - simpl in Hp. rewrite orb_false_r in Hp. destruct p; [reflexivity|discriminate].
  - cbn [contains] in Hp. apply orb_true_iff in Hp. destruct Hp as [Hp|Hp].
    + eapply is_prefix_all_chars; eauto.
    + simpl in Hs. apply andb_true_iff in Hs. now apply IH.
Qed.

Lemma is_prefix_sep (p a b : string) (c : ascii) :
  all_chars name_char p = true -> name_char c = false ->
  is_prefix p (a ++ String c b) = is_prefix p a.
Proof.
  revert a. induction p as [|x p IH]; intros a Hp Hc; [reflexivity|].
  simpl in Hp. apply andb_true_iff in Hp. destruct Hp as [Hx Hp].
  destruct a as [|y a]; simpl.
  - destruct (Ascii.eqb_spec x c) as [->|_]; [congruence|reflexivity].
  - now rewrite IH.
Qed.

Lemma contains_sep (p a b : string) (c : ascii) :
  all_chars name_char p = true -> p <> "" -> name_char c = false ->
  contains p (a ++ String c b) = contains p a || contains p b.
Proof.
  intros Hp Hne Hc. induction a as [|y a IH].
  - assert (H := is_prefix_sep p "" b c Hp Hc).
    cbn [append] in *. cbn [contains]. rewrite H.
    destruct p; [contradiction|reflexivity].
  - change (String y a ++ String c b) with (String y (a ++ String c b)).
    assert (H := is_prefix_sep p (String y a) b c Hp Hc). cbn [append] in H.
    cbn [contains]. rewrite IH, H. now rewrite orb_assoc.
Qed.

Lemma existsb_orb {A : Type} (f g : A -> bool) (l : list A) :
  existsb (fun a => f a || g a) l = existsb f l || existsb g l.
Proof.
  induction l as [|a l IH]; simpl; [reflexivity|].
  rewrite IH. destruct (f a), (g a), (existsb f l); reflexivity.
Qed.

Lemma stroke_attribute_names_chars (name : string) :
  In name stroke_attribute_names ->
  all_chars name_char (name ++ "=") = true /\ name ++ "=" <> "" /\
  no_equals (name ++ "=") = false.
Proof.
  unfold stroke_attribute_names. simpl.
  intros H. repeat (destruct H as [<-|H]; [repeat split; discriminate|]).
  contradiction.
Qed.

Lemma existsb_ext_in {A : Type} (f g : A -> bool) (l : list A) :
  (forall a, In a l -> f a = g a) -> existsb f l = existsb g l.
Proof.
  induction l as [|a l IH]; intros H; simpl; [reflexivity|].
  rewrite (H a (or_introl eq_refl)), IH; [reflexivity|].
  intros x Hx. apply H. now right.
Qed.

Lemma clean_sep (a b : string) (c : ascii) :
  name_char c = false -> clean (a ++ String c b) = clean a && clean b.
Proof.
  intros Hc. unfold clean, has_stroke_attribute.
  rewrite <- negb_orb, <- existsb_orb. f_equal.
  apply existsb_ext_in. intros name Hin.
  destruct (stroke_attribute_names_chars name Hin) as (Hp & Hne & _).
  now apply contains_sep.
Qed.

Lemma no_equals_clean (s : string) : no_equals s = true -> clean s = true.
Proof.
  intros Hs. unfold clean. apply negb_true_iff.
  destruct (has_stroke_attribute s) eqn:E; [|reflexivity].
  unfold has_stroke_attribute in E. apply existsb_exists in E.
  destruct E as (name & Hin & Hc).
  destruct (stroke_attribute_names_chars name Hin) as (_ & _ & Hno).
  unfold no_equals in *.
  rewrite (contains_all_chars _ _ _ Hc Hs) in Hno. discriminate.
Qed.

Lemma ends_sep_snoc (a : string) (c : ascii) :
  ends_sep (a ++ String c "") = negb (name_char c).
Proof.
  induction a as [|x a IH]; [reflexivity|].
  change (String x a ++ String c "") with (String x (a ++ String c "")).
  cbn [ends_sep]. destruct (a ++ String c "") eqn:E; [|exact IH].
  destruct a; discriminate.
Qed.

Lemma ends_sep_split (s : string) :
  ends_sep s = true ->
  s = "" \/ exists a c, s = a ++ String c "" /\ name_char c = false.
Proof.
  induction s as [|x s IH]; intros H; [now left|]. right.
  cbn [ends_sep] in H. destruct s as [|y s].
  - exists "", x. split; [reflexivity|]. now apply negb_true_iff.
  - destruct (IH H) as [Hs|(a & c & Hs & Hc)]; [discriminate|].
    exists (String x a), c. split; [|exact Hc]. simpl. now rewrite Hs.
Qed.

Lemma ends_sep_app (a b : string) :
  ends_sep a = true -> ends_sep b = true -> ends_sep (a ++ b) = true.
Proof.
  intros Ha Hb. destruct (ends_sep_split b Hb) as [->|(b0 & c & -> & Hc)].
  - now rewrite append_nil_r.
  - rewrite <- append_assoc, ends_sep_snoc, Hc. reflexivity.
Qed.

Lemma ends_sep_app_r (a b : string) : b <> "" -> ends_sep (a ++ b) = ends_sep b.
Proof.
  intros Hb. induction a as [|x a IH]; [reflexivity|].
  change (String x a ++ b) with (String x (a ++ b)). cbn [ends_sep].
  destruct (a ++ b) eqn:E; [|exact IH].
  destruct a; [contradiction|discriminate].
Qed.

Lemma clean_empty : clean "" = true.
Proof. reflexivity. Qed.

Lemma clean_app_end (a b : string) :
  ends_sep a = true -> clean (a ++ b) = clean a && clean b.
Proof.
  intros Ha. destruct (ends_sep_split a Ha) as [->|(a0 & c & -> & Hc)].
  - reflexivity.
  - rewrite append_assoc. cbn [append].
    rewrite !clean_sep by exact Hc. now rewrite clean_empty, andb_true_r.
Qed.

Lemma good_app (a b : string) :
  good a = true -> good b = true -> good (a ++ b) = true.
Proof.
  unfold good. intros Ha Hb.
  apply andb_true_iff in Ha. destruct Ha as [Ca Ea].
  apply andb_true_iff in Hb. destruct Hb as [Cb Eb].
  now rewrite clean_app_end, Ca, Cb, ends_sep_app.
Qed.

Lemma good_empty : good "" = true.
Proof. reflexivity. Qed.

Lemma attribute_good (name value : string) :
  clean (name ++ "=") = true -> clean value = true ->
  good (attribute name value "") = true.
Proof.
  intros Hn Hv.
  assert (E : attribute name value "" =
              (name ++ "=") ++ String "034"%char (value ++ String "034"%char " ")).
  { unfold attribute, dq. rewrite append_assoc. reflexivity. }
  rewrite E. unfold good. apply andb_true_iff. split.
  - rewrite (clean_sep (name ++ "=") _ "034"%char eq_refl).
    rewrite (clean_sep value " " "034"%char eq_refl).
    now rewrite Hn, Hv.
  - rewrite ends_sep_app_r by discriminate.
    change (String "034"%char (value ++ String "034"%char " "))
      with (String "034"%char "" ++ (value ++ String "034"%char " ")).
    rewrite ends_sep_app_r by (destruct value; discriminate).
    now rewrite ends_sep_app_r by discriminate.
Qed.

(** ** Formatted numbers hold no equals sign *)

Lemma no_equals_app (a b : string) :
  no_equals (a ++ b) = no_equals a && no_equals b.
Proof. apply all_chars_app. Qed.

Lemma digit_no_equals (n : Z) : negb (Ascii.eqb (Stream.digit n) "="%char) = true.
Proof.
  assert (H : (0 <= n mod 10 < 10)%Z) by (apply Z.mod_pos_bound; lia).
  unfold Stream.digit. remember (Z.to_nat (n mod 10)) as k eqn:Ek.
  assert (Hk : (k < 10)%nat) by lia. clear Ek H.
  do 10 (destruct k as [|k]; [reflexivity|]). lia.
Qed.

Lemma digits_from_no_equals (fuel : nat) (n : Z) (acc : string) :
  no_equals acc = true -> no_equals (Stream.digits_from fuel n acc) = true.
Proof.
  revert n acc. induction fuel as [|fuel IH]; intros n acc Hacc;
    cbn [Stream.digits_from]; [exact Hacc|].
  assert (H : no_equals (String (Stream.digit n) acc) = true).
  { unfold no_equals in *. cbn [all_chars]. now rewrite digit_no_equals, Hacc. }
  destruct (n / 10 =? 0)%Z; [exact H|now apply IH].
Qed.

Lemma digits_no_equals (n : Z) : no_equals (Stream.digits n) = true.
Proof. now apply digits_from_no_equals. Qed.

Lemma show_int_no_equals (n : Z) : no_equals (Stream.show_int n) = true.
Proof.
  unfold Stream.show_int. destruct (n <? 0)%Z; [|apply digits_no_equals].
  rewrite no_equals_app, digits_no_equals. reflexivity.
Qed.

Lemma substring_all_chars (f : ascii -> bool) (n m : nat) (s : string) :
  all_chars f s = true -> all_chars f (substring n m s) = true.
Proof.
  revert n m. induction s as [|c s IH]; intros n m H.
  - destruct n, m; reflexivity.
  - simpl in H. apply andb_true_iff in H. destruct H as [Hc Hs].
    destruct n as [|n]; [destruct m as [|m]|]; simpl; [reflexivity| |now apply IH].
    now rewrite Hc, IH.
Qed.

Lemma strip_zeros_all_chars (f : ascii -> bool) (s : string) :
  all_chars f s = true -> all_chars f (Stream.strip_zeros s) = true.
Proof.
  induction s as [|c s IH]; intros H; [reflexivity|].
  simpl in H. apply andb_true_iff in H. destruct H as [Hc Hs].
  simpl. destruct (Ascii.eqb c "0" && String.eqb (Stream.strip_zeros s) "");
    [reflexivity|]. simpl. now rewrite Hc, IH.
Qed.

Lemma zeros_no_equals (n : nat) : no_equals (Stream.zeros n) = true.
Proof. induction n as [|n IH]; [reflexivity|exact IH]. Qed.

Lemma fraction_no_equals (s : string) :
  no_equals s = true -> no_equals (Stream.fraction s) = true.
Proof.
  intros H. unfold Stream.fraction.
  destruct (String.eqb (Stream.strip_zeros s) ""); [reflexivity|].
  rewrite no_equals_app. simpl. now apply strip_zeros_all_chars.
Qed.

Lemma show_exponent_no_equals (X : Z) : no_equals (Stream.show_exponent X) = true.
Proof.
  unfold Stream.show_exponent. rewrite !no_equals_app, digits_no_equals.
  destruct (X <? 0)%Z, (Z.abs X <? 10)%Z; reflexivity.
Qed.

Lemma show_finite_no_equals (m e : Z) : no_equals (Stream.show_finite m e) = true.
Proof.
  unfold Stream.show_finite.
  destruct (Stream.six_digits _ _) as [D X].
  assert (Hd := digits_no_equals D).
  destruct ((-4 <=? X)%Z && (X <? 6)%Z); [destruct (0 <=? X)%Z|];
    rewrite ?no_equals_app.
  - rewrite fraction_no_equals by (now apply substring_all_chars).
    unfold no_equals. now rewrite substring_all_chars.
  - rewrite zeros_no_equals. unfold no_equals. now rewrite strip_zeros_all_chars.
  - rewrite fraction_no_equals by (now apply substring_all_chars).
    rewrite show_exponent_no_equals.
    unfold no_equals. now rewrite substring_all_chars.
Qed.

Lemma show_double_no_equals (x : float) : no_equals (show x) = true.
Proof.
  unfold show, Stream.show_double.
  destruct (Prim2SF x) as [s|s| |s m e]; try (destruct s; reflexivity); [reflexivity|].
  rewrite no_equals_app, show_finite_no_equals. now destruct s.
Qed.

Lemma show_clean (x : float) : clean (show x) = true.
Proof. apply no_equals_clean, show_double_no_equals. Qed.

(** ** Shapes whose strokes have a negative width *)

Lemma Stroke_toString_negative (l : Layout) (st : Stroke) :
  (Stroke_width st <? 0) = true -> Stroke_toString l st = "".
Proof. unfold Stroke_toString. now intros ->. Qed.

Lemma clean_of_has (t : string) : has_stroke_attribute t = false -> clean t = true.
Proof. unfold clean. now intros ->. Qed.

Lemma good_clean (s : string) : good s = true -> has_stroke_attribute s = false.
Proof.
  unfold good, clean. intros H. apply andb_true_iff in H.
  destruct H as [H _]. now apply negb_true_iff.
Qed.

Lemma no_equals_good (s : string) :
  no_equals s = true -> ends_sep s = true -> good s = true.
Proof. intros H E. unfold good. now rewrite no_equals_clean, E. Qed.

Lemma serializeId_good (id : string) : clean id = true -> good (serializeId id) = true.
Proof.
  intros H. unfold serializeId. destruct (String.eqb id ""); [reflexivity|].
  now apply attribute_good.
Qed.

Lemma Color_toString_clean (l : Layout) (c : Color) : clean (Color_toString l c) = true.
Proof.
  apply no_equals_clean. unfold Color_toString.
  destruct (Color_transparent c); [reflexivity|].
  rewrite !no_equals_app, !show_int_no_equals. reflexivity.
Qed.

Ltac good_tac :=
  repeat match goal with
  | |- good (_ ++ _) = true => apply good_app
  | |- good (attribute _ _ "") = true => apply attribute_good; [reflexivity|]
  | |- good (serializeId _) = true => apply serializeId_good
  | |- good (if ?c then _ else _) = true => destruct c
  | |- clean (show _) = true => apply show_clean
  | |- clean (Stream.show_double _) = true => apply show_clean
  | |- clean (Color_toString _ _) = true => apply Color_toString_clean
  | |- good _ = true => reflexivity
  | |- clean _ = true => first [assumption | reflexivity]
  end.

Lemma Fill_toString_good (l : Layout) (f : Fill) : good (Fill_toString l f) = true.
Proof. unfold Fill_toString. good_tac. Qed.

Lemma ShapeBase_toString_good (l : Layout) (b : ShapeBase) :
  (Stroke_width (Shape_stroke b) <? 0) = true -> clean (Shape_style b) = true ->
  good (ShapeBase_toString l b) = true.
Proof.
  intros Hw Hs. unfold ShapeBase_toString.
  rewrite (Stroke_toString_negative l _ Hw). good_tac.
Qed.

Lemma SurfaceShape_toString_good (l : Layout) (s : SurfaceShape) :
  (Stroke_width (Shape_stroke (SurfaceShape_shape s)) <? 0) = true ->
  clean (Shape_style (SurfaceShape_shape s)) = true ->
  good (SurfaceShape_toString l s) = true.
Proof.
  intros Hw Hs. unfold SurfaceShape_toString.
  apply good_app; [now apply ShapeBase_toString_good|apply Fill_toString_good].
Qed.

Lemma points_toString_no_equals (l : Layout) (points : list Point) :
  no_equals (points_toString l points) = true.
Proof.
  induction points as [|p r IH]; [reflexivity|].
  cbn [points_toString]. unfold point_toString.
  rewrite !no_equals_app, !show_double_no_equals, IH. reflexivity.
Qed.

Lemma subpaths_toString_no_equals (l : Layout) (paths : list (list Point)) :
  no_equals (subpaths_toString l paths) = true.
Proof.
  induction paths as [|sub r IH]; [reflexivity|].
  cbn [subpaths_toString]. destruct sub as [|p sub]; [exact IH|].
  rewrite !no_equals_app, points_toString_no_equals, IH. reflexivity.
Qed.

(** A name, a quoted value and a blank, written piece by piece, are an
    attribute. *)
Lemma quoted_as_attribute (literal name value rest : string) :
  literal = name ++ "=" ->
  literal ++ dq ++ value ++ dq ++ " " ++ rest = attribute name value "" ++ rest.
Proof.
  intros ->. unfold attribute, dq. cbn [append].
  rewrite !append_assoc. cbn [append]. rewrite !append_assoc. reflexivity.
Qed.

Lemma marker_reference_good (name : string) (p : option Marker) :
  clean (name ++ "=") = true -> clean (pointer_id p) = true ->
  good (marker_reference name p) = true.
Proof.
  intros Hn Hp. unfold marker_reference, marker_used.
  destruct p as [m|]; [|reflexivity].
  destruct (Marker_valid m); [|reflexivity].
  assert (E : name ++ "=" ++ dq ++ "url(#" ++ Marker_getId m ++ ")" ++ dq ++ " " =
              attribute name ("url(#" ++ Marker_getId m ++ ")") "").
  { unfold attribute, dq. cbn [append]. rewrite ?append_assoc. reflexivity. }
  rewrite E. apply attribute_good; [exact Hn|].
  change ("url(#" ++ Marker_getId m ++ ")")
    with ("url(" ++ String "#"%char (Marker_getId m ++ String ")"%char "")).
  rewrite (clean_sep "url(" _ "#"%char eq_refl).
  rewrite (clean_sep (Marker_getId m) "" ")"%char eq_refl).
  simpl in Hp. now rewrite Hp.
Qed.

Lemma Markerable_toString_good (l : Layout) (m : Markerable) :
  Forall (fun t => has_stroke_attribute t = false) (Markerable_texts m) ->
  good (Markerable_toString l m) = true.
Proof.
  intros H. unfold Markerable_texts in H.
  inversion_clear H as [|? ? H1 H']. inversion_clear H' as [|? ? H2 H''].
  inversion_clear H'' as [|? ? H3 _].
  unfold Markerable_toString.
  good_tac; apply marker_reference_good; auto using clean_of_has.
Qed.

Lemma ShapeBase_texts_clean (b : ShapeBase) :
  Forall (fun t => has_stroke_attribute t = false) (ShapeBase_texts b) ->
  clean (Shape_id b) = true /\ clean (Shape_style b) = true.
Proof.
  intros H. inversion_clear H as [|? ? H1 H']. inversion_clear H' as [|? ? H2 _].
  split; now apply clean_of_has.
Qed.

Lemma Polyline_toString_good (l : Layout) (p : Polyline) :
  (Stroke_width (Shape_stroke (Polyline_base p)) <? 0) = true ->
  Forall (fun t => has_stroke_attribute t = false) (Polyline_texts p) ->
  good (Polyline_toString l p) = true.
Proof.
  intros Hw Ht. unfold Polyline_texts in Ht. apply Forall_app in Ht.
  destruct Ht as [Hb Hm]. apply ShapeBase_texts_clean in Hb. destruct Hb as [Hid Hst].
  unfold Polyline_toString.
  rewrite (quoted_as_attribute "points=" "points" _ _ eq_refl).
  good_tac.
  - apply no_equals_clean, points_toString_no_equals.
  - now apply ShapeBase_toString_good.
  - now apply Markerable_toString_good.
Qed.

Lemma Circle_toString_good (l : Layout) (c : Circle) :
  (Stroke_width (Shape_stroke (SurfaceShape_shape (Circle_surface c))) <? 0) = true ->
  Forall (fun t => has_stroke_attribute t = false)
    (ShapeBase_texts (SurfaceShape_shape (Circle_surface c))) ->
  good (Circle_toString l c) = true.
Proof.
  intros Hw Ht. apply ShapeBase_texts_clean in Ht. destruct Ht as [Hid Hst].
  unfold Circle_toString, SurfaceShape_id. good_tac.
  now apply SurfaceShape_toString_good.
Qed.

Lemma Elipse_toString_good (l : Layout) (e : Elipse) :
  (Stroke_width (Shape_stroke (SurfaceShape_shape (Elipse_surface e))) <? 0) = true ->
  Forall (fun t => has_stroke_attribute t = false)
    (ShapeBase_texts (SurfaceShape_shape (Elipse_surface e))) ->
  good (Elipse_toString l e) = true.
Proof.
  intros Hw Ht. apply ShapeBase_texts_clean in Ht. destruct Ht as [Hid Hst].
  unfold Elipse_toString, SurfaceShape_id. good_tac.
  now apply SurfaceShape_toString_good.
Qed.

Lemma Rectangle_toString_good (l : Layout) (r : Rectangle) :
  (Stroke_width (Shape_stroke (SurfaceShape_shape (Rectangle_surface r))) <? 0) = true ->
  Forall (fun t => has_stroke_attribute t = false)
    (ShapeBase_texts (SurfaceShape_shape (Rectangle_surface r))) ->
  good (Rectangle_toString l r) = true.
Proof.
  intros Hw Ht. apply ShapeBase_texts_clean in Ht. destruct Ht as [Hid Hst].
  unfold Rectangle_toString, SurfaceShape_id. good_tac;
    now apply SurfaceShape_toString_good.
Qed.

Lemma Line_toString_good (l : Layout) (ln : Line) :
  (Stroke_width (Shape_stroke (Line_base ln)) <? 0) = true ->
  Forall (fun t => has_stroke_attribute t = false)
    (ShapeBase_texts (Line_base ln) ++ Markerable_texts (Line_markers ln))%list ->
  good (Line_toString l ln) = true.
Proof.
  intros Hw Ht. apply Forall_app in Ht. destruct Ht as [Hb Hm].
  apply ShapeBase_texts_clean in Hb. destruct Hb as [Hid Hst].
  unfold Line_toString. good_tac.
  - now apply ShapeBase_toString_good.
  - now apply Markerable_toString_good.
Qed.

Lemma Polygon_toString_good (l : Layout) (p : Polygon) :
  (Stroke_width (Shape_stroke (SurfaceShape_shape (Polygon_surface p))) <? 0) = true ->
  Forall (fun t => has_stroke_attribute t = false)
    (ShapeBase_texts (SurfaceShape_shape (Polygon_surface p))) ->
  good (Polygon_toString l p) = true.
Proof.
  intros Hw Ht. apply ShapeBase_texts_clean in Ht. destruct Ht as [Hid Hst].
  unfold Polygon_toString, SurfaceShape_id.
  rewrite (quoted_as_attribute "points=" "points" _ _ eq_refl). good_tac.
  - apply no_equals_clean, points_toString_no_equals.
  - now apply SurfaceShape_toString_good.
Qed.

Lemma Path_toString_good (l : Layout) (p : Path) :
  (Stroke_width (Shape_stroke (SurfaceShape_shape (Path_surface p))) <? 0) = true ->
  Forall (fun t => has_stroke_attribute t = false)
    (ShapeBase_texts (SurfaceShape_shape (Path_surface p))) ->
  good (Path_toString l p) = true.
Proof.
  intros Hw Ht. apply ShapeBase_texts_clean in Ht. destruct Ht as [Hid Hst].
  unfold Path_toString, SurfaceShape_id.
  rewrite (quoted_as_attribute "fill-rule=" "fill-rule" _ _ eq_refl).
  rewrite (quoted_as_attribute "d=" "d" _ _ eq_refl). good_tac.
  - apply no_equals_clean, subpaths_toString_no_equals.
  - now apply SurfaceShape_toString_good.
Qed.

Lemma Text_content_good (content : string) :
  clean content = true -> good (">" ++ content ++ elemEnd "text") = true.
Proof.
  intros H.
  change (">" ++ content ++ elemEnd "text")
    with ("" ++ String ">"%char (content ++ String "<"%char ("/text>" ++ nl))).
  unfold good. apply andb_true_iff. split.
  - rewrite (clean_sep "" _ ">"%char eq_refl).
    rewrite (clean_sep content _ "<"%char eq_refl). now rewrite H.
  - rewrite ends_sep_app_r by discriminate.
    change (String ">"%char (content ++ String "<"%char ("/text>" ++ nl)))
      with (String ">"%char "" ++ (content ++ String "<"%char ("/text>" ++ nl))).
    rewrite ends_sep_app_r by (destruct content; discriminate).
    now rewrite ends_sep_app_r by discriminate.
Qed.

Lemma Text_toString_good (l : Layout) (t : Text) :
  (Stroke_width (Shape_stroke (SurfaceShape_shape (Text_surface t))) <? 0) = true ->
  Forall (fun t => has_stroke_attribute t = false)
    (ShapeBase_texts (SurfaceShape_shape (Text_surface t)) ++
     [Text_content t; Font_family (Text_font t)])%list ->
  good (Text_toString l t) = true.
Proof.
  intros Hw Ht. apply Forall_app in Ht. destruct Ht as [Hb Hc].
  apply ShapeBase_texts_clean in Hb. destruct Hb as [Hid Hst].
  inversion_clear Hc as [|? ? Hcontent Hc']. inversion_clear Hc' as [|? ? Hfamily _].
  apply clean_of_has in Hcontent, Hfamily.
  unfold Text_toString, SurfaceShape_id.
  set (tail := ">" ++ Text_content t ++ elemEnd "text").
  assert (Htail : good tail = true) by (now apply Text_content_good).
  assert (Hfont : good (Font_toString l (Text_font t)) = true)
    by (unfold Font_toString; good_tac).
  clearbody tail.
  destruct (Text_anchor t), (Text_dominant_baseline t);
    cbn [TextAnchor_toString DominantBaseline_toString]; good_tac;
    first [assumption | now apply SurfaceShape_toString_good].
Qed.

Lemma mapM_Forall {A B : Type} (f : A -> result B) (P : B -> Prop)
    (l : list A) (bs : list B) :
  (forall a b, f a = Ok b -> P b) -> mapM f l = Ok bs -> Forall P bs.
Proof.
  intros Hf. revert bs. induction l as [|a l IH]; intros bs H; simpl in H.
  - injection H as <-. constructor.
  - destruct (f a) as [b|e] eqn:Ea; [|discriminate]. simpl in H.
    destruct (mapM f l) as [bs'|e] eqn:El; [|discriminate]. simpl in H.
    injection H as <-. constructor; eauto.
Qed.

Lemma LineChart_vertices_good (l : Layout) (c : LineChart) (shifted : Polyline)
    (vertices : list Circle) :
  LineChart_vertices c shifted = Ok vertices ->
  Forall (fun v => good (Circle_toString l v) = true) vertices.
Proof.
  apply mapM_Forall. intros q v H.
  destruct (LineChart_getDimensions c) as [[d|]|e]; try discriminate.
  simpl in H. injection H as <-.
  apply Circle_toString_good; [reflexivity|repeat constructor].
Qed.

Lemma vectorToString_good {T : Type} (f : Layout -> T -> string) (l : Layout)
    (collection : list T) :
  Forall (fun c => good (f l c) = true) collection ->
  good (vectorToString f collection l) = true.
Proof.
  unfold vectorToString. generalize "" good_empty.
  induction collection as [|c r IH]; intros acc Hacc H; simpl; [exact Hacc|].
  inversion_clear H as [|? ? Hc Hr].
  apply IH; [now apply good_app|exact Hr].
Qed.

Lemma LineChart_polylinesToString_good (c : LineChart) (ps : list Polyline)
    (l : Layout) (ret out : string) :
  Forall (fun p => (Stroke_width (Shape_stroke (Polyline_base p)) <? 0) = true) ps ->
  Forall (fun t => has_stroke_attribute t = false) (flat_map Polyline_texts ps) ->
  good ret = true ->
  LineChart_polylinesToString c ps l ret = Ok out -> good out = true.
Proof.
  revert ret. induction ps as [|p ps IH]; intros ret Hw Ht Hret H;
    cbn [LineChart_polylinesToString] in H.
  - now injection H as <-.
  - inversion_clear Hw as [|? ? Hp Hps].
    cbn [flat_map] in Ht. apply Forall_app in Ht. destruct Ht as [Htp Htps].
    unfold LineChart_polylineToString in H.
    destruct (LineChart_vertices c (LineChart_shifted c p)) as [vs|e] eqn:Ev;
      [|discriminate].
    cbn [bind] in H. refine (IH _ Hps Htps _ H).
    apply good_app; [exact Hret|]. apply good_app.
    + now apply Polyline_toString_good.
    + apply vectorToString_good. eapply LineChart_vertices_good; eassumption.
Qed.

Lemma LineChart_axisString_good (c : LineChart) (l : Layout) (out : string) :
  (Stroke_width (LineChart_axis_stroke c) <? 0) = true ->
  LineChart_axisString c l = Ok out -> good out = true.
Proof.
  intros Hw H. unfold LineChart_axisString, LineChart_axis in H.
  destruct (LineChart_getDimensions c) as [[d|]|e]; try discriminate; simpl in H;
    injection H as <-; [|reflexivity].
  apply Polyline_toString_good; [exact Hw|repeat constructor].
Qed.

Lemma LineChart_toString_good (l : Layout) (c : LineChart) (out : string) :
  Forall (fun st => (Stroke_width st <? 0) = true) (Shape_strokes (Shape_LineChart c)) ->
  Forall (fun t => has_stroke_attribute t = false) (Shape_texts (Shape_LineChart c)) ->
  LineChart_toString l c = Ok out -> good out = true.
Proof.
  cbn [Shape_strokes Shape_texts]. intros Hw Ht H.
  inversion_clear Hw as [|? ? Haxis Hps]. rewrite Forall_map in Hps.
  unfold LineChart_toString in H.
  destruct (LineChart_polylines c) as [|p ps] eqn:E; [now injection H as <-|].
  rewrite <- E in *.
  destruct (LineChart_polylinesToString c (LineChart_polylines c) l "") as [ret|e]
    eqn:Er; [|discriminate].
  simpl in H.
  destruct (LineChart_axisString c l) as [axis|e] eqn:Ea; [|discriminate].
  simpl in H. injection H as <-. apply good_app.
  - eapply LineChart_polylinesToString_good; eauto using good_empty.
  - eapply LineChart_axisString_good; eauto.
Qed.

(** C4 (as the code has it): a stroke of negative width, the default
    stroke among them, serializes to the empty string; a shape whose
    strokes all have a negative width, and whose own strings assign no
    stroke attribute, is serialized without a stroke attribute.  The
    strokes of a chart are that of its axis and those of its polylines: it
    does not write its own. *)
Theorem negative_stroke_not_written :
  (forall (l : Layout) (st : Stroke),
      (Stroke_width st <? 0) = true -> Stroke_toString l st = "") /\
  (forall l : Layout, Stroke_toString l Stroke_default = "") /\
  (forall (l : Layout) (s : Shape) (out : string),
      Forall (fun st => (Stroke_width st <? 0) = true) (Shape_strokes s) ->
      Forall (fun t => has_stroke_attribute t = false) (Shape_texts s) ->
      Shape_toString l s = Ok out ->
      has_stroke_attribute out = false).
Proof.
  split; [exact Stroke_toString_negative|]. split; [reflexivity|].
  intros l s out Hw Ht H. apply good_clean.
  destruct s as [c|e|r|ln|p|p|p|t|c];
    try (cbn [Shape_strokes Shape_base Shape_texts] in Hw, Ht;
         inversion_clear Hw as [|? ? Hw' _]; injection H as <-).
  - now apply Circle_toString_good.
  - now apply Elipse_toString_good.
  - now apply Rectangle_toString_good.
  - now apply Line_toString_good.
  - now apply Polygon_toString_good.
  - now apply Path_toString_good.
  - now apply Polyline_toString_good.
  - now apply Text_toString_good.
  - eapply LineChart_toString_good; eauto.
Qed.

Lemma negative_stroke_not_written_witness :
  exists out,
    Shape_toString Layout_default (Shape_Circle unit_circle) = Ok out /\
    has_stroke_attribute out = false.
Proof.
  eexists. split; [reflexivity|].
  apply (proj2 (proj2 negative_stroke_not_written) Layout_default
           (Shape_Circle unit_circle)).
  - repeat constructor.
  - repeat constructor.
  - reflexivity.
Defined.

(** C4 (as stated) fails for a chart: the stroke the default chart carries
    as a shape has width -1, and its serialization assigns stroke-width,
    for its axis. *)
Lemma chart_writes_axis_stroke :
  (Stroke_width (Shape_stroke (Shape_base default_chart_shape)) <? 0) = true /\
  exists out,
    Shape_toString Layout_default default_chart_shape = Ok out /\
    contains ("stroke-width=" ++ dq ++ "0.5" ++ dq) out = true /\
    has_stroke_attribute out = true.
Proof.
  split; [reflexivity|]. eexists.
  split; [vm_compute; reflexivity|]. split; vm_compute; reflexivity.
Qed.

(** ** Marker collisions *)

(** C6 (the code at the failing input): two markers share the id m1 and
    differ in content; a document whose single line points to both is
    serialized without a collision report, while the same two markers on
    two lines are reported once. *)
Theorem collision_in_one_line_unreported :
  Marker_getId circle_marker = Marker_getId square_marker /\
  Marker_neq circle_marker square_marker = Ok true /\
  Markerable_getUsedMarkers
    (mkMarkerable (Some circle_marker) None (Some square_marker)) = [circle_marker] /\
  (exists text,
      snd (Document_writeToStream collision_in_one_line) = Ok (mkWritten text [])) /\
  (exists text element,
      snd (Document_writeToStream collision_in_two_lines) =
      Ok (mkWritten text [mkCollision "m1" element])).
Proof.
  split; [reflexivity|]. split; [vm_compute; reflexivity|].
  split; [reflexivity|]. split.
  - eexists. vm_compute. reflexivity.
  - do 2 eexists. vm_compute. reflexivity.
Qed.

(** What the collection does guarantee: every report names two referenced
    markers of one id that differ. *)

Lemma getUsedMarkers_referenced (m : Markerable) (x : Marker) :
  In x (Markerable_getUsedMarkers m) -> In x (Markerable_referenced m).
Proof.
  unfold Markerable_getUsedMarkers, Markerable_referenced, insert_if_used.
  cbn [flat_map]. rewrite app_nil_r.
  destruct (marker_used (Markerable_start m)) as [a|];
    destruct (marker_used (Markerable_mid m)) as [b|];
    destruct (marker_used (Markerable_end m)) as [c|]; intros H;
    repeat (apply MarkerSet_insert_In in H; destruct H as [->|H]);
    simpl in *; intuition.
Qed.

Lemma Document_compare_marker_real (layout : Layout) (node : Shape) (i : Marker)
    (all : MarkerSet) (log : list Collision) (candidates : list Marker) :
  In i candidates -> incl all candidates ->
  Document_compare_marker layout node i all = Ok log ->
  Forall (real_collision candidates) log.
Proof.
  intros Hi. revert log. induction all as [|j rest IH]; intros log Hall H;
    cbn [Document_compare_marker] in H.
  - injection H as <-. constructor.
  - destruct (String.eqb_spec (Marker_getId i) (Marker_getId j)) as [Hid|Hid].
    + destruct (Marker_neq i j) as [differs|e] eqn:En; [|discriminate].
      cbn [bind] in H.
      destruct (Document_compare_marker layout node i rest) as [later|e] eqn:El.
      * assert (Hlater : Forall (real_collision candidates) later).
        { apply IH; [|reflexivity]. intros x Hx. apply Hall. now right. }
        destruct differs.
        -- destruct (Shape_toString layout node) as [element|e]; [|discriminate].
           cbn [bind] in H. injection H as <-. constructor; [|exact Hlater].
           exists i, j. repeat split; auto. apply Hall. now left.
        -- cbn [bind] in H. injection H as <-. exact Hlater.
      * destruct differs; [|discriminate].
        destruct (Shape_toString layout node); discriminate.
    + cbn [bind] in H.
      destruct (Document_compare_marker layout node i rest) as [later|e] eqn:El;
        [|discriminate].
      cbn [bind] in H. injection H as <-.
      apply IH; [|reflexivity]. intros x Hx. apply Hall. now right.
Qed.

Lemma Document_collect_node_real (layout : Layout) (node : Shape)
    (markers : list Marker) (all all' : MarkerSet) (log : list Collision)
    (candidates : list Marker) :
  incl markers candidates -> incl all candidates ->
  Document_collect_node layout node markers all = Ok (all', log) ->
  Forall (real_collision candidates) log /\ incl all' candidates.
Proof.
  revert all all' log. induction markers as [|i rest IH];
    intros all all' log Hm Hall H; cbn [Document_collect_node] in H.
  - injection H as <- <-. split; [constructor|exact Hall].
  - destruct (Document_compare_marker layout node i all) as [here|e] eqn:Eh;
      [|discriminate].
    cbn [bind] in H.
    destruct (Document_collect_node layout node rest (MarkerSet_insert i all))
      as [[all1 log1]|e] eqn:Er; [|discriminate].
    cbn [bind fst snd] in H. injection H as <- <-.
    assert (Hi : In i candidates) by (apply Hm; now left).
    assert (Hrest : incl rest candidates)
      by (intros x Hx; apply Hm; now right).
    assert (Hins : incl (MarkerSet_insert i all) candidates).
    { intros x Hx. apply MarkerSet_insert_In in Hx. destruct Hx as [->|Hx]; auto. }
    destruct (IH (MarkerSet_insert i all) all1 log1 Hrest Hins Er) as [Hlog Hincl].
    split; [|exact Hincl]. apply Forall_app. split; [|exact Hlog].
    exact (Document_compare_marker_real layout node i all here candidates Hi Hall Eh).
Qed.

Lemma Document_collect_markers_real (layout : Layout) (nodes : list Shape)
    (all all' : MarkerSet) (log : list Collision) (candidates : list Marker) :
  incl (Document_referenced nodes) candidates -> incl all candidates ->
  Document_collect_markers layout nodes all = Ok (all', log) ->
  Forall (real_collision candidates) log /\ incl all' candidates.
Proof.
  revert all all' log. induction nodes as [|node rest IH];
    intros all all' log Hn Hall H; cbn [Document_collect_markers] in H.
  - injection H as <- <-. split; [constructor|exact Hall].
  - cbn [Document_referenced flat_map] in Hn. apply incl_app_inv in Hn.
    destruct Hn as [Hnode Hrest].
    assert (H1 : forall all1 log1,
      match Shape_as_Markerable node with
      | Some m => Document_collect_node layout node (Markerable_getUsedMarkers m) all
      | None => Ok (all, [])
      end = Ok (all1, log1) ->
      Forall (real_collision candidates) log1 /\ incl all1 candidates).
    { intros all1 log1 E. destruct (Shape_as_Markerable node) as [m|].
      - eapply Document_collect_node_real; [|exact Hall|exact E].
        intros x Hx. apply Hnode. now apply getUsedMarkers_referenced.
      - injection E as <- <-. split; [constructor|exact Hall]. }
    remember (match Shape_as_Markerable node with
              | Some m =>
                  Document_collect_node layout node (Markerable_getUsedMarkers m) all
              | None => Ok (all, [])
              end) as first eqn:E1.
    destruct first as [[all1 log1]|e]; [|discriminate].
    destruct (H1 all1 log1 eq_refl) as [Hlog1 Hall1].
    cbn [bind fst snd] in H.
    destruct (Document_collect_markers layout rest all1) as [[all2 log2]|e] eqn:E2;
      [|discriminate].
    cbn [bind fst snd] in H. injection H as <- <-.
    destruct (IH all1 all2 log2 Hrest Hall1 E2) as [Hlog2 Hall2].
    split; [|exact Hall2]. apply Forall_app. now split.
Qed.

(** The reports of a serialization are real, the serialization goes on
    after a report, and markers that do not differ are not reported. *)
Lemma Document_collisions_real (d : Document) (w : Written) :
  snd (Document_writeToStream d) = Ok w ->
  Forall (real_collision (Document_referenced (Document_sorted_nodes d)))
    (Written_collisions w).
Proof.
  unfold Document_writeToStream. cbn [snd]. intros H.
  destruct (Document_collect_markers (Document_layout d) (Document_sorted_nodes d) [])
    as [[all log]|e] eqn:E; [|discriminate].
  cbn [bind fst snd] in H.
  destruct (Document_defs (Document_layout d) all) as [defs|e]; [|discriminate].
  cbn [bind] in H.
  destruct (concatM (Shape_toString (Document_layout d)) (Document_sorted_nodes d))
    as [body|e]; [|discriminate].
  cbn [bind] in H. injection H as <-. cbn [Written_collisions].
  eapply Document_collect_markers_real; [| |exact E].
  - apply incl_refl.
  - intros x [].
Qed.

Lemma Document_no_collision (d : Document) (w : Written) :
  (forall i j,
      In i (Document_referenced (Document_sorted_nodes d)) ->
      In j (Document_referenced (Document_sorted_nodes d)) ->
      Marker_getId i = Marker_getId j -> Marker_neq i j <> Ok true) ->
  snd (Document_writeToStream d) = Ok w -> Written_collisions w = [].
Proof.
  intros Hsame H. apply Document_collisions_real in H.
  destruct (Written_collisions w) as [|c log]; [reflexivity|].
  inversion_clear H as [|? ? Hc _].
  destruct Hc as (i & j & Hi & Hj & Hid & _ & Hneq).
  now destruct (Hsame i j Hi Hj Hid).
Qed.

(** * Further properties *)

(** ** Suffixes and file names *)

(** X1: ends_with holds exactly of the strings that are a stem followed
    by the ending. *)
Theorem ends_with_iff (value ending : string) :
  ends_with value ending = true <-> exists stem, value = stem ++ ending.
Proof.
  split.
  - apply ends_with_suffix.
  - intros [stem ->]. apply ends_with_append.
Qed.

Lemma Document_save_isAnimated (fs : FileSystem) (d : Document)
    (filename : string) (auto_append : bool) :
  Document_isAnimated (fst (Document_save fs d filename auto_append)) =
  Document_isAnimated d.
Proof.
  unfold Document_save.
  set (name := if auto_append then _ else _).
  destruct (negb (fs_is_open fs name)); reflexivity.
Qed.

(** X2: the extension is appended once: saving again under the name a
    save produced keeps that name; without auto_append the name is the one
    given. *)
Theorem save_name_stable (fs fs' : FileSystem) (d : Document) (filename : string) :
  (let d1 := fst (Document_save fs d filename true) in
   Document_getFileName (fst (Document_save fs' d1 (Document_getFileName d1) true)) =
   Document_getFileName d1) /\
  Document_getFileName (fst (Document_save fs d filename false)) = filename.
Proof.
  split; [|now rewrite Document_save_file_name].
  cbv zeta. rewrite (Document_save_file_name fs' _ _ true).
  rewrite Document_save_isAnimated, (Document_save_file_name fs d filename true).
  destruct (Document_isAnimated d).
  - destruct (ends_with filename ".html") eqn:E; [now rewrite E|].
    now rewrite ends_with_append.
  - destruct (ends_with filename ".svg") eqn:E; [now rewrite E|].
    now rewrite ends_with_append.
Qed.

Lemma Document_writeToStream_file_name (d : Document) (name : string) :
  snd (Document_writeToStream
         (mkDocument (Document_id d) name (Document_layout d) (Document_body_nodes d)
            (Document_needs_sorting d) (Document_animation_nodes d))) =
  snd (Document_writeToStream d).
Proof. reflexivity. Qed.

(** X3: save writes the text toString returns: when the file opens, the
    value returned is the state of the stream after that text (or the
    exception of the serialization); when it does not open, save returns
    false and leaves the body nodes as they were. *)
Theorem save_writes_toString (fs : FileSystem) (d : Document) (filename : string)
    (auto_append : bool) :
  let name := Document_getFileName (fst (Document_save fs d filename auto_append)) in
  (fs_is_open fs name = true ->
   snd (Document_save fs d filename auto_append) =
   (text <- snd (Document_toString d) ;; Ok (fs_good fs name text)) /\
   Document_body_nodes (fst (Document_save fs d filename auto_append)) =
   Document_body_nodes (fst (Document_toString d))) /\
  (fs_is_open fs name = false ->
   snd (Document_save fs d filename auto_append) = Ok false /\
   Document_body_nodes (fst (Document_save fs d filename auto_append)) =
   Document_body_nodes d).
Proof.
  cbv zeta. rewrite Document_toString_unfold.
  unfold Document_save, Document_getFileName.
  set (name := if auto_append then _ else _).
  set (d1 := mkDocument _ name _ _ _ _).
  assert (H1 : snd (Document_writeToStream d1) = snd (Document_writeToStream d))
    by reflexivity.
  assert (H2 : Document_body_nodes (fst (Document_writeToStream d1)) =
               Document_body_nodes (fst (Document_writeToStream d))) by reflexivity.
  assert (H3 : Document_file_name (fst (Document_writeToStream d1)) = name)
    by reflexivity.
  destruct (fs_is_open fs name) eqn:Hopen; cbn [negb].
  - destruct (Document_writeToStream d1) as [d2 w]. cbn [fst snd] in *.
    rewrite H3, Hopen. split; [|discriminate]. intros _.
    rewrite H1, H2. split; [|reflexivity].
    destruct (snd (Document_writeToStream d)); reflexivity.
  - cbn [fst snd]. subst d1. cbn [Document_file_name]. rewrite Hopen.
    split; [discriminate|]. intros _. split; reflexivity.
Qed.

Lemma save_writes_toString_witness :
  snd (Document_save any_fs z_order_example "z" true) =
  (text <- snd (Document_toString z_order_example) ;; Ok true).
Proof.
  apply (proj1 (save_writes_toString any_fs z_order_example "z" true)).
  reflexivity.
Defined.

(** ** Invariants of a document *)

(** X4: the sorting flag of a document of the interface is set exactly
    when a shape with a z other than 0 was appended; serializing and
    saving never reset it. *)
Theorem needs_sorting_built (h : list Shape) (d : Document) :
  built h d ->
  Document_needs_sorting d = existsb (fun s => negb (Shape_getZ s =? 0)%Z) h.
Proof.
  induction 1 as [l|h d new_id Hb IH|h d shape Hb IH|h d a Hb IH|h d Hb IH
                 |h d fs filename auto Hb IH].
  - reflexivity.
  - exact IH.
  - cbn [Document_addShape Document_needs_sorting].
    rewrite existsb_app, IH. cbn [existsb]. now rewrite orb_false_r.
  - exact IH.
  - rewrite Document_toString_unfold. exact IH.
  - unfold Document_save. set (name := if auto then _ else _).
    set (d1 := mkDocument _ name _ _ _ _).
    assert (H1 : Document_needs_sorting (fst (Document_writeToStream d1)) =
                 Document_needs_sorting d) by reflexivity.
    destruct (negb (fs_is_open fs name)); [exact IH|].
    destruct (Document_writeToStream d1) as [d2 w]. cbn [fst] in *.
    now rewrite H1.
Qed.

Lemma needs_sorting_built_witness :
  Document_needs_sorting z_order_example = true.
Proof.
  rewrite (needs_sorting_built z_order_history z_order_example z_order_example_built).
  reflexivity.
Defined.

(** X5: serializing changes nothing of a document but the order of its
    body nodes: they are rearranged, into ascending z when the flag is
    set, and left as they are when it is not. *)
Theorem toString_only_reorders (d : Document) :
  let d' := fst (Document_toString d) in
  Document_id d' = Document_id d /\
  Document_file_name d' = Document_file_name d /\
  Document_layout d' = Document_layout d /\
  Document_needs_sorting d' = Document_needs_sorting d /\
  Document_animation_nodes d' = Document_animation_nodes d /\
  Permutation (Document_body_nodes d) (Document_body_nodes d') /\
  (if Document_needs_sorting d
   then StronglySorted (fun a b => (Shape_getZ a <= Shape_getZ b)%Z)
          (Document_body_nodes d')
   else Document_body_nodes d' = Document_body_nodes d).
Proof.
  cbv zeta. rewrite Document_toString_unfold.
  cbn [fst Document_writeToStream Document_id Document_file_name Document_layout
       Document_needs_sorting Document_animation_nodes Document_body_nodes].
  repeat (split; [reflexivity|]).
  unfold Document_sorted_nodes. destruct (Document_needs_sorting d); split.
  - apply (stable_sort_perm Shape_getZ).
  - apply (stable_sort_sorted Shape_getZ).
  - apply Permutation_refl.
  - reflexivity.
Qed.

Lemma getUsedMarkers_none (m : Markerable) :
  Markerable_referenced m = [] -> Markerable_getUsedMarkers m = [].
Proof.
  unfold Markerable_referenced, Markerable_getUsedMarkers, insert_if_used.
  cbn [flat_map]. rewrite app_nil_r.
  destruct (marker_used (Markerable_start m)); [discriminate|].
  destruct (marker_used (Markerable_mid m)); [discriminate|].
  destruct (marker_used (Markerable_end m)); [discriminate|reflexivity].
Qed.

Lemma Document_collect_markers_none (layout : Layout) (nodes : list Shape) :
  Document_referenced nodes = [] ->
  Document_collect_markers layout nodes [] = Ok ([], []).
Proof.
  induction nodes as [|node rest IH]; intros H; [reflexivity|].
  cbn [Document_referenced flat_map] in H. apply app_eq_nil in H.
  destruct H as [Hnode Hrest].
  cbn [Document_collect_markers].
  destruct (Shape_as_Markerable node) as [m|].
  - rewrite (getUsedMarkers_none m Hnode). cbn [Document_collect_node bind fst snd].
    rewrite (IH Hrest). reflexivity.
  - cbn [bind fst snd]. rewrite (IH Hrest). reflexivity.
Qed.

(** X6: a document whose nodes point to no valid marker is written
    without a definitions block and without a report: the preamble, the
    nodes in order, the animations in order, the closing tag; a new
    document is the preamble and the closing tag. *)
Theorem Document_without_markers :
  (forall d : Document,
      Document_referenced (Document_sorted_nodes d) = [] ->
      Forall (fun s => Shape_wf s = true) (Document_sorted_nodes d) ->
      exists body,
        concatM (Shape_toString (Document_layout d)) (Document_sorted_nodes d) = Ok body /\
        snd (Document_writeToStream d) =
        Ok (mkWritten
              (Document_preamble d ++ body ++
               concat_map (Animation_toString (Document_layout d))
                 (Document_animation_nodes d) ++
               elemEnd "svg") [])) /\
  (forall l : Layout,
      snd (Document_toString (Document_new l)) =
      Ok (Document_preamble (Document_new l) ++ elemEnd "svg")).
Proof.
  split; [|reflexivity].
  intros d Href Hwf.
  destruct (concatM_Ok (Shape_toString (Document_layout d)) (Document_sorted_nodes d))
    as [body Hbody].
  { intros s Hs. apply Shape_toString_Ok. rewrite Forall_forall in Hwf. now apply Hwf. }
  exists body. split; [exact Hbody|].
  unfold Document_writeToStream. cbn [snd].
  rewrite (Document_collect_markers_none _ _ Href). cbn [bind fst snd Document_defs].
  rewrite Hbody. reflexivity.
Qed.

Lemma Document_without_markers_witness :
  exists body,
    concatM (Shape_toString Layout_default) (Document_sorted_nodes z_order_example)
    = Ok body.
Proof.
  destruct (proj1 Document_without_markers z_order_example eq_refl) as (body & H & _).
  - repeat constructor.
  - now exists body.
Defined.

Lemma Document_preamble_prefix (d : Document) (rest : string) :
  is_prefix ("<?xml version=" ++ dq ++ "1.0" ++ dq ++ " standalone=" ++ dq ++ "no" ++ dq
             ++ " ?>" ++ nl) (Document_preamble d ++ rest) = true.
Proof. reflexivity. Qed.

(** X7: whatever a document holds, the text of a serialization starts
    with the XML declaration and ends with the closing tag of the root
    element. *)
Theorem Document_text_frame (d : Document) (w : Written) :
  snd (Document_writeToStream d) = Ok w ->
  is_prefix ("<?xml version=" ++ dq ++ "1.0" ++ dq ++ " standalone=" ++ dq ++ "no" ++ dq
             ++ " ?>" ++ nl) (Written_text w) = true /\
  ends_with (Written_text w) (elemEnd "svg") = true.
Proof.
  unfold Document_writeToStream. cbn [snd].
  assert (Hpre := Document_preamble_prefix d).
  revert Hpre. generalize (Document_preamble d). intros pre Hpre H.
  destruct (Document_collect_markers _ _ _) as [collected|e]; [|discriminate].
  cbn [bind] in H.
  destruct (Document_defs _ _) as [defs|e]; [|discriminate]. cbn [bind] in H.
  destruct (concatM _ _) as [body|e]; [|discriminate]. cbn [bind] in H.
  injection H as <-. cbn [Written_text]. split.
  - apply Hpre.
  - rewrite <- !append_assoc. apply ends_with_append.
Qed.

Lemma Document_text_frame_witness :
  exists w, snd (Document_writeToStream z_order_example) = Ok w /\
            ends_with (Written_text w) (elemEnd "svg") = true.
Proof.
  eexists. split; [reflexivity|].
  apply (Document_text_frame z_order_example _ eq_refl).
Defined.

(** ** Paths *)

Lemma subpaths_toString_app (l : Layout) (a b : list (list Point)) :
  subpaths_toString l (a ++ b) = subpaths_toString l a ++ subpaths_toString l b.
Proof.
  induction a as [|sub a IH]; [reflexivity|].
  cbn [app subpaths_toString]. destruct sub as [|p sub]; [exact IH|].
  rewrite IH. now rewrite !append_assoc.
Qed.

Lemma startNewSubPath_cases (paths : list (list Point)) :
  startNewSubPath paths = paths \/ startNewSubPath paths = (paths ++ [[]])%list.
Proof.
  unfold startNewSubPath. destruct (rev paths) as [|back rest]; [now right|].
  destruct (0 <? List.length back)%nat; [now right|now left].
Qed.

(** X8: a subpath without points is not written, so starting a new
    subpath does not change the serialization of a path until a point
    follows; starting one twice is starting one once. *)
Theorem Path_startNewSubPath_silent (l : Layout) (p : Path) :
  Path_toString l (Path_startNewSubPath p) = Path_toString l p /\
  Path_startNewSubPath (Path_startNewSubPath p) = Path_startNewSubPath p /\
  subpaths_toString l (filter non_empty (Path_paths p)) =
  subpaths_toString l (Path_paths p).
Proof.
  split; [|split].
  - unfold Path_toString, Path_startNewSubPath. cbn [Path_paths Path_surface].
    destruct (startNewSubPath_cases (Path_paths p)) as [->| ->]; [reflexivity|].
    rewrite subpaths_toString_app. cbn [subpaths_toString].
    now rewrite append_nil_r.
  - unfold Path_startNewSubPath. cbn [Path_paths Path_surface]. f_equal.
    unfold startNewSubPath at 1.
    destruct (rev (startNewSubPath (Path_paths p))) as [|back rest] eqn:E.
    + destruct (startNewSubPath_cases (Path_paths p)) as [H|H]; rewrite H in E.
      * unfold startNewSubPath in H. rewrite E in H.
        destruct (Path_paths p); [discriminate|].
        apply (f_equal (@List.length _)) in H. rewrite length_app in H.
        simpl in H. lia.
      * rewrite rev_app_distr in E. discriminate.
    + assert (Hback : back = []).
      { unfold startNewSubPath in E.
        destruct (rev (Path_paths p)) as [|b r] eqn:Er.
        - rewrite rev_app_distr in E. simpl in E. rewrite Er in E. simpl in E.
          now injection E as <- _.
        - destruct (0 <? List.length b)%nat eqn:Eb.
          + rewrite rev_app_distr in E. simpl in E. now injection E as <- _.
          + rewrite Er in E. injection E as <- _.
            destruct b; [reflexivity|discriminate]. }
      now rewrite Hback.
  - induction (Path_paths p) as [|sub rest IH]; [reflexivity|].
    destruct sub as [|q sub]; cbn [filter non_empty subpaths_toString]; [exact IH|].
    now rewrite IH.
Qed.





(** ** Shapes *)

Lemma Polyline_offset_keeps (p : Polyline) (offset : Point) :
  Polyline_base (Polyline_offset p offset) = Polyline_base p /\
  Polyline_markers (Polyline_offset p offset) = Polyline_markers p /\
  List.length (Polyline_points (Polyline_offset p offset)) =
  List.length (Polyline_points p).
Proof. repeat split. cbn [Polyline_offset Polyline_points]. apply length_map. Qed.

(** X10: an offset moves points only: the stroke, z, id, style and
    visibility of the shape, the markers it points to and its being well
    formed are as before, for every kind of shape. *)
Theorem Shape_offset_keeps (s : Shape) (offset : Point) :
  Shape_base (Shape_offset s offset) = Shape_base s /\
  Shape_getZ (Shape_offset s offset) = Shape_getZ s /\
  Shape_as_Markerable (Shape_offset s offset) = Shape_as_Markerable s /\
  Shape_strokes (Shape_offset s offset) = Shape_strokes s /\
  Shape_texts (Shape_offset s offset) = Shape_texts s /\
  Shape_wf (Shape_offset s offset) = Shape_wf s /\
  node_wf (Shape_offset s offset) = node_wf s.
Proof.
  assert (Hwf : Shape_wf (Shape_offset s offset) = Shape_wf s).
  { destruct s as [c|e|r|ln|p|p|p|t|c]; try reflexivity.
    cbn [Shape_offset Shape_wf]. unfold LineChart_wf, LineChart_offset.
    cbn [LineChart_polylines].
    induction (LineChart_polylines c) as [|p ps IH]; [reflexivity|].
    cbn [map forallb]. rewrite IH. f_equal.
    cbn [Polyline_offset Polyline_points]. now destruct (Polyline_points p). }
  assert (Hm : Shape_as_Markerable (Shape_offset s offset) = Shape_as_Markerable s)
    by (now destruct s).
  assert (Hst : Shape_strokes (Shape_offset s offset) = Shape_strokes s).
  { destruct s as [c|e|r|ln|p|p|p|t|c]; try reflexivity.
    cbn [Shape_offset Shape_strokes LineChart_offset LineChart_axis_stroke
         LineChart_polylines]. f_equal. rewrite map_map. reflexivity. }
  assert (Htx : Shape_texts (Shape_offset s offset) = Shape_texts s).
  { destruct s as [c|e|r|ln|p|p|p|t|c]; try reflexivity.
    cbn [Shape_offset Shape_texts LineChart_offset LineChart_polylines].
    induction (LineChart_polylines c) as [|p ps IH]; [reflexivity|].
    cbn [map flat_map]. now rewrite IH. }
  assert (Hb : Shape_base (Shape_offset s offset) = Shape_base s)
    by (now destruct s).
  split; [exact Hb|]. split; [unfold Shape_getZ; now rewrite Hb|].
  split; [exact Hm|]. split; [exact Hst|]. split; [exact Htx|].
  split; [exact Hwf|]. unfold node_wf. now rewrite Hwf, Hm.
Qed.

Lemma plain_app (a b : string) : plain (a ++ b) = plain a && plain b.
Proof. apply all_chars_app. Qed.

Lemma count_app (c : ascii) (a b : string) :
  count c (a ++ b) = (count c a + count c b)%nat.
Proof.
  induction a as [|x a IH]; [reflexivity|].
  cbn [append count]. rewrite IH. apply Nat.add_assoc.
Qed.

Lemma plain_count (s : string) :
  plain s = true -> count "<" s = O /\ count ">" s = O.
Proof.
  induction s as [|x s IH]; [now split|].
  unfold plain. cbn [all_chars count]. intros H.
  apply andb_true_iff in H. destruct H as [Hx Hs].
  destruct (IH Hs) as [-> ->]. unfold plain_char in Hx.
  apply andb_true_iff in Hx. destruct Hx as [H1 H2].
  apply negb_true_iff in H1, H2. now rewrite H1, H2.
Qed.

Lemma digit_plain (n : Z) : plain_char (Stream.digit n) = true.
Proof.
  assert (H : (0 <= n mod 10 < 10)%Z) by (apply Z.mod_pos_bound; lia).
  unfold Stream.digit. remember (Z.to_nat (n mod 10)) as k eqn:Ek.
  assert (Hk : (k < 10)%nat) by lia. clear Ek H.
  do 10 (destruct k as [|k]; [reflexivity|]). lia.
Qed.

Lemma digits_from_plain (fuel : nat) (n : Z) (acc : string) :
  plain acc = true -> plain (Stream.digits_from fuel n acc) = true.
Proof.
  revert n acc. induction fuel as [|fuel IH]; intros n acc Hacc;
    cbn [Stream.digits_from]; [exact Hacc|].
  assert (H : plain (String (Stream.digit n) acc) = true).
  { unfold plain in *. cbn [all_chars]. now rewrite digit_plain, Hacc. }
  destruct (n / 10 =? 0)%Z; [exact H|now apply IH].
Qed.

Lemma digits_plain (n : Z) : plain (Stream.digits n) = true.
Proof. now apply digits_from_plain. Qed.

Lemma show_int_plain (n : Z) : plain (Stream.show_int n) = true.
Proof.
  unfold Stream.show_int. destruct (n <? 0)%Z; [|apply digits_plain].
  rewrite plain_app, digits_plain. reflexivity.
Qed.

Lemma zeros_plain (n : nat) : plain (Stream.zeros n) = true.
Proof. induction n as [|n IH]; [reflexivity|exact IH]. Qed.

Lemma fraction_plain (s : string) :
  plain s = true -> plain (Stream.fraction s) = true.
Proof.
  intros H. unfold Stream.fraction.
  destruct (String.eqb (Stream.strip_zeros s) ""); [reflexivity|].
  rewrite plain_app. cbn [andb]. now apply strip_zeros_all_chars.
Qed.

Lemma show_exponent_plain (X : Z) : plain (Stream.show_exponent X) = true.
Proof.
  unfold Stream.show_exponent. rewrite !plain_app, digits_plain.
  destruct (X <? 0)%Z, (Z.abs X <? 10)%Z; reflexivity.
Qed.

Lemma show_finite_plain (m e : Z) : plain (Stream.show_finite m e) = true.
Proof.
  unfold Stream.show_finite.
  destruct (Stream.six_digits _ _) as [D X].
  assert (Hd := digits_plain D).
  destruct ((-4 <=? X)%Z && (X <? 6)%Z); [destruct (0 <=? X)%Z|];
    rewrite ?plain_app.
  - rewrite fraction_plain by (now apply substring_all_chars).
    unfold plain. now rewrite substring_all_chars.
  - rewrite zeros_plain. unfold plain. now rewrite strip_zeros_all_chars.
  - rewrite fraction_plain by (now apply substring_all_chars).
    rewrite show_exponent_plain.
    unfold plain. now rewrite substring_all_chars.
Qed.

Lemma show_double_plain (x : float) : plain (show x) = true.
Proof.
  unfold show, Stream.show_double.
  destruct (Prim2SF x) as [s|s| |s m e]; try (destruct s; reflexivity); [reflexivity|].
  rewrite plain_app, show_finite_plain. now destruct s.
Qed.

Lemma attribute_plain (name value unit : string) :
  plain name = true -> plain value = true -> plain unit = true ->
  plain (attribute name value unit) = true.
Proof.
  intros Hn Hv Hu. unfold attribute. rewrite !plain_app, Hn, Hv, Hu. reflexivity.
Qed.

Lemma serializeId_plain (id : string) : plain id = true -> plain (serializeId id) = true.
Proof.
  intros H. unfold serializeId. destruct (String.eqb id ""); [reflexivity|].
  now apply attribute_plain.
Qed.

Lemma Color_toString_plain (l : Layout) (c : Color) : plain (Color_toString l c) = true.
Proof.
  unfold Color_toString. destruct (Color_transparent c); [reflexivity|].
  rewrite !plain_app, !show_int_plain. reflexivity.
Qed.

Lemma Stroke_dasharray_plain (dasharray : list Z) :
  plain (Stroke_dasharray_toString dasharray) = true.
Proof.
  induction dasharray as [|d rest IH]; [reflexivity|].
  cbn [Stroke_dasharray_toString]. rewrite plain_app, show_int_plain.
  destruct rest; [reflexivity|]. rewrite plain_app, IH. reflexivity.
Qed.

Ltac plain_tac :=
  repeat match goal with
  | |- plain (attribute _ _ _) = true => apply attribute_plain
  | |- plain (serializeId _) = true => apply serializeId_plain
  | |- plain (show _) = true => apply show_double_plain
  | |- plain (Stream.show_double _) = true => apply show_double_plain
  | |- plain (Stream.show_int _) = true => apply show_int_plain
  | |- plain (Color_toString _ _) = true => apply Color_toString_plain
  | |- plain (Stroke_dasharray_toString _) = true => apply Stroke_dasharray_plain
  | |- plain (if ?c then _ else _) = true => destruct c
  | |- plain (match ?x with [] => _ | _ :: _ => _ end) = true => destruct x
  | |- plain (_ ++ _) = true => rewrite plain_app; apply andb_true_intro; split
  | |- plain _ = true => first [assumption | reflexivity]
  end.

Lemma Stroke_toString_plain (l : Layout) (st : Stroke) : plain (Stroke_toString l st) = true.
Proof. unfold Stroke_toString. plain_tac. Qed.

Lemma Fill_toString_plain (l : Layout) (f : Fill) : plain (Fill_toString l f) = true.
Proof. unfold Fill_toString. plain_tac. Qed.

Lemma ShapeBase_toString_plain (l : Layout) (b : ShapeBase) :
  plain (Shape_style b) = true -> plain (ShapeBase_toString l b) = true.
Proof.
  intros H. unfold ShapeBase_toString.
  rewrite !plain_app, Stroke_toString_plain. cbn [andb].
  apply andb_true_intro. split; plain_tac.
Qed.

Lemma SurfaceShape_toString_plain (l : Layout) (s : SurfaceShape) :
  plain (Shape_style (SurfaceShape_shape s)) = true ->
  plain (SurfaceShape_toString l s) = true.
Proof.
  intros H. unfold SurfaceShape_toString.
  now rewrite plain_app, ShapeBase_toString_plain, Fill_toString_plain.
Qed.

Lemma marker_reference_plain (name : string) (p : option Marker) :
  plain name = true -> plain (pointer_id p) = true ->
  plain (marker_reference name p) = true.
Proof.
  intros Hn Hp. unfold marker_reference, marker_used.
  destruct p as [m|]; [|reflexivity].
  destruct (Marker_valid m); [|reflexivity].
  cbn [pointer_id] in Hp. rewrite !plain_app, Hn, Hp. reflexivity.
Qed.

Lemma Markerable_toString_plain (l : Layout) (m : Markerable) :
  Forall (fun t => plain t = true) (Markerable_texts m) ->
  plain (Markerable_toString l m) = true.
Proof.
  intros H. unfold Markerable_texts in H.
  inversion H as [|? ? H1 H']; subst. inversion H' as [|? ? H2 H'']; subst.
  inversion H'' as [|? ? H3 _]; subst.
  unfold Markerable_toString.
  rewrite !plain_app, !marker_reference_plain by (assumption || reflexivity).
  reflexivity.
Qed.

Lemma points_toString_plain (l : Layout) (points : list Point) :
  plain (points_toString l points) = true.
Proof.
  induction points as [|p rest IH]; [reflexivity|].
  cbn [points_toString]. unfold point_toString.
  rewrite !plain_app, !show_double_plain, IH. reflexivity.
Qed.

Lemma subpaths_toString_plain (l : Layout) (paths : list (list Point)) :
  plain (subpaths_toString l paths) = true.
Proof.
  induction paths as [|sub rest IH]; [reflexivity|].
  cbn [subpaths_toString]. destruct sub as [|p sub]; [exact IH|].
  rewrite !plain_app, points_toString_plain, IH. reflexivity.
Qed.

Lemma TextAnchor_toString_plain (a : TextAnchor) : plain (TextAnchor_toString a) = true.
Proof. destruct a; reflexivity. Qed.

Lemma DominantBaseline_toString_plain (b : DominantBaseline) :
  plain (DominantBaseline_toString b) = true.
Proof. destruct b; reflexivity. Qed.

Lemma Font_toString_plain (l : Layout) (f : Font) :
  plain (Font_family f) = true -> plain (Font_toString l f) = true.
Proof. intros H. unfold Font_toString. plain_tac. Qed.

Lemma ShapeBase_texts_plain (b : ShapeBase) (more : list string) :
  Forall (fun t => plain t = true) (ShapeBase_texts b ++ more) ->
  plain (Shape_id b) = true /\ plain (Shape_style b) = true /\
  Forall (fun t => plain t = true) more.
Proof.
  unfold ShapeBase_texts. cbn [app]. intros H.
  inversion H as [|? ? H1 H']; subst. inversion H' as [|? ? H2 H'']; subst.
  now repeat split.
Qed.

Lemma plain_count_lt (s : string) : plain s = true -> count "<" s = O.
Proof. intros H. now destruct (plain_count s H). Qed.

Lemma plain_count_gt (s : string) : plain s = true -> count ">" s = O.
Proof. intros H. now destruct (plain_count s H). Qed.

Ltac plain_shape_tac :=
  repeat match goal with
  | |- plain (SurfaceShape_toString _ _) = true => apply SurfaceShape_toString_plain
  | |- plain (ShapeBase_toString _ _) = true => apply ShapeBase_toString_plain
  | |- plain (Markerable_toString _ _) = true => apply Markerable_toString_plain
  | |- plain (Font_toString _ _) = true => apply Font_toString_plain
  | |- plain (points_toString _ _) = true => apply points_toString_plain
  | |- plain (subpaths_toString _ _) = true => apply subpaths_toString_plain
  | |- plain (TextAnchor_toString _) = true => apply TextAnchor_toString_plain
  | |- plain (DominantBaseline_toString _) = true =>
      apply DominantBaseline_toString_plain
  | |- plain _ = true => progress plain_tac
  end.

Ltac count_tac :=
  rewrite !count_app;
  repeat match goal with
  | |- context [count "<" ?s] =>
      rewrite (plain_count_lt s) by (solve [plain_shape_tac; assumption])
  | |- context [count ">" ?s] =>
      rewrite (plain_count_gt s) by (solve [plain_shape_tac; assumption])
  end.

(** X11: every shape other than a chart is written, without an
    exception, as one element: the text starts with a tab, the opening
    bracket and the name of the element, and ends with the closing of that
    element and a line break; and when none of the strings of the caller
    that are copied into it (id, style, ids of the markers pointed to, text
    content, font family) holds an angle bracket, the text holds one
    opening and one closing bracket, those of the element (two of each for
    a text, whose content stands between an opening and a closing tag). *)
Theorem Shape_one_element (l : Layout) (s : Shape) :
  Shape_is_chart s = false ->
  exists out,
    Shape_toString l s = Ok out /\
    is_prefix (elemStart (Shape_element s) false) out = true /\
    ends_with out (Shape_closing s) = true /\
    (Forall (fun t => plain t = true) (Shape_texts s) ->
     count "<" out = match s with Shape_Text _ => 2 | _ => 1 end%nat /\
     count ">" out = match s with Shape_Text _ => 2 | _ => 1 end%nat).
Proof.
  intros Hs. destruct s as [c|e|r|ln|p|p|p|t|c]; try discriminate;
    eexists; (split; [reflexivity|]); cbn [Shape_element Shape_closing];
    (split; [apply is_prefix_self_app|]).
  - split; [unfold Circle_toString; rewrite <- !append_assoc; apply ends_with_append|].
    intros H. cbn [Shape_texts Shape_base] in H.
    rewrite <- (app_nil_r (ShapeBase_texts _)) in H.
    apply ShapeBase_texts_plain in H. destruct H as (Hid & Hst & _).
    unfold Circle_toString, SurfaceShape_id. split; count_tac; reflexivity.
  - split; [unfold Elipse_toString; rewrite <- !append_assoc; apply ends_with_append|].
    intros H. cbn [Shape_texts Shape_base] in H.
    rewrite <- (app_nil_r (ShapeBase_texts _)) in H.
    apply ShapeBase_texts_plain in H. destruct H as (Hid & Hst & _).
    unfold Elipse_toString, SurfaceShape_id. split; count_tac; reflexivity.
  - split; [unfold Rectangle_toString; rewrite <- !append_assoc; apply ends_with_append|].
    intros H. cbn [Shape_texts Shape_base] in H.
    rewrite <- (app_nil_r (ShapeBase_texts _)) in H.
    apply ShapeBase_texts_plain in H. destruct H as (Hid & Hst & _).
    unfold Rectangle_toString, SurfaceShape_id. split; count_tac; reflexivity.
  - split; [unfold Line_toString; rewrite <- !append_assoc; apply ends_with_append|].
    intros H. cbn [Shape_texts] in H.
    apply ShapeBase_texts_plain in H. destruct H as (Hid & Hst & Hm).
    unfold Line_toString. split; count_tac; reflexivity.
  - split; [unfold Polygon_toString; rewrite <- !append_assoc; apply ends_with_append|].
    intros H. cbn [Shape_texts Shape_base] in H.
    rewrite <- (app_nil_r (ShapeBase_texts _)) in H.
    apply ShapeBase_texts_plain in H. destruct H as (Hid & Hst & _).
    unfold Polygon_toString, SurfaceShape_id. split; count_tac; reflexivity.
  - split; [unfold Path_toString; rewrite <- !append_assoc; apply ends_with_append|].
    intros H. cbn [Shape_texts Shape_base] in H.
    rewrite <- (app_nil_r (ShapeBase_texts _)) in H.
    apply ShapeBase_texts_plain in H. destruct H as (Hid & Hst & _).
    unfold Path_toString, SurfaceShape_id. split; count_tac; reflexivity.
  - split; [unfold Polyline_toString; rewrite <- !append_assoc; apply ends_with_append|].
    intros H. cbn [Shape_texts] in H. unfold Polyline_texts in H.
    apply ShapeBase_texts_plain in H. destruct H as (Hid & Hst & Hm).
    unfold Polyline_toString. split; count_tac; reflexivity.
  - split; [unfold Text_toString; rewrite <- !append_assoc; apply ends_with_append|].
    intros H. cbn [Shape_texts] in H.
    apply ShapeBase_texts_plain in H. destruct H as (Hid & Hst & Hm).
    inversion Hm as [|? ? Hcontent Hm']; subst.
    inversion Hm' as [|? ? Hfamily _]; subst.
    unfold Text_toString, SurfaceShape_id. split; count_tac; reflexivity.
Qed.

Lemma Shape_one_element_witness :
  exists out,
    Shape_toString Layout_default (Shape_Circle unit_circle) = Ok out /\
    is_prefix (elemStart "circle" false) out = true /\
    ends_with out emptyElemEnd = true /\
    (count "<" out = 1 /\ count ">" out = 1)%nat.
Proof.
  destruct (Shape_one_element Layout_default (Shape_Circle unit_circle) eq_refl)
    as (out & Hout & Hpre & Hend & Hcount).
  exists out. split; [exact Hout|]. split; [exact Hpre|]. split; [exact Hend|].
  apply Hcount. repeat constructor.
Defined.

(** ** Style primitives *)

(** X12: a colour made from a default has its three components between 0
    and 255, whatever rand() returns; it is transparent, and written as
    none, exactly for the default Transparent. *)
Theorem Color_of_range (color : Defaults) (rand : Z * Z * Z) (l : Layout) :
  let c := Color_of color rand in
  (0 <= Color_red c <= 255)%Z /\ (0 <= Color_green c <= 255)%Z /\
  (0 <= Color_blue c <= 255)%Z /\
  (Color_transparent c = true <-> color = Transparent) /\
  (Color_toString l c = "none" <-> color = Transparent).
Proof.
  destruct rand as [[r g] b].
  assert (Hr := Z.mod_pos_bound r 256 eq_refl).
  assert (Hg := Z.mod_pos_bound g 256 eq_refl).
  assert (Hb := Z.mod_pos_bound b 256 eq_refl).
  destruct color; cbn [Color_of Color_assign Color_red Color_green Color_blue
                       Color_transparent];
    (split; [lia|]); (split; [lia|]); (split; [lia|]);
    unfold Color_toString; cbn [Color_transparent Color_assign];
    split; split; intros H; try reflexivity; try discriminate.
Qed.

(** X13: a stroke serializes to the empty string exactly when its width
    is below 0 (a width that is not a number is written); otherwise the
    text starts with stroke-width and holds the stroke colour and the dash
    offset. *)
Theorem Stroke_toString_empty_iff (l : Layout) (st : Stroke) :
  (Stroke_toString l st = "" <-> (Stroke_width st <? 0) = true) /\
  ((Stroke_width st <? 0) = false ->
   is_prefix ("stroke-width=" ++ dq) (Stroke_toString l st) = true /\
   contains ("stroke=" ++ dq) (Stroke_toString l st) = true /\
   contains ("stroke-dashoffset=" ++ dq) (Stroke_toString l st) = true).
Proof.
  unfold Stroke_toString. destruct (Stroke_width st <? 0) eqn:E.
  - split; [split; reflexivity|discriminate].
  - split; [split; intros H; discriminate|]. intros _. split; [reflexivity|]. split.
    + apply contains_app_r, contains_app_l, contains_prefix. reflexivity.
    + do 3 apply contains_app_r. apply contains_app_l, contains_prefix. reflexivity.
Qed.

Lemma Stroke_toString_empty_iff_witness :
  is_prefix ("stroke-width=" ++ dq)
    (Stroke_toString Layout_default (Stroke_of nan (Color_of Black no_rand))) = true.
Proof.
  apply (proj2 (Stroke_toString_empty_iff Layout_default
                  (Stroke_of nan (Color_of Black no_rand)))).
  reflexivity.
Defined.

(** X14: the dash array is written as its numbers joined by commas,
    without a comma at either end. *)
Theorem Stroke_dasharray_joined (dasharray : list Z) :
  Stroke_dasharray_toString dasharray =
  String.concat "," (map Stream.show_int dasharray).
Proof.
  induction dasharray as [|d rest IH]; [reflexivity|].
  cbn [Stroke_dasharray_toString map String.concat].
  destruct rest as [|d' rest]; [apply append_nil_r|].
  now rewrite IH.
Qed.

(** ** Extreme points *)

(** X15: getMinPoint and getMaxPoint are invalid exactly on an empty
    vector; otherwise no point of the vector has a coordinate below the
    minimum or above the maximum, and each coordinate of the result is
    that coordinate of a point of the vector. *)
Theorem extreme_points_bound (points : list Point) :
  (getMinPoint points = None <-> points = []) /\
  (getMaxPoint points = None <-> points = []) /\
  (forall min, getMinPoint points = Some min ->
     (forall p, In p points ->
        (Point_x p <? Point_x min) = false /\ (Point_y p <? Point_y min) = false) /\
     In (Point_x min) (map Point_x points) /\ In (Point_y min) (map Point_y points)) /\
  (forall max, getMaxPoint points = Some max ->
     (forall p, In p points ->
        (Point_x max <? Point_x p) = false /\ (Point_y max <? Point_y p) = false) /\
     In (Point_x max) (map Point_x points) /\ In (Point_y max) (map Point_y points)).
Proof.
  split; [destruct points; split; intros; (reflexivity || discriminate)|].
  split; [destruct points; split; intros; (reflexivity || discriminate)|].
  split.
  - intros min H. destruct points as [|p0 rest]; [discriminate|].
    change (Some (getMinPoint_loop (p0 :: rest) p0) = Some min) in H.
    assert (Hp0 : In p0 (p0 :: rest)) by now left.
    revert H Hp0. generalize (p0 :: rest). intros l H Hp0.
    injection H as <-.
    rewrite getMinPoint_loop_x, getMinPoint_loop_y.
    split; [|split].
    + intros p Hp.
      pose proof (running_extreme_bound (fun v m => v <? m) ltb_irrefl ltb_below []
                    (map Point_x l) (Point_x p0) (fun s (F : In s []) => match F with end)
                    (Point_x p) (in_map Point_x l p Hp)) as Hx.
      pose proof (running_extreme_bound (fun v m => v <? m) ltb_irrefl ltb_below []
                    (map Point_y l) (Point_y p0) (fun s (F : In s []) => match F with end)
                    (Point_y p) (in_map Point_y l p Hp)) as Hy.
      split; [exact Hx|exact Hy].
    + destruct (running_extreme_member (fun v m => v <? m)
                  (map Point_x l) (Point_x p0)) as [H|H]; [|exact H].
      cbv beta in H. rewrite H. now apply in_map.
    + destruct (running_extreme_member (fun v m => v <? m)
                  (map Point_y l) (Point_y p0)) as [H|H]; [|exact H].
      cbv beta in H. rewrite H. now apply in_map.
  - intros max H. destruct points as [|p0 rest]; [discriminate|].
    change (Some (getMaxPoint_loop (p0 :: rest) p0) = Some max) in H.
    assert (Hp0 : In p0 (p0 :: rest)) by now left.
    revert H Hp0. generalize (p0 :: rest). intros l H Hp0.
    injection H as <-.
    rewrite getMaxPoint_loop_x, getMaxPoint_loop_y.
    split; [|split].
    + intros p Hp.
      pose proof (running_extreme_bound (fun v m => m <? v) ltb_irrefl
                    (fun p q m => ltb_above p q m) []
                    (map Point_x l) (Point_x p0) (fun s (F : In s []) => match F with end)
                    (Point_x p) (in_map Point_x l p Hp)) as Hx.
      pose proof (running_extreme_bound (fun v m => m <? v) ltb_irrefl
                    (fun p q m => ltb_above p q m) []
                    (map Point_y l) (Point_y p0) (fun s (F : In s []) => match F with end)
                    (Point_y p) (in_map Point_y l p Hp)) as Hy.
      split; [exact Hx|exact Hy].
    + destruct (running_extreme_member (fun v m => m <? v)
                  (map Point_x l) (Point_x p0)) as [H|H]; [|exact H].
      cbv beta in H. rewrite H. now apply in_map.
    + destruct (running_extreme_member (fun v m => m <? v)
                  (map Point_y l) (Point_y p0)) as [H|H]; [|exact H].
      cbv beta in H. rewrite H. now apply in_map.
Qed.

Lemma extreme_points_bound_witness :
  (Point_x (mkPoint 3 4) <? 1) = false.
Proof.
  apply (proj1 (proj1 (proj2 (proj2 (extreme_points_bound [mkPoint 3 4; mkPoint 1 7])))
           (mkPoint 1 4) eq_refl) (mkPoint 3 4)).
  now left.
Defined.

(** ** Line charts *)

Lemma LineChart_push_fold (ps : list Polyline) (c : LineChart) :
  fold_left LineChart_push ps c =
  mkLineChart (LineChart_base c) (LineChart_axis_stroke c) (LineChart_margin c)
    (LineChart_polylines c ++ filter (fun p => non_empty (Polyline_points p)) ps)%list.
Proof.
  revert c. induction ps as [|p ps IH]; intros c.
  - destruct c. cbn. now rewrite app_nil_r.
  - cbn [fold_left filter]. rewrite IH. unfold LineChart_push.
    destruct (Polyline_points p) as [|p0 pts]; cbn [non_empty]; [reflexivity|].
    cbn [LineChart_base LineChart_axis_stroke LineChart_margin LineChart_polylines].
    now rewrite <- app_assoc.
Qed.

(** X16: pushing polylines into a chart appends those that have points,
    in the order given, drops the others, and leaves the rest of the
    chart as it was. *)
Theorem LineChart_push_filters (ps : list Polyline) (c : LineChart) :
  LineChart_polylines (fold_left LineChart_push ps c) =
    (LineChart_polylines c ++ filter (fun p => non_empty (Polyline_points p)) ps)%list /\
  LineChart_base (fold_left LineChart_push ps c) = LineChart_base c /\
  LineChart_axis_stroke (fold_left LineChart_push ps c) = LineChart_axis_stroke c /\
  LineChart_margin (fold_left LineChart_push ps c) = LineChart_margin c.
Proof. rewrite LineChart_push_fold. repeat split. Qed.

Lemma LineChart_built_wf (c : LineChart) : LineChart_built c -> LineChart_wf c = true.
Proof.
  induction 1 as [margin axis|c p _ IH|c offset _ IH|c b _ IH].
  - apply LineChart_new_wf.
  - now apply LineChart_push_wf.
  - now apply LineChart_offset_wf.
  - exact IH.
Qed.

(** X17: a chart made with the constructor, operator<<, offset and the
    setters of Shape serializes without an exception, whatever the
    layout; it gives the empty string when it holds no polyline. *)
Theorem LineChart_built_serializes (c : LineChart) (l : Layout) :
  LineChart_built c ->
  exists s, LineChart_toString l c = Ok s /\ (LineChart_polylines c = [] -> s = "").
Proof.
  intros Hb. destruct (LineChart_toString_Ok l c (LineChart_built_wf c Hb)) as [s Hs].
  exists s. split; [exact Hs|]. intros E. unfold LineChart_toString in Hs.
  rewrite E in Hs. now injection Hs as <-.
Qed.

Lemma LineChart_built_serializes_witness :
  exists s, LineChart_toString top_left_layout chart_example = Ok s /\
            (LineChart_polylines chart_example = [] -> s = "").
Proof.
  apply (LineChart_built_serializes chart_example top_left_layout).
  apply LineChart_built_push, LineChart_built_new.
Defined.

(** ** Identifiers *)

Lemma alphanum_at_alphanum (r : Z) :
  existsb (Ascii.eqb (alphanum_at r)) (list_ascii_of_string alphanum) = true.
Proof.
  unfold alphanum_at.
  assert (H : (Z.to_nat ((r mod 2 ^ 32) mod 62) < 62)%nat).
  { pose proof (Z.mod_pos_bound (r mod 2 ^ 32) 62 ltac:(lia)). lia. }
  revert H. generalize (Z.to_nat ((r mod 2 ^ 32) mod 62)). intros n H.
  do 62 (destruct n as [|n]; [reflexivity|]). lia.
Qed.

Lemma Identifiable_random_from_alphanum (rand : nat -> Z) (len first : nat) :
  String.length (Identifiable_random_from rand first len) = len /\
  all_chars (fun c => existsb (Ascii.eqb c) (list_ascii_of_string alphanum))
    (Identifiable_random_from rand first len) = true.
Proof.
  revert first. induction len as [|len IH]; intros first; [now split|].
  cbn [Identifiable_random_from String.length all_chars].
  destruct (IH (S first)) as [Hl Hc]. rewrite Hl, Hc, alphanum_at_alphanum.
  now split.
Qed.

(** X18: whatever rand() returns, Identifiable::random(len) is a string
    of len characters, each a digit or a letter of the table. *)
Theorem Identifiable_random_alphanumeric (rand : nat -> Z) (len : nat) :
  String.length (Identifiable_random rand len) = len /\
  all_chars (fun c => existsb (Ascii.eqb c) (list_ascii_of_string alphanum))
    (Identifiable_random rand len) = true.
Proof. apply Identifiable_random_from_alphanum. Qed.

(** ** Marker orientation *)

(** X19: setOrientation takes the strings auto and auto-start-reverse and
    throws on every other one, leaving the marker as it was; the
    constructor takes any string, and toString writes it as the orient
    attribute. *)
Theorem Marker_orientation_checked (o : string) :
  (forall m, o = "auto" \/ o = "auto-start-reverse" ->
     exists m', Marker_setOrientation m o = Ok m' /\ Marker_orient m' = o /\
       Marker_getId m' = Marker_getId m /\ Marker_shapes m' = Marker_shapes m /\
       Marker_marker_width m' = Marker_marker_width m /\
       Marker_marker_height m' = Marker_marker_height m /\
       Marker_ref_x m' = Marker_ref_x m /\ Marker_ref_y m' = Marker_ref_y m) /\
  (forall m, o <> "auto" -> o <> "auto-start-reverse" ->
     Marker_setOrientation m o = Throw Marker_bad_orientation) /\
  (forall id w h x y shape l s,
     Marker_toString l (Marker_of id w h x y shape o) = Ok s ->
     contains (attribute "orient" o "") s = true).
Proof.
  split; [|split].
  - intros m Ho.
    exists (mkMarker (Marker_getId m) (Marker_shapes m) (Marker_marker_width m)
              (Marker_marker_height m) (Marker_ref_x m) (Marker_ref_y m) o).
    split; [|repeat split].
    unfold Marker_setOrientation. destruct Ho as [-> | ->]; reflexivity.
  - intros m H1 H2. unfold Marker_setOrientation.
    destruct (String.eqb_spec o "auto"); [contradiction|].
    destruct (String.eqb_spec o "auto-start-reverse"); [contradiction|]. reflexivity.
  - intros id w h x y shape l s. unfold Marker_toString, Marker_of, Marker_valid.
    cbn [Marker_getId Marker_shapes Marker_marker_width Marker_marker_height
         Marker_ref_x Marker_ref_y Marker_orient].
    destruct (String.eqb id ""); [discriminate|]. cbn [negb].
    destruct (Marker_shapes_toString [shape]) as [body|e]; [|discriminate].
    cbn [bind]. intros H.
    match type of H with
    | Ok ?e = Ok _ => assert (E : s = e) by (now injection H)
    end.
    rewrite E. do 7 apply contains_app_r.
    apply contains_prefix, is_prefix_self_app.
Qed.

Lemma Marker_orientation_checked_witness :
  Marker_setOrientation dot_marker "sideways" = Throw Marker_bad_orientation /\
  exists s,
    Marker_toString Layout_default
      (Marker_of "dot" 4 4 2 2 (Shape_Circle unit_circle) "sideways") = Ok s /\
    contains (attribute "orient" "sideways" "") s = true.
Proof.
  split.
  - apply (proj1 (proj2 (Marker_orientation_checked "sideways")) dot_marker);
      discriminate.
  - eexists. split; [vm_compute; reflexivity|].
    apply (proj2 (proj2 (Marker_orientation_checked "sideways"))
             "dot" 4 4 2 2 (Shape_Circle unit_circle) Layout_default).
    vm_compute. reflexivity.
Defined.

(** ** The order of strings *)

Lemma Ascii_compare_refl (a : ascii) : Ascii.compare a a = Eq.
Proof. unfold Ascii.compare. apply N.compare_refl. Qed.

Lemma Ascii_compare_lt_trans (a b c : ascii) :
  Ascii.compare a b = Lt -> Ascii.compare b c = Lt -> Ascii.compare a c = Lt.
Proof.
  unfold Ascii.compare. rewrite !N.compare_lt_iff. apply N.lt_trans.
Qed.

Lemma String_compare_refl (s : string) : String.compare s s = Eq.
Proof.
  induction s as [|c s IH]; [reflexivity|].
  cbn [String.compare]. now rewrite Ascii_compare_refl.
Qed.

Lemma String_compare_lt_trans (a b c : string) :
  String.compare a b = Lt -> String.compare b c = Lt -> String.compare a c = Lt.
Proof.
  revert b c. induction a as [|x a IH]; intros [|y b] [|z c]; cbn [String.compare];
    try discriminate; try reflexivity.
  destruct (Ascii.compare x y) eqn:Exy; try discriminate;
    destruct (Ascii.compare y z) eqn:Eyz; try discriminate.
  - apply Ascii.compare_eq_iff in Exy, Eyz. subst.
    rewrite Ascii_compare_refl. apply IH.
  - apply Ascii.compare_eq_iff in Exy. subst. now rewrite Eyz.
  - apply Ascii.compare_eq_iff in Eyz. subst. now rewrite Exy.
  - now rewrite (Ascii_compare_lt_trans x y z Exy Eyz).
Qed.

Lemma String_ltb_irrefl (s : string) : String.ltb s s = false.
Proof. unfold String.ltb. now rewrite String_compare_refl. Qed.

Lemma String_ltb_trans (a b c : string) :
  String.ltb a b = true -> String.ltb b c = true -> String.ltb a c = true.
Proof.
  unfold String.ltb. intros Hab Hbc.
  destruct (String.compare a b) eqn:Eab; try discriminate.
  destruct (String.compare b c) eqn:Ebc; try discriminate.
  now rewrite (String_compare_lt_trans a b c Eab Ebc).
Qed.

Lemma String_ltb_total (a b : string) :
  String.ltb a b = false -> String.ltb b a = false -> a = b.
Proof.
  unfold String.ltb. destruct (String.compare a b) eqn:E; try discriminate.
  - intros _ _. now apply String.compare_eq_iff.
  - rewrite (String.compare_antisym b a), E. discriminate.
Qed.

(** ** Sorting by a strict total order *)

Section TotalSort.

Context {A : Type}.
Variable less : A -> A -> bool.
Hypothesis less_irrefl : forall a, less a a = false.
Hypothesis less_trans : forall a b c, less a b = true -> less b c = true -> less a c = true.
Hypothesis less_total : forall a b, less a b = false -> less b a = false -> a = b.

Lemma less_asym (a b : A) : less a b = true -> less b a = false.
Proof.
  intros H. destruct (less b a) eqn:E; [|reflexivity].
  pose proof (less_irrefl a) as F. now rewrite (less_trans a b a H E) in F.
Qed.

Lemma insert_sorted_two (a b : A) :
  insert_sorted less a [b] = insert_sorted less b [a].
Proof.
  cbn [insert_sorted].
  destruct (less b a) eqn:Eba.
  - now rewrite (less_asym b a Eba).
  - destruct (less a b) eqn:Eab; [reflexivity|].
    now rewrite (less_total a b Eab Eba).
Qed.

Lemma insert_sorted_comm (a b : A) (s : list A) :
  insert_sorted less a (insert_sorted less b s) =
  insert_sorted less b (insert_sorted less a s).
Proof.
  induction s as [|x s IH]; [apply insert_sorted_two|].
  cbn [insert_sorted].
  destruct (less x b) eqn:Exb; destruct (less x a) eqn:Exa; cbn [insert_sorted].
  - rewrite Exa, Exb. now rewrite IH.
  - rewrite Exa.
    assert (Hab : less a b = true).
    { destruct (less a x) eqn:Eax; [now apply (less_trans a x b)|].
      now rewrite (less_total a x Eax Exa). }
    rewrite Hab. cbn [insert_sorted]. now rewrite Exb.
  - rewrite Exb.
    assert (Hba : less b a = true).
    { destruct (less b x) eqn:Ebx; [now apply (less_trans b x a)|].
      now rewrite (less_total b x Ebx Exb). }
    rewrite Hba. cbn [insert_sorted]. now rewrite Exa.
  - destruct (less b a) eqn:Eba.
    + rewrite (less_asym b a Eba). cbn [insert_sorted]. now rewrite Exa.
    + destruct (less a b) eqn:Eab.
      * cbn [insert_sorted]. now rewrite Exb.
      * now rewrite (less_total a b Eab Eba).
Qed.

Lemma stable_sort_Permutation (l l' : list A) :
  Permutation l l' -> stable_sort less l = stable_sort less l'.
Proof.
  unfold stable_sort. induction 1 as [|x l l' _ IH|x y l|l l' l'' _ IH1 _ IH2].
  - reflexivity.
  - cbn [fold_right]. now rewrite IH.
  - cbn [fold_right]. apply insert_sorted_comm.
  - now rewrite IH1.
Qed.

End TotalSort.

Lemma mapM_Permutation {A B : Type} (f : A -> result B) (g : A -> B) (l l' : list A) :
  (forall a, In a l -> f a = Ok (g a)) -> Permutation l l' ->
  mapM f l = Ok (map g l) /\ mapM f l' = Ok (map g l').
Proof.
  intros Hf Hp.
  assert (H : forall k, (forall a, In a k -> f a = Ok (g a)) -> mapM f k = Ok (map g k)).
  { induction k as [|a k IH]; intros Hk; [reflexivity|].
    cbn [mapM map]. rewrite (Hk a (or_introl eq_refl)). cbn [bind].
    rewrite IH; [reflexivity|]. intros x Hx. apply Hk. now right. }
  split; apply H; [exact Hf|].
  intros a Ha. apply Hf. apply Permutation_sym in Hp.
  exact (Permutation_in a Hp Ha).
Qed.

(** ** The set of used markers *)

Lemma MarkerSet_insert_sorted (m : Marker) (s : MarkerSet) :
  StronglySorted Marker_id_lt s -> StronglySorted Marker_id_lt (MarkerSet_insert m s).
Proof.
  induction s as [|x s IH]; intros Hs; cbn [MarkerSet_insert].
  - repeat constructor.
  - inversion Hs as [|? ? Hs' Hx]; subst.
    destruct (compareMarker m x) eqn:Emx.
    + constructor; [exact Hs|]. constructor; [exact Emx|].
      eapply Forall_impl; [|exact Hx]. intros y Hy.
      exact (String_ltb_trans _ _ _ Emx Hy).
    + destruct (compareMarker x m) eqn:Exm; [|exact Hs].
      constructor; [now apply IH|].
      rewrite Forall_forall in *. intros y Hy.
      apply MarkerSet_insert_In in Hy. destruct Hy as [->|Hy]; [exact Exm|auto].
Qed.

Lemma MarkerSet_insert_keeps (m x : Marker) (s : MarkerSet) :
  In x s -> In x (MarkerSet_insert m s).
Proof.
  induction s as [|y s IH]; intros H; [destruct H|].
  cbn [MarkerSet_insert]. destruct (compareMarker m y); [now right|].
  destruct (compareMarker y m); [|exact H].
  destruct H as [->|H]; [now left|right; auto].
Qed.

Lemma MarkerSet_insert_has (m : Marker) (s : MarkerSet) :
  exists y, In y (MarkerSet_insert m s) /\ Marker_getId y = Marker_getId m.
Proof.
  induction s as [|x s IH]; cbn [MarkerSet_insert].
  - exists m. split; [now left|reflexivity].
  - destruct (compareMarker m x) eqn:Emx.
    + exists m. split; [now left|reflexivity].
    + destruct (compareMarker x m) eqn:Exm.
      * destruct IH as (y & Hy & Hid). exists y. split; [now right|exact Hid].
      * exists x. split; [now left|]. symmetry. now apply String_ltb_total.
Qed.

Lemma Marker_id_lt_NoDup (s : MarkerSet) :
  StronglySorted Marker_id_lt s -> NoDup (map Marker_getId s).
Proof.
  induction 1 as [|x s _ IH Hx]; cbn [map]; constructor; [|exact IH].
  intros Hin. apply in_map_iff in Hin. destruct Hin as (y & Hid & Hy).
  rewrite Forall_forall in Hx. specialize (Hx y Hy). unfold Marker_id_lt in Hx.
  rewrite Hid, String_ltb_irrefl in Hx. discriminate.
Qed.

Lemma insert_fold_set (markers : list Marker) (all : MarkerSet) :
  StronglySorted Marker_id_lt all ->
  StronglySorted Marker_id_lt (fold_left (fun s i => MarkerSet_insert i s) markers all) /\
  (forall x, In x all -> In x (fold_left (fun s i => MarkerSet_insert i s) markers all)) /\
  (forall x, In x markers ->
     exists y, In y (fold_left (fun s i => MarkerSet_insert i s) markers all) /\
               Marker_getId y = Marker_getId x).
Proof.
  revert all. induction markers as [|i rest IH]; intros all Hs; cbn [fold_left].
  - split; [exact Hs|]. split; [auto|intros x []].
  - destruct (IH (MarkerSet_insert i all) (MarkerSet_insert_sorted i all Hs))
      as (Hsorted & Hkeep & Hcover).
    split; [exact Hsorted|]. split.
    + intros x Hx. now apply Hkeep, MarkerSet_insert_keeps.
    + intros x [<-|Hx]; [|now apply Hcover].
      destruct (MarkerSet_insert_has i all) as (y & Hy & Hid).
      exists y. split; [now apply Hkeep|exact Hid].
Qed.

Lemma insert_if_used_fold (p : option Marker) (s : MarkerSet) :
  insert_if_used p s =
  fold_left (fun s i => MarkerSet_insert i s)
    (match marker_used p with Some x => [x] | None => [] end) s.
Proof. unfold insert_if_used. now destruct (marker_used p). Qed.

Lemma getUsedMarkers_fold (m : Markerable) :
  Markerable_getUsedMarkers m =
  fold_left (fun s i => MarkerSet_insert i s) (Markerable_referenced m) [].
Proof.
  unfold Markerable_getUsedMarkers, Markerable_referenced. cbn [flat_map].
  rewrite app_nil_r, !fold_left_app, !insert_if_used_fold. reflexivity.
Qed.

(** X20: the markers a shape uses form a set ordered by id: the ids
    ascend strictly, so none occurs twice; each element is a valid marker
    the shape points to, and the id of every valid marker the shape points
    to is the id of an element. *)
Theorem getUsedMarkers_set (m : Markerable) :
  StronglySorted Marker_id_lt (Markerable_getUsedMarkers m) /\
  NoDup (map Marker_getId (Markerable_getUsedMarkers m)) /\
  (forall x, In x (Markerable_getUsedMarkers m) ->
     Marker_valid x = true /\
     In (Some x) [Markerable_start m; Markerable_mid m; Markerable_end m]) /\
  (forall p x, In p [Markerable_start m; Markerable_mid m; Markerable_end m] ->
     p = Some x -> Marker_valid x = true ->
     exists y, In y (Markerable_getUsedMarkers m) /\ Marker_getId y = Marker_getId x).
Proof.
  assert (Href : forall x, In x (Markerable_referenced m) <->
            Marker_valid x = true /\
            In (Some x) [Markerable_start m; Markerable_mid m; Markerable_end m]).
  { intros x. unfold Markerable_referenced. rewrite in_flat_map. split.
    - intros (p & Hp & Hx). unfold marker_used in Hx.
      destruct p as [y|]; [|destruct Hx].
      destruct (Marker_valid y) eqn:Hv; [|destruct Hx].
      destruct Hx as [<-|[]]. now split.
    - intros [Hv Hin]. exists (Some x). split; [exact Hin|].
      unfold marker_used. rewrite Hv. now left. }
  destruct (insert_fold_set (Markerable_referenced m) [] (SSorted_nil _))
    as (Hsorted & _ & Hcover).
  rewrite <- getUsedMarkers_fold in Hsorted, Hcover.
  split; [exact Hsorted|]. split; [now apply Marker_id_lt_NoDup|]. split.
  - intros x Hx. now apply Href, getUsedMarkers_referenced.
  - intros p x Hp -> Hv. apply Hcover, Href. now split.
Qed.

Lemma getUsedMarkers_set_witness :
  exists y, In y (Markerable_getUsedMarkers (mkMarkerable (Some circle_marker) None
                                               (Some square_marker))) /\
            Marker_getId y = Marker_getId square_marker.
Proof.
  apply (proj2 (proj2 (proj2 (getUsedMarkers_set
           (mkMarkerable (Some circle_marker) None (Some square_marker)))))
           (Some square_marker) square_marker).
  - right. right. now left.
  - reflexivity.
  - reflexivity.
Defined.







(** ** Comparing markers *)

(** X22: Marker::operator!= does not depend on the order of the shapes
    of either marker, nor on the ids and orientations. *)
Theorem Marker_neq_any_order (a a' b : Marker) :
  Marker_wf a = true ->
  Permutation (Marker_shapes a) (Marker_shapes a') ->
  Marker_marker_width a' = Marker_marker_width a ->
  Marker_marker_height a' = Marker_marker_height a ->
  Marker_ref_x a' = Marker_ref_x a ->
  Marker_ref_y a' = Marker_ref_y a ->
  Marker_neq a' b = Marker_neq a b /\ Marker_neq b a' = Marker_neq b a.
Proof.
  intros Hwf Hp Hw Hh Hx Hy. unfold Marker_neq. rewrite Hw, Hh, Hx, Hy.
  rewrite <- (Permutation_length Hp).
  set (g := fun s => match Shape_toString Layout_default s with
                     | Ok str => str
                     | Throw _ => ""
                     end).
  destruct (mapM_Permutation (Shape_toString Layout_default) g
              (Marker_shapes a) (Marker_shapes a')) as [Ea Ea']; [|exact Hp|].
  { intros s Hs. unfold g.
    destruct (Shape_toString_Ok Layout_default s) as [str ->]; [|reflexivity].
    unfold Marker_wf in Hwf. rewrite forallb_forall in Hwf. now apply Hwf. }
  assert (Es : stable_sort String.ltb (map g (Marker_shapes a')) =
               stable_sort String.ltb (map g (Marker_shapes a))).
  { apply (stable_sort_Permutation String.ltb String_ltb_irrefl String_ltb_trans
             String_ltb_total).
    apply Permutation_map. now apply Permutation_sym. }
  split.
  - match goal with |- context [if ?c then _ else _] => destruct c end;
      [reflexivity|].
    rewrite Ea, Ea'. cbn [bind].
    destruct (mapM (Shape_toString Layout_default) (Marker_shapes b));
      cbn [bind]; [|reflexivity].
    now rewrite Es.
  - match goal with |- context [if ?c then _ else _] => destruct c end;
      [reflexivity|].
    destruct (mapM (Shape_toString Layout_default) (Marker_shapes b));
      cbn [bind]; [|reflexivity].
    rewrite Ea, Ea'. cbn [bind]. now rewrite Es.
Qed.

Lemma Marker_neq_any_order_witness :
  Marker_neq
    (mkMarker "b" (Marker_shapes square_marker ++ Marker_shapes circle_marker)
       4 4 2 2 "auto-start-reverse") dot_marker =
  Marker_neq
    (mkMarker "a" (Marker_shapes circle_marker ++ Marker_shapes square_marker)
       4 4 2 2 "auto") dot_marker.
Proof.
  apply (Marker_neq_any_order
           (mkMarker "a" (Marker_shapes circle_marker ++ Marker_shapes square_marker)
              4 4 2 2 "auto")
           (mkMarker "b" (Marker_shapes square_marker ++ Marker_shapes circle_marker)
              4 4 2 2 "auto-start-reverse") dot_marker);
    try reflexivity.
  apply Permutation_app_comm.
Defined.

(** ** Serializing without exceptions *)

Lemma Shape_made_wf (s : Shape) : Shape_made s -> Shape_wf s = true.
Proof. destruct s; try reflexivity. apply LineChart_built_wf. Qed.

Lemma pointer_made_wf (p : option Marker) : pointer_made p -> pointer_wf p = true.
Proof.
  destruct p as [m|]; [|reflexivity]. cbn [pointer_made pointer_wf]. intros H.
  unfold Marker_wf. apply forallb_forall. rewrite Forall_forall in H.
  intros s Hs. now apply Shape_made_wf, H.
Qed.

Lemma node_made_wf (s : Shape) : node_made s -> node_wf s = true.
Proof.
  intros [Hs Hm]. unfold node_wf. rewrite (Shape_made_wf s Hs). cbn [andb].
  destruct (Shape_as_Markerable s) as [m|]; [|reflexivity].
  destruct Hm as (H1 & H2 & H3).
  now rewrite (pointer_made_wf _ H1), (pointer_made_wf _ H2), (pointer_made_wf _ H3).
Qed.

(** X23: a document of the interface whose charts are charts of the
    interface, in its body and in the markers its body points to, is
    serialized without an exception: no empty optional is read, and the
    exception of Marker::toString stays out of reach. *)
Theorem Document_serializes (h : list Shape) (d : Document) :
  built h d -> Forall node_made h ->
  exists text, snd (Document_toString d) = Ok text.
Proof.
  intros Hb Hh.
  assert (Hwf : Forall (fun s => node_wf s = true) (Document_sorted_nodes d)).
  { rewrite <- Document_written_order_sorted_nodes, (built_written_order h d Hb).
    rewrite Forall_forall in *. intros s Hs. apply node_made_wf, Hh.
    eapply Permutation_in; [|exact Hs].
    apply Permutation_sym, (stable_sort_perm Shape_getZ). }
  destruct (Document_writeToStream_Ok d Hwf) as (w & _ & _ & _ & Hw & _).
  rewrite Document_toString_unfold. cbn [snd]. rewrite Hw. cbn [bind]. eauto.
Qed.

Lemma Document_serializes_witness :
  exists text,
    snd (Document_toString
           (fold_left Document_addShape
              [Shape_LineChart chart_example; line_with (Some circle_marker) None]
              (Document_new Layout_default))) = Ok text.
Proof.
  apply (Document_serializes
           ([] ++ [Shape_LineChart chart_example; line_with (Some circle_marker) None])).
  - apply built_fold_left, built_new.
  - constructor; [|constructor; [|constructor]].
    + split; [|exact I]. apply LineChart_built_push, LineChart_built_new.
    + split; [exact I|]. repeat split. repeat constructor.
Defined.

(** ** The path of a motion *)

Lemma AnimateMotion_path_rest (points : list Point) :
  (match points with [] => "" | _ :: _ => " " end) ++ AnimateMotion_path false points =
  concat_map (fun q => " L" ++ AnimateMotion_point q) points.
Proof.
  induction points as [|q rest IH]; [reflexivity|].
  cbn [AnimateMotion_path concat_map]. rewrite <- IH. unfold AnimateMotion_point.
  rewrite <- !append_assoc. reflexivity.
Qed.

(** X24: the path of a motion is written as M and the first point, then
    a blank, L and the point for each further one, after an opening quote;
    without points nothing is written, not even the opening quote, while
    toString always writes the closing one. *)
Theorem AnimateMotion_path_joined (l : Layout) (a : AnimateMotion) :
  AnimateMotion_toString l a =
  elemStart "animateMotion" false ++ AnimationBase_toString l (AnimateMotion_base a) ++
  "path=" ++
  match AnimateMotion_points a with
  | [] => ""
  | p :: rest =>
      dq ++ "M" ++ AnimateMotion_point p ++
      concat_map (fun q => " L" ++ AnimateMotion_point q) rest
  end ++ dq ++ " " ++ emptyElemEnd.
Proof.
  unfold AnimateMotion_toString. do 3 f_equal.
  destruct (AnimateMotion_points a) as [|p rest]; [reflexivity|].
  cbn [AnimateMotion_path]. rewrite <- (AnimateMotion_path_rest rest).
  unfold AnimateMotion_point. rewrite <- !append_assoc. reflexivity.
Qed.
